(** * ftp-deploy: the sync provider and the server-state bootstrap

    A shallow embedding of [FTPSyncProvider] (the constructor, the retry
    wrapper, the reconnect, the four remote operations and
    [syncLocalToServer]) and of the deploy module ([connect],
    [downloadFileList], [getServerFiles], [createLocalState],
    [ensureStateFileExists] and [deploy] itself).

    The FTP client, the logger, the console, the timings object, the local
    disk and the clock are outside the program.  A computation therefore
    consumes a script of replies of the server (one per client call), emits
    the events it causes in the order it causes them, and may end by a
    thrown JavaScript value. *)

From Stdlib Require Import String Ascii List ZArith Lia Bool Arith DecimalString.
From Stdlib Require Import Sorted Morphisms Setoid.
Import ListNotations.
Open Scope list_scope.
Open Scope string_scope.

Set Implicit Arguments.

(* ================================================================= *)
(** ** JavaScript strings *)

Module Js.

(** The double-quote character, for template strings that quote a path. *)
Definition quote : string := String (ascii_of_nat 34) EmptyString.

(** [s.includes(needle)] *)
Definition includes (needle s : string) : bool :=
  match index 0 needle s with Some _ => true | None => false end.

(** [s.startsWith(p)] *)
Definition startsWith (p s : string) : bool := prefix p s.

(** [s.replace(pat, rep)] with a string pattern: the first occurrence only. *)
Definition replace (pat rep s : string) : string :=
  match index 0 pat s with
  | Some i =>
      substring 0 i s ++ rep
      ++ substring (i + String.length pat)
                   (String.length s - (i + String.length pat)) s
  | None => s
  end.

(** [s.split(sep)] with a one-character separator: never empty. *)
Fixpoint split (sep : ascii) (s : string) : list string :=
  match s with
  | EmptyString => [EmptyString]
  | String c rest =>
      if Ascii.eqb c sep then EmptyString :: split sep rest
      else match split sep rest with
           | [] => [String c EmptyString]
           | h :: t => String c h :: t
           end
  end.

(** [l.join(sep)] *)
Definition join (sep : string) (l : list string) : string := String.concat sep l.

(** A number inside a template string. *)
Definition showNat (n : nat) : string := NilEmpty.string_of_uint (Nat.to_uint n).

Definition showZ (z : Z) : string := NilEmpty.string_of_int (Z.to_int z).

Definition nonEmpty (s : string) : bool :=
  match s with EmptyString => false | _ => true end.

End Js.

(* ================================================================= *)
(** ** Thrown values *)

(** What a [catch] clause receives: an [Error] (an [FTPError] of the client
    carries the reply code in [code]) or a value that is not one. *)
Inductive Thrown : Type :=
| JsError (message : string) (code : option Z)
| NonError (shown : string).

(** [error.message] inside a template string. *)
Definition messageOf (e : Thrown) : string :=
  match e with
  | JsError m _ => m
  | NonError _ => "undefined"
  end.

(** [e.code] *)
Definition codeOf (e : Thrown) : option Z :=
  match e with
  | JsError _ c => c
  | NonError _ => None
  end.

Inductive Outcome (A : Type) : Type :=
| Returned (a : A)
| Threw (e : Thrown).
Arguments Returned {A} a.
Arguments Threw {A} e.

(** The [TypeError] of a call whose callee holds no function: an [Error]
    without a code.  The wording of the message is the engine's. *)
Definition notAFunction (callee : string) : Thrown :=
  JsError (callee ++ " is not a function") None.

(* ================================================================= *)
(** ** The monad of the asynchronous code

    Every call of the source is awaited, so a method is a function from the
    state it starts in to its outcome, the events it emitted and the state
    it leaves. *)

Section Monad.

Variables E S : Type.

Record Res (A : Type) : Type :=
  mkRes { out : Outcome A; emitted : list E; final : S }.

Definition M (A : Type) : Type := S -> Res A.

Definition ret {A} (a : A) : M A := fun s => mkRes (Returned a) [] s.

Definition throw {A} (e : Thrown) : M A := fun s => mkRes (Threw e) [] s.

Definition emit (e : E) : M unit := fun s => mkRes (Returned tt) [e] s.

Definition bind {A B} (m : M A) (k : A -> M B) : M B :=
  fun s =>
    let r := m s in
    match out r with
    | Returned a =>
        let r' := k a (final r) in
        mkRes (out r') (emitted r ++ emitted r') (final r')
    | Threw e => mkRes (Threw e) (emitted r) (final r)
    end.

(** [try { m } catch (e) { h e }] *)
Definition tryCatch {A} (m : M A) (h : Thrown -> M A) : M A :=
  fun s =>
    let r := m s in
    match out r with
    | Returned a => r
    | Threw e =>
        let r' := h e (final r) in
        mkRes (out r') (emitted r ++ emitted r') (final r')
    end.

Definition gets {A} (f : S -> A) : M A := fun s => mkRes (Returned (f s)) [] s.

Definition modify (f : S -> S) : M unit := fun s => mkRes (Returned tt) [] (f s).

Definition when (b : bool) (m : M unit) : M unit := if b then m else ret tt.

(** [for (const x of l) { body x }] *)
Fixpoint forEach {A} (l : list A) (body : A -> M unit) : M unit :=
  match l with
  | [] => ret tt
  | x :: rest => bind (body x) (fun _ => forEach rest body)
  end.

End Monad.

Arguments ret {E S A} a.
Arguments throw {E S A} e.
Arguments emit {E S} e.
Arguments bind {E S A B} m k.
Arguments tryCatch {E S A} m h.
Arguments gets {E S A} f.
Arguments modify {E S} f.
Arguments when {E S} b m.
Arguments forEach {E S A} l body.
Arguments mkRes {E S A} out emitted final.
Arguments out {E S A} r.
Arguments emitted {E S A} r.
Arguments final {E S A} r.

Declare Scope js_scope.
Delimit Scope js_scope with js.
Notation "x <- m ;; k" := (bind m (fun x => k))
  (at level 61, m at next level, right associativity) : js_scope.
Notation "m ;; k" := (bind m (fun _ => k))
  (at level 61, right associativity) : js_scope.
Open Scope js_scope.

(** A loop whose body updates a local variable of the enclosing function
    ([operationsCount] in [syncLocalToServer]). *)
Fixpoint forEachWith {E S A C} (l : list A) (c : C) (body : A -> C -> M E S C)
  : M E S C :=
  match l with
  | [] => ret c
  | x :: rest => c' <- body x c ;; forEachWith rest c' body
  end.

(* ================================================================= *)
(** ** Data of the types module *)

Inductive RecordType : Type := TFile | TFolder.

Definition RecordType_eqb (a b : RecordType) : bool :=
  match a, b with
  | TFile, TFile | TFolder, TFolder => true
  | _, _ => false
  end.

(** One entry of a state file ([Record] in the source). *)
Record Entry : Type := mkEntry {
  type : RecordType;
  name : string;
  size : option Z;
  hash : option string
}.

Record IFileList : Type := mkFileList {
  description : string;
  version : string;
  generatedTime : Z;
  data : list Entry
}.

Record DiffResult : Type := mkDiff {
  upload : list Entry;
  delete : list Entry;
  replace : list Entry;
  same : list Entry;
  sizeUpload : Z;
  sizeDelete : Z;
  sizeReplace : Z
}.

(** What a file of the local disk holds: text that [JSON.parse] refuses, a
    state file, or the action list the older [updateStateFile] writes. *)
Inductive FileData : Type :=
| Text (raw : string)
| StateJson (m : IFileList)
| ActionJson (description : string) (version : string) (generatedTime : Z)
             (actions : list (Entry * string)).

(** [JSON.parse(text) as IFileList]: the cast checks nothing, so the action
    list reads back as a state file whose entries carry one more field. *)
Definition JSON_parse (d : FileData) : Outcome IFileList :=
  match d with
  | Text _ => Threw (JsError "Unexpected token in JSON" None)
  | StateJson m => Returned m
  | ActionJson d v t l => Returned (mkFileList d v t (map fst l))
  end.

(* ================================================================= *)
(** ** The transport, the logger and the disk *)

Inductive Level : Type := LAll | LStandard | LVerbose.

(** The [secure] option of [client.access]: [false], [true] (explicit TLS)
    or the string implicit. *)
Inductive Secure : Type := SecureFalse | SecureTrue | SecureImplicit.

Record AccessOptions : Type := mkAccess {
  host : string;
  user : string;
  password : string;
  port : option Z;
  secure : Secure;
  rejectUnauthorized : bool
}.

(** The methods of the FTP client the program calls. *)
Inductive Call : Type :=
| Access (o : AccessOptions)
| Close
| Send (command : string)
| EnsureDir (path : string)
| Cdup
| Remove (path : string)
| RemoveDir (path : string)
| UploadFrom (localFile remoteFile : string)
| DownloadTo (localFile remoteFile : string)
| ListDir (path : string)
| ClearWorkingDir.

(** The calls that change the remote target.  [Send] is only ever the
    keep-alive probe; [Access], [Close], [Cdup], [DownloadTo] and [ListDir]
    change the session or nothing. *)
Definition mutating (c : Call) : bool :=
  match c with
  | EnsureDir _ | Remove _ | RemoveDir _ | UploadFrom _ _ | ClearWorkingDir => true
  | _ => false
  end.

(** What the server side of a call delivers. *)
Inductive Payload : Type :=
| NoData
| Names (files : list string)
| Body (d : FileData).

Inductive Reply : Type :=
| Ok (p : Payload)
| Fail (e : Thrown).

(** Events on the session, the logger and the console. *)
Inductive NetEvent : Type :=
| Called (c : Call)
| NewClient
| Logged (l : Level) (msg : string)
| ConsoleError (msg : string)
| ConsoleLog (msg : string)
| Timing (start : bool) (label : string)
| SetVerbose (on : bool)
| TrackProgress.

(** Events of the whole program: the above and the writes to the disk. *)
Inductive Event : Type :=
| OnNet (e : NetEvent)
| WroteFile (path : string) (d : FileData)
| Unlinked (path : string).

(** The session level: the replies still to come. *)
Definition Net : Type := list Reply.
Definition NetM : Type -> Type := M NetEvent Net.

(** One call of the client: it is recorded, and the next reply of the
    script decides it (a script that has run out answers with success). *)
Definition call (c : Call) : NetM Payload :=
  fun script =>
    match script with
    | [] => mkRes (Returned NoData) [Called c] []
    | Ok p :: rest => mkRes (Returned p) [Called c] rest
    | Fail e :: rest => mkRes (Threw e) [Called c] rest
    end.

Definition log (l : Level) (msg : string) : NetM unit := emit (Logged l msg).

Definition Disk : Type := list (string * FileData).

Fixpoint readFile (path : string) (d : Disk) : option FileData :=
  match d with
  | [] => None
  | (p, c) :: rest => if String.eqb p path then Some c else readFile path rest
  end.

(** The state a run threads: the session script, the disk, the readings
    the clock will give, and the two mutable fields of the provider. *)
Record World : Type := mkWorld {
  script : Net;
  disk : Disk;
  ticks : list Z;
  lastNoopTime : Z;
  state : IFileList
}.

Definition ProgM : Type -> Type := M Event World.

Definition setScript (n : Net) (w : World) : World :=
  mkWorld n (disk w) (ticks w) (lastNoopTime w) (state w).
Definition setDisk (d : Disk) (w : World) : World :=
  mkWorld (script w) d (ticks w) (lastNoopTime w) (state w).
Definition setTicks (t : list Z) (w : World) : World :=
  mkWorld (script w) (disk w) t (lastNoopTime w) (state w).
Definition setLastNoopTime (t : Z) (w : World) : World :=
  mkWorld (script w) (disk w) (ticks w) t (state w).
Definition setState (m : IFileList) (w : World) : World :=
  mkWorld (script w) (disk w) (ticks w) (lastNoopTime w) m.

(** A session-level computation inside the program. *)
Definition onNet {A} (m : NetM A) : ProgM A :=
  fun w =>
    let r := m (script w) in
    mkRes (out r) (map OnNet (emitted r)) (setScript (final r) w).

(** [Date.now()] and [new Date().getTime()]: the next reading of the clock. *)
Definition now : ProgM Z :=
  fun w =>
    match ticks w with
    | [] => mkRes (Returned 0%Z) [] w
    | t :: rest => mkRes (Returned t) [] (setTicks rest w)
    end.

(** [fs.writeFileSync(path, JSON.stringify(d))] *)
Definition writeFileSync (path : string) (d : FileData) : ProgM unit :=
  fun w => mkRes (Returned tt) [WroteFile path d] (setDisk ((path, d) :: disk w) w).

Definition unlinkSync (path : string) : ProgM unit :=
  fun w =>
    mkRes (Returned tt) [Unlinked path]
          (setDisk (filter (fun e => negb (String.eqb (fst e) path)) (disk w)) w).

(** The calls and the disk writes among the events of a run. *)
Definition callsOf (l : list Event) : list Call :=
  flat_map (fun e => match e with OnNet (Called c) => [c] | _ => [] end) l.

Definition netCalls (l : list NetEvent) : list Call :=
  flat_map (fun e => match e with Called c => [c] | _ => [] end) l.

Definition writesOf (l : list Event) : list (string * FileData) :=
  flat_map (fun e => match e with WroteFile p d => [(p, d)] | _ => [] end) l.

(* ================================================================= *)
(** ** What the sources import from modules that are not part of them *)

(** The utilities and types modules and the package pretty-bytes are not
    among the sources.  Their functions and constants are parameters of the
    development.  [retryRequest] receives the logger and a callback, so it
    acts on the session level only: it has no access to the disk, the clock
    or the private fields of the provider. *)
Record External : Type := mkExternal {
  retryRequest : forall A : Type, NetM A -> NetM A;
  pluralize : nat -> string -> string -> string;
  prettyBytes : Z -> string;
  applyExcludeFilter : string -> bool -> list string -> bool;
  toLocaleDateString : Z -> string;
  currentSyncFileVersion : string;
  syncFileDescription : string;
  FileNotFoundOrNoAccess : Z
}.

(** The fields of [FTPSyncProvider] the constructor copies from its
    arguments and never assigns again. *)
Record Provider : Type := mkProvider {
  localPath : string;
  serverPath : string;
  stateName : string;
  dryRun : bool;
  server : string;
  username : string;
  providerPassword : string
}.

(** [ensureDir] of the sync provider module. *)
Definition ensureDir (X : External) (folder : string) : NetM unit :=
  emit (Timing true "changingDir") ;;
  log LVerbose ("  changing dir to " ++ folder) ;;
  retryRequest X (call (EnsureDir folder)) ;;
  log LVerbose "  dir changed" ;;
  emit (Timing false "changingDir").

(** [createLocalState] of the deploy module. *)
Definition createLocalState (localFiles : IFileList) (localDir stateName' : string)
  : ProgM unit :=
  onNet (log LVerbose ("Creating local state at " ++ localDir ++ stateName')) ;;
  writeFileSync (localDir ++ stateName') (StateJson localFiles) ;;
  onNet (log LVerbose "Local state created").

Record IFilePath : Type := mkFilePath {
  folders : option (list string);
  file : option string
}.

Definition slash : ascii := ascii_of_nat 47.

(** [getFileBreadcrumbs] *)
Definition getFileBreadcrumbs (fullPath : string) : IFilePath :=
  let pathSplit := Js.split slash fullPath in
  let file := last pathSplit EmptyString in
  let folders := filter Js.nonEmpty (removelast pathSplit) in
  mkFilePath
    (match folders with [] => None | _ => Some folders end)
    (match file with EmptyString => None | _ => Some file end).

(* ================================================================= *)
(** ** The connection-resilience layer *)

(** The error [safeOperation] throws once the loop is over. *)
Definition exhausted (retries : nat) (lastError : option Thrown) : Thrown :=
  JsError ("Operation failed after " ++ Js.showNat retries ++ " attempts: "
           ++ match lastError with Some e => messageOf e | None => "undefined" end)
          None.

(** The loop of [safeOperation], with [remaining = retries - attempt].  The
    two versions of the class differ in the [catch] block only, which is
    the parameter [catchBlock]; its value is what [lastError] holds
    afterwards. *)
Fixpoint attempts {A} (catchBlock : nat -> nat -> Thrown -> NetM Thrown)
         (operation : NetM A) (retries remaining attempt : nat)
         (lastError : option Thrown) : NetM A :=
  match remaining with
  | 0 => throw (exhausted retries lastError)
  | S k =>
      tryCatch operation
               (fun error =>
                  l <- catchBlock retries attempt error ;;
                  attempts catchBlock operation retries k (attempt + 1) (Some l))
  end.

Definition defaultRetries : nat := 3.

Definition attemptNote (attempt retries : nat) : string :=
  "Operation failed (attempt " ++ Js.showNat (attempt + 1) ++ "/"
  ++ Js.showNat retries ++ "): ".

Section Resilience.

Variable P : Provider.

(** The options [reconnect] hands to [client.access]. *)
Definition reconnectOptions : AccessOptions :=
  mkAccess (server P) (username P) (providerPassword P) None SecureTrue false.

(** [reconnect] *)
Definition reconnect : NetM unit :=
  log LVerbose "Reconnecting to FTP server..." ;;
  tryCatch (call Close ;; ret tt)
           (fun error =>
              log LVerbose ("Error while closing client (ignored): " ++ messageOf error)) ;;
  emit NewClient ;;
  call (Access reconnectOptions) ;;
  log LVerbose "Reconnected successfully.".

(** The two signatures of a dropped connection. *)
Definition connectionDropped (message : string) : bool :=
  Js.includes "Client is closed" message
  || Js.includes "Server sent FIN packet" message.

(** The [catch] block of [safeOperation]. *)
Definition onFailure (retries attempt : nat) (error : Thrown) : NetM Thrown :=
  lastError <-
    match error with
    | JsError message _ =>
        (if connectionDropped message
         then log LVerbose ("Connection issue detected: " ++ message) ;;
              log LVerbose "Attempting to reconnect..." ;;
              reconnect
         else emit (ConsoleError (attemptNote attempt retries ++ message))) ;;
        ret error
    | NonError _ =>
        emit (ConsoleError (attemptNote attempt retries ++ "Unknown error")) ;;
        ret (JsError "Unknown error occurred" None)
    end ;;
  when (Nat.ltb attempt (retries - 1)) (emit (ConsoleLog "Retrying...")) ;;
  ret lastError.

(** [safeOperation(operation, retries = 3)] *)
Definition safeOperation {A} (operation : NetM A) (retries : nat) : NetM A :=
  attempts onFailure operation retries retries 0 None.

End Resilience.

(* ================================================================= *)
(** ** The operations both versions of the provider share *)

Section Operations.

Variable X : External.
Variable P : Provider.

(** [this.safeOperation] of the version at hand, at its default budget. *)
Variable safeOp : forall A : Type, NetM A -> NetM A.

(** [sendNoopIfNeeded(force = false)] *)
Definition sendNoopIfNeeded (force : bool) : ProgM unit :=
  t <- now ;;
  last <- gets lastNoopTime ;;
  if (5000 <? t - last)%Z || force then
    tryCatch
      (onNet (call (Send "NOOP")) ;;
       onNet (log LAll "{Hey Mr. FTP ... I'm still here!!!} - 💩👉🏻 ") ;;
       modify (setLastNoopTime t))
      (fun error =>
         match error with
         | JsError message _ => onNet (log LVerbose ("Failed to send NOOP: " ++ message))
         | NonError _ => onNet (log LVerbose "Failed to send NOOP: Unknown error")
         end)
  else ret tt.

(** [upDir(dirCount)]; [None] is a [dirCount] that is not a number. *)
Definition upDir (dirCount : option nat) : NetM unit :=
  match dirCount with
  | None => ret tt
  | Some n => forEach (seq 0 n) (fun _ => retryRequest X (call Cdup) ;; ret tt)
  end.

(** [removeFile] *)
Definition removeFile (filePath : string) : ProgM unit :=
  onNet (log LAll ("removing " ++ Js.quote ++ filePath ++ Js.quote)) ;;
  (if negb (dryRun P) then
     tryCatch
       (onNet (safeOp (call (Remove filePath))) ;; ret tt)
       (fun e =>
          if match codeOf e with
             | Some c => (c =? FileNotFoundOrNoAccess X)%Z
             | None => false
             end
          then onNet (log LStandard
                 "File not found or you don't have access to the file - skipping...")
          else throw e)
   else ret tt) ;;
  onNet (log LVerbose "  file removed") ;;
  onNet (log LVerbose "  completed").

(** The path [removeFolder] asks the client to remove. *)
Definition absoluteFolderPath (folderPath : string) : string :=
  "/" ++ (if Js.startsWith "./" (serverPath P)
          then Js.replace "./" EmptyString (serverPath P)
          else serverPath P)
      ++ folderPath.

(** [removeFolder] *)
Definition removeFolder (folderPath : string) : ProgM unit :=
  onNet (log LAll ("removing folder " ++ Js.quote ++ absoluteFolderPath folderPath
                   ++ Js.quote)) ;;
  (if negb (dryRun P) then
     onNet (safeOp (retryRequest X (call (RemoveDir (absoluteFolderPath folderPath))))) ;;
     ret tt
   else ret tt) ;;
  onNet (log LVerbose "  completed").

Inductive UploadType : Type := TUpload | TReplace.

(** [uploadFile(filePath, type)] *)
Definition uploadFile (filePath : string) (type : UploadType) : ProgM unit :=
  let typePresent := match type with TUpload => "uploading" | TReplace => "replacing" end in
  let typePast := match type with TUpload => "uploaded" | TReplace => "replaced" end in
  onNet (log LAll (typePresent ++ " " ++ Js.quote ++ filePath ++ Js.quote)) ;;
  sendNoopIfNeeded false ;;
  (if negb (dryRun P) then
     onNet (safeOp (call (UploadFrom (localPath P ++ filePath) filePath))) ;; ret tt
   else ret tt) ;;
  onNet (log LVerbose ("  file " ++ typePast)).

(** The first four lines [syncLocalToServer] logs. *)
Definition announceSync (diffs : DiffResult) : ProgM unit :=
  let totalCount :=
    (length (delete diffs) + length (upload diffs) + length (replace diffs))%nat in
  let rule := "----------------------------------------------------------------" in
  onNet (log LAll rule) ;;
  onNet (log LAll ("Making changes to " ++ Js.showNat totalCount ++ " "
                   ++ pluralize X totalCount "file/folder" "files/folders"
                   ++ " to sync server state")) ;;
  onNet (log LAll ("Uploading: " ++ prettyBytes X (sizeUpload diffs)
                   ++ " -- Deleting: " ++ prettyBytes X (sizeDelete diffs)
                   ++ " -- Replacing: " ++ prettyBytes X (sizeReplace diffs))) ;;
  onNet (log LAll rule).

(** The five filters of [syncLocalToServer]. *)
Definition isFolder (e : Entry) : bool := RecordType_eqb (type e) TFolder.
Definition isFile (e : Entry) : bool := RecordType_eqb (type e) TFile.
Definition notStateFile (e : Entry) : bool := negb (String.eqb (name e) (stateName P)).

Definition foldersToCreate (d : DiffResult) : list Entry := filter isFolder (upload d).
Definition filesToUpload (d : DiffResult) : list Entry :=
  filter notStateFile (filter isFile (upload d)).
Definition filesToReplace (d : DiffResult) : list Entry :=
  filter notStateFile (filter isFile (replace d)).
Definition filesToDelete (d : DiffResult) : list Entry := filter isFile (delete d).
Definition foldersToDelete (d : DiffResult) : list Entry := filter isFolder (delete d).

End Operations.

(* ================================================================= *)
(** ** The provider with the periodic flush of the state file *)

Module Current.
Section Provider.

Variable X : External.
Variable P : Provider.

Definition safeOp (A : Type) (operation : NetM A) : NetM A :=
  safeOperation P operation defaultRetries.

(** [createLocalState] as this module sees it.  The name is imported from
    the deploy module, and the deploy module declares its [createLocalState]
    without exporting it: the imported binding holds no function, and the
    call of it throws a [TypeError] once the arguments are evaluated, before
    anything is logged or written. *)
Definition createLocalState (localFiles : IFileList) (localDir stateName' : string)
  : ProgM unit :=
  throw (notAFunction "createLocalState").

(** The constructor: the field initialiser of [lastNoopTime], then the
    state read from the local state file when there is one. *)
Definition construct : ProgM unit :=
  t <- now ;;
  modify (setLastNoopTime t) ;;
  d <- gets disk ;;
  match readFile (localPath P ++ stateName P) d with
  | Some content =>
      match JSON_parse content with
      | Returned m =>
          modify (setState m) ;;
          onNet (log LVerbose "State loaded from file.")
      | Threw e => throw e
      end
  | None =>
      t' <- now ;;
      modify (setState (mkFileList "Sync state file" "1.0.0" t' [])) ;;
      onNet (log LVerbose "Initialized new empty state.")
  end.

(** [this.state.data.push(newEntry)] *)
Definition pushEntry (e : Entry) (m : IFileList) : IFileList :=
  mkFileList (description m) (version m) (generatedTime m) (data m ++ [e]).

(** [createFolder] *)
Definition createFolder (folderPath : string) : ProgM unit :=
  onNet (log LAll ("creating folder " ++ Js.quote ++ (folderPath ++ "/") ++ Js.quote)) ;;
  if dryRun P then ret tt
  else
    sendNoopIfNeeded false ;;
    let path := getFileBreadcrumbs (folderPath ++ "/") in
    match folders path with
    | None => onNet (log LVerbose "  no need to change dir")
    | Some fs => onNet (safeOp (ensureDir X (Js.join "/" fs)))
    end ;;
    onNet (upDir X (option_map (@length string) (folders path))) ;;
    onNet (log LVerbose "  completed") ;;
    modify (fun w => setState (pushEntry (mkEntry TFolder folderPath None None) (state w)) w) ;;
    m <- gets state ;;
    createLocalState m (localPath P) (stateName P).

Definition removeFile := removeFile X P safeOp.
Definition removeFolder := removeFolder X P safeOp.
Definition uploadFile := uploadFile P safeOp.

(** The closure [flushState] of [syncLocalToServer]; [operationsCount] is
    the variable it reads. *)
Definition flushState (operationsCount : nat) : ProgM unit :=
  if negb (dryRun P) then
    tryCatch
      (onNet (safeOp (call (UploadFrom (localPath P ++ stateName P)
                                       (serverPath P ++ stateName P)))) ;;
       onNet (log LVerbose ("State file " ++ Js.quote ++ stateName P ++ Js.quote
                            ++ " uploaded to the server after "
                            ++ Js.showNat operationsCount ++ " operations.")))
      (fun error =>
         onNet (log LAll ("⚠️ Failed to upload state file: " ++ messageOf error)))
  else ret tt.

(** The end of every loop body: [operationsCount++] and the flush at
    each multiple of five. *)
Definition counted (operationsCount : nat) : ProgM nat :=
  let c := operationsCount + 1 in
  (if Nat.eqb (c mod 5) 0 then flushState c else ret tt) ;;
  ret c.

(** [syncLocalToServer] *)
Definition syncLocalToServer (diffs : DiffResult) : ProgM unit :=
  announceSync X diffs ;;
  c <- forEachWith (foldersToCreate diffs) 0 (fun file c =>
         onNet (log LStandard ("📁 Creating folder: " ++ name file)) ;;
         createFolder (name file) ;;
         counted c) ;;
  c <- forEachWith (filesToUpload P diffs) c (fun file c =>
         onNet (log LStandard ("📄 Uploading new file: " ++ name file)) ;;
         uploadFile (name file) TUpload ;;
         counted c) ;;
  c <- forEachWith (filesToReplace P diffs) c (fun file c =>
         onNet (log LStandard ("🔁 Replacing file: " ++ name file)) ;;
         uploadFile (name file) TReplace ;;
         counted c) ;;
  c <- forEachWith (filesToDelete diffs) c (fun file c =>
         onNet (log LStandard ("📄 Deleting file: " ++ name file)) ;;
         removeFile (name file) ;;
         counted c) ;;
  c <- forEachWith (foldersToDelete diffs) c (fun file c =>
         onNet (log LStandard ("📁 Deleting folder: " ++ name file)) ;;
         removeFolder (name file) ;;
         counted c) ;;
  onNet (log LAll "----------------------------------------------------------------") ;;
  onNet (log LAll "A je to tam! 💩") ;;
  onNet (log LAll ("🎉 Sync complete. Saving current server state to " ++ Js.quote
                   ++ (serverPath P ++ stateName P) ++ Js.quote)) ;;
  flushState c.

End Provider.
End Current.

(* ================================================================= *)
(** ** The provider that writes the state file when the sync is
       interrupted (the file named syncProvider.ts) *)

Module Legacy.
Section Provider.

Variable X : External.
Variable P : Provider.

(** The [catch] block of this version's [safeOperation]: one signature,
    and the console line in both branches. *)
Definition onFailure (retries attempt : nat) (error : Thrown) : NetM Thrown :=
  lastError <-
    match error with
    | JsError message _ =>
        (if Js.includes "Client is closed" message
         then log LVerbose "Client closed, attempting to reconnect..." ;;
              reconnect P
         else ret tt) ;;
        emit (ConsoleError (attemptNote attempt retries ++ message)) ;;
        ret error
    | NonError _ =>
        emit (ConsoleError (attemptNote attempt retries ++ "Unknown error")) ;;
        ret (JsError "Unknown error occurred" None)
    end ;;
  when (Nat.ltb attempt (retries - 1)) (emit (ConsoleLog "Retrying...")) ;;
  ret lastError.

Definition safeOperation {A} (operation : NetM A) (retries : nat) : NetM A :=
  attempts onFailure operation retries retries 0 None.

Definition safeOp (A : Type) (operation : NetM A) : NetM A :=
  safeOperation operation defaultRetries.

Definition tagged (action : string) (l : list Entry) : list (Entry * string) :=
  map (fun file => (file, action)) l.

(** [updateStateFile] *)
Definition updateStateFile (localPath' stateName' : string) (diffs : DiffResult)
  : ProgM unit :=
  let stateFilePath := localPath' ++ stateName' in
  t <- now ;;
  writeFileSync stateFilePath
    (ActionJson "Updated state after partial sync" (currentSyncFileVersion X) t
       (tagged "upload" (upload diffs) ++ tagged "delete" (delete diffs)
        ++ tagged "replace" (replace diffs))) ;;
  onNet (log LVerbose ("State file updated at " ++ Js.quote ++ stateFilePath ++ Js.quote)).

(** [createFolder] *)
Definition createFolder (folderPath : string) : ProgM unit :=
  onNet (log LAll ("creating folder " ++ Js.quote ++ (folderPath ++ "/") ++ Js.quote)) ;;
  if dryRun P then ret tt
  else
    sendNoopIfNeeded false ;;
    let path := getFileBreadcrumbs (folderPath ++ "/") in
    match folders path with
    | None => onNet (log LVerbose "  no need to change dir")
    | Some fs => onNet (safeOp (ensureDir X (Js.join "/" fs)))
    end ;;
    updateStateFile (localPath P) (stateName P)
      (mkDiff [mkEntry TFolder folderPath None None] [] [] [] 0%Z 0%Z 0%Z) ;;
    onNet (upDir X (option_map (@length string) (folders path))) ;;
    onNet (log LVerbose "  completed").

Definition removeFile := removeFile X P safeOp.
Definition removeFolder := removeFolder X P safeOp.
Definition uploadFile := uploadFile P safeOp.

(** [syncLocalToServer] *)
Definition syncLocalToServer (diffs : DiffResult) : ProgM unit :=
  announceSync X diffs ;;
  tryCatch
    (forEach (foldersToCreate diffs) (fun file => createFolder (name file)) ;;
     forEach (filesToUpload P diffs) (fun file => uploadFile (name file) TUpload) ;;
     forEach (filesToReplace P diffs) (fun file => uploadFile (name file) TReplace) ;;
     forEach (filesToDelete diffs) (fun file => removeFile (name file)) ;;
     forEach (foldersToDelete diffs) (fun file => removeFolder (name file)) ;;
     onNet (log LAll "----------------------------------------------------------------") ;;
     onNet (log LAll "🎉 Sync complete."))
    (fun error =>
       onNet (log LAll ("⚠️ Sync interrupted due to an error: " ++ messageOf error)) ;;
       updateStateFile (localPath P) (stateName P) diffs ;;
       throw error).

End Provider.
End Legacy.

(* ================================================================= *)
(** ** The deploy module: connecting and fetching the server state *)

Inductive Protocol : Type := Ftp | Ftps | FtpsLegacy.
Inductive Security : Type := Strict | Loose.
Inductive LogLevel : Type := Minimal | Standard | Verbose.

Definition protocolName (p : Protocol) : string :=
  match p with Ftp => "ftp" | Ftps => "ftps" | FtpsLegacy => "ftps-legacy" end.

(** [IFtpDeployArgumentsWithDefaults] *)
Record Args : Type := mkArgs {
  argServer : string;
  argUsername : string;
  argPassword : string;
  argPort : Z;
  protocol : Protocol;
  localDir : string;
  serverDir : string;
  argStateName : string;
  argDryRun : bool;
  dangerousCleanSlate : bool;
  exclude : list string;
  logLevel : LogLevel;
  security : Security;
  timeout : Z
}.

(** The provider [deploy] constructs from its arguments. *)
Definition providerOf (args : Args) : Provider :=
  mkProvider (localDir args) (serverDir args) (argStateName args) (argDryRun args)
             (argServer args) (argUsername args) (argPassword args).

Definition isVerbose (l : LogLevel) : bool :=
  match l with Verbose => true | _ => false end.

(** The options [connect] hands to [client.access]. *)
Definition connectOptions (args : Args) : AccessOptions :=
  mkAccess (argServer args) (argUsername args) (argPassword args) (Some (argPort args))
           (match protocol args with
            | Ftps => SecureTrue
            | FtpsLegacy => SecureImplicit
            | Ftp => SecureFalse
            end)
           (match security args with Strict => true | Loose => false end).

(** [connect] *)
Definition connect (args : Args) : NetM unit :=
  emit (SetVerbose (isVerbose (logLevel args))) ;;
  tryCatch
    (log LVerbose ("Attempting connection to " ++ argServer args ++ ":"
                   ++ Js.showZ (argPort args) ++ " via " ++ protocolName (protocol args)) ;;
     call (Access (connectOptions args)) ;;
     log LVerbose "FTP connection successful.")
    (fun error =>
       log LAll "Connection failed. Ensure the server supports the chosen protocol (FTP/FTPS)." ;;
       log LVerbose ("Connection error: " ++ messageOf error) ;;
       throw error) ;;
  when (isVerbose (logLevel args)) (emit TrackProgress).

(** The lines [deploy] logs for the change set it has computed, before it
    hands the change set to the provider. *)
Definition diffLines (diffs : DiffResult) : list string :=
  let line (prefix : string) (item : Entry) : string := prefix ++ name item in
  (map (line "📁 Create: ") (filter isFolder (upload diffs))
   ++ map (line "📄 Upload: ") (filter isFile (upload diffs))
   ++ map (line "🔁 File replace: ") (replace diffs)
   ++ map (line "📄 Delete: ") (filter isFile (delete diffs))
   ++ map (line "📁 Delete: ") (filter isFolder (delete diffs))
   ++ map (line "⚖️  File content is the same, doing nothing: ")
          (filter isFile (same diffs)))%list.

(** The logging block of [deploy] between [getDiffs] and the construction
    of the provider. *)
Definition logDiffs (diffs : DiffResult) : NetM unit :=
  forEach (filter isFolder (upload diffs))
          (fun item => log LStandard ("📁 Create: " ++ name item)) ;;
  forEach (filter isFile (upload diffs))
          (fun item => log LStandard ("📄 Upload: " ++ name item)) ;;
  forEach (replace diffs)
          (fun item => log LStandard ("🔁 File replace: " ++ name item)) ;;
  forEach (filter isFile (delete diffs))
          (fun item => log LStandard ("📄 Delete: " ++ name item)) ;;
  forEach (filter isFolder (delete diffs))
          (fun item => log LStandard ("📁 Delete: " ++ name item)) ;;
  forEach (same diffs)
          (fun item =>
             if isFile item
             then log LStandard ("⚖️  File content is the same, doing nothing: " ++ name item)
             else ret tt).

Section Deploy.

Variable X : External.

Definition tempFileNameHack : string :=
  ".ftp-deploy-sync-server-state-buffer-file---delete.json".

(** What the client leaves in the buffer file: the body the server sent,
    and an empty file when it sent none. *)
Definition received (p : Payload) : FileData :=
  match p with Body d => d | _ => Text EmptyString end.

(** [downloadFileList]: the client stores what the server sent in the
    buffer file, which is then read, parsed and removed. *)
Definition downloadFileList (path : string) : ProgM IFileList :=
  p <- onNet (retryRequest X (call (DownloadTo tempFileNameHack path))) ;;
  modify (fun w => setDisk ((tempFileNameHack, received p) :: disk w) w) ;;
  d <- gets disk ;;
  match readFile tempFileNameHack d with
  | None => throw (JsError "ENOENT: no such file or directory" None)
  | Some content =>
      match JSON_parse content with
      | Threw e => throw e
      | Returned fileAsObject => unlinkSync tempFileNameHack ;; ret fileAsObject
      end
  end.

(** The state [getServerFiles] answers with when anything above failed. *)
Definition emptyState (t : Z) : IFileList :=
  mkFileList (syncFileDescription X) (currentSyncFileVersion X) t [].

Definition withData (m : IFileList) (l : list Entry) : IFileList :=
  mkFileList (description m) (version m) (generatedTime m) l.

(** The exclude filter applied to the entries of the server state. *)
Definition kept (args : Args) (item : Entry) : bool :=
  applyExcludeFilter X (name item) (RecordType_eqb (type item) TFolder) (exclude args).

Definition rule : string :=
  "----------------------------------------------------------------".

(** The [try] block of [getServerFiles]. *)
Definition fetchServerFiles (args : Args) : ProgM IFileList :=
  onNet (ensureDir X (serverDir args)) ;;
  (if dangerousCleanSlate args then
     onNet (log LAll rule) ;;
     onNet (log LAll "🗑️ Removing all files on the server because 'dangerous-clean-slate' was set, this will make the deployment very slow...") ;;
     (if negb (argDryRun args) then onNet (call ClearWorkingDir) ;; ret tt else ret tt) ;;
     onNet (log LAll "Clear complete") ;;
     throw (JsError "dangerous-clean-slate was run" None)
   else ret tt) ;;
  serverFiles <- downloadFileList (argStateName args) ;;
  onNet (log LAll rule) ;;
  onNet (log LAll ("Last published on 📅 "
                   ++ toLocaleDateString X (generatedTime serverFiles))) ;;
  ret (match exclude args with
       | [] => serverFiles
       | _ => withData serverFiles (filter (kept args) (data serverFiles))
       end).

(** [getServerFiles] *)
Definition getServerFiles (args : Args) : ProgM IFileList :=
  tryCatch
    (fetchServerFiles args)
    (fun _ =>
       onNet (log LAll rule) ;;
       onNet (log LAll ("No file exists on the server " ++ Js.quote
                        ++ (serverDir args ++ argStateName args) ++ Js.quote
                        ++ " - this must be your first publish! 🎉")) ;;
       onNet (log LAll "The first publish will take a while... but once the initial sync is done only differences are published!") ;;
       onNet (log LAll "If you get this message and its NOT your first publish, something is wrong.") ;;
       t <- now ;;
       ret (emptyState t)).

End Deploy.

(* ================================================================= *)
(** ** The deploy module: the state file on the server and the whole run *)

(** [try { m } finally { f }]: [f] runs however [m] ends, and a fault of
    [f] takes the place of the outcome of [m]. *)
Definition finally {E S A} (m : M E S A) (f : M E S unit) : M E S A :=
  fun s =>
    let r := m s in
    let r' := f (final r) in
    mkRes (match out r' with Returned _ => out r | Threw e => Threw e end)
          (emitted r ++ emitted r') (final r').

(** The value of an awaited call of a function that has no access to the
    client, the logger or the disk. *)
Definition liftOutcome {A} (o : Outcome A) : ProgM A :=
  match o with
  | Returned a => ret a
  | Threw e => throw e
  end.

(** The file names of a listing [client.list] delivers. *)
Definition listed (p : Payload) : list string :=
  match p with Names files => files | _ => [] end.

(** What [deploy] imports besides, from modules that are not among the
    sources.  [getLocalFiles] scans the local directory; it receives the
    arguments only, so it has neither the client nor the logger.
    [getDiffs] is the method of [HashDiff].  [prettyError] receives the
    logger, the arguments and the fault: what it does is the lines it logs.
    [formatNumber] is the function of the utilities module and [stringify]
    stands for [JSON.stringify] on the exclude list.  [getTimeFormatted]
    is the reading of the timings object for a label, and [uploadSpeed] the
    text [prettyBytes] makes of the bytes uploaded over the reading of the
    upload timer. *)
Record Host : Type := mkHost {
  getLocalFiles : Args -> Outcome IFileList;
  getDiffs : IFileList -> IFileList -> Outcome DiffResult;
  prettyError : Args -> Thrown -> list (Level * string);
  formatNumber : nat -> string;
  stringify : list string -> string;
  getTimeFormatted : string -> string;
  uploadSpeed : Z -> string
}.

Definition tab : string := String (ascii_of_nat 9) EmptyString.

Section DeployRun.

Variable X : External.
Variable H : Host.

(** [ensureStateFileExists] *)
Definition ensureStateFileExists (localPath' serverPath' stateName' : string)
  : ProgM unit :=
  let serverStatePath := serverPath' ++ stateName' in
  onNet (log LAll ("Ensuring state file " ++ Js.quote ++ serverStatePath ++ Js.quote
                   ++ " exists on the server.")) ;;
  tryCatch
    (files <- onNet (call (ListDir serverPath')) ;;
     let stateFileExists := existsb (fun file => String.eqb file stateName') (listed files) in
     if negb stateFileExists then
       onNet (log LStandard ("State file " ++ Js.quote ++ serverStatePath ++ Js.quote
                             ++ " does not exist. Creating it...")) ;;
       t <- now ;;
       createLocalState (emptyState X t) localPath' stateName' ;;
       onNet (call (UploadFrom (localPath' ++ stateName') serverStatePath)) ;;
       onNet (log LStandard ("State file " ++ Js.quote ++ serverStatePath ++ Js.quote
                             ++ " has been created on the server."))
     else
       onNet (log LStandard ("State file " ++ Js.quote ++ serverStatePath ++ Js.quote
                             ++ " already exists.")))
    (fun error =>
       onNet (log LAll ("Error ensuring state file exists: " ++ messageOf error)) ;;
       throw error).

(** [global.reconnect], as [deploy] defines it. *)
Definition globalReconnect (args : Args) : NetM unit :=
  emit (Timing true "connecting") ;;
  connect args ;;
  emit (Timing false "connecting").

(** The inner [try] of [deploy]: the provider is constructed and applies
    the change set, and the upload timer is stopped however that ends.  The
    provider is the one with the periodic flush, whose module imports
    [createLocalState] from this one. *)
Definition runProvider (args : Args) (diffs : DiffResult) : ProgM unit :=
  onNet (emit (Timing true "upload")) ;;
  finally
    (Current.construct (providerOf args) ;;
     Current.syncLocalToServer X (providerOf args) diffs)
    (onNet (emit (Timing false "upload"))).

(** The outer [try] block of [deploy].  Its value is what the block
    assigns to [totalBytesUploaded], which is read after the block only. *)
Definition deployTry (args : Args) (localFiles : IFileList) : ProgM Z :=
  onNet (globalReconnect args) ;;
  ensureStateFileExists (localDir args) (serverDir args) (argStateName args) ;;
  serverFiles <- getServerFiles X args ;;
  onNet (emit (Timing true "logging")) ;;
  onNet (log LStandard rule) ;;
  onNet (log LStandard ("Local Files:" ++ tab
                        ++ formatNumber H (length (data localFiles)))) ;;
  onNet (log LStandard ("Server Files:" ++ tab
                        ++ formatNumber H (length (data serverFiles)))) ;;
  onNet (log LStandard rule) ;;
  onNet (log LStandard "Calculating differences between client & server") ;;
  onNet (log LStandard rule) ;;
  diffs <- liftOutcome (getDiffs H localFiles serverFiles) ;;
  onNet (logDiffs diffs) ;;
  onNet (emit (Timing false "logging")) ;;
  runProvider args diffs ;;
  ret (sizeUpload diffs + sizeReplace diffs)%Z.

(** The [catch] and the [finally] of the outer [try]. *)
Definition deployCatch (args : Args) (error : Thrown) : ProgM Z :=
  onNet (forEach (prettyError H args error) (fun line => log (fst line) (snd line))) ;;
  throw error.

Definition deployFinally : ProgM unit :=
  onNet (call Close) ;;
  onNet (emit (Timing false "total")).

(** The lines [deploy] ends with. *)
Definition deploySummary (totalBytesUploaded : Z) : NetM unit :=
  log LAll rule ;;
  log LAll ("Time spent hashing: " ++ getTimeFormatted H "hash") ;;
  log LAll ("Time spent connecting to server: " ++ getTimeFormatted H "connecting") ;;
  log LAll ("Time spent deploying: " ++ getTimeFormatted H "upload" ++ " ("
            ++ uploadSpeed H totalBytesUploaded ++ "/second)") ;;
  log LAll ("  - changing dirs: " ++ getTimeFormatted H "changingDir") ;;
  log LAll ("  - logging: " ++ getTimeFormatted H "logging") ;;
  log LAll rule ;;
  log LAll ("Total time: " ++ getTimeFormatted H "total") ;;
  log LAll rule.

(** The lines [deploy] starts with. *)
Definition deployGreeting (args : Args) : NetM unit :=
  emit (Timing true "total") ;;
  log LAll rule ;;
  log LAll "🚀 Thanks for using ftp-deploy. Let's deploy some stuff!" ;;
  log LAll "Nazdárek 💩 ... (Thank you Sam!)" ;;
  log LAll rule ;;
  log LAll "If you found this project helpful, please support it" ;;
  log LAll "by giving it a ⭐ on Github --> https://github.com/SamKirkland/FTP-Deploy-Action" ;;
  log LAll "or add a badge 🏷️ to your projects readme --> https://github.com/SamKirkland/FTP-Deploy-Action#badge" ;;
  log LVerbose ("Using the following excludes filters: " ++ stringify H (exclude args)) ;;
  emit (Timing true "hash").

(** [deploy] *)
Definition deploy (args : Args) : ProgM unit :=
  onNet (deployGreeting args) ;;
  localFiles <- liftOutcome (getLocalFiles H args) ;;
  onNet (emit (Timing false "hash")) ;;
  createLocalState localFiles (localDir args) (argStateName args) ;;
  onNet (emit NewClient) ;;
  totalBytesUploaded <-
    finally (tryCatch (deployTry args localFiles) (deployCatch args)) deployFinally ;;
  onNet (deploySummary totalBytesUploaded).

End DeployRun.

(* ================================================================= *)
(** ** A concrete choice of the imported functions, for closed examples *)

(** A [retryRequest] that runs its callback once. *)
Definition runOnce (A : Type) (callback : NetM A) : NetM A := callback.

Definition sampleExternal : External :=
  mkExternal runOnce
             (fun n one many => if Nat.eqb n 1 then one else many)
             (fun z => Js.showZ z ++ " B")
             (fun _ _ _ => true)
             Js.showZ
             "1.0.0"
             "DO NOT DELETE THIS FILE. This file is used to keep track of which files have been synced in the most recent deployment."
             550.

Definition sampleProvider : Provider :=
  mkProvider "dist/" "./site/" ".ftp-deploy-sync-state.json" false
             "ftp.example.org" "deployer" "secret".

Definition sampleArgs : Args :=
  mkArgs "ftp.example.org" "deployer" "secret" 21 Ftp "dist/" "./site/"
         ".ftp-deploy-sync-state.json" false false [] Standard Strict 30000.

(** The same arguments with the dry-run switch set. *)
Definition dryRunArgs : Args :=
  mkArgs "ftp.example.org" "deployer" "secret" 21 Ftp "dist/" "./site/"
         ".ftp-deploy-sync-state.json" true false [] Standard Strict 30000.

Definition freshState : IFileList := mkFileList "Sync state file" "1.0.0" 0 [].

(** A world whose server answers [replies] and then succeeds for ever. *)
Definition worldWith (replies : list Reply) : World :=
  mkWorld replies [] [] 0 freshState.

Definition fileEntry (n : string) : Entry := mkEntry TFile n (Some 10%Z) (Some "h").
Definition folderEntry (n : string) : Entry := mkEntry TFolder n None None.

(** A host for the closed examples: two local files, a diff that uploads
    every local entry the server state does not name, and a fault reported
    in one line. *)
Definition sampleLocalFiles : IFileList :=
  mkFileList "local files" "1.0.0" 0 [fileEntry "index.html"; fileEntry "style.css"].

Definition named (m : IFileList) (e : Entry) : bool :=
  existsb (fun e' => String.eqb (name e') (name e)) (data m).

Definition sampleHost : Host :=
  mkHost (fun _ => Returned sampleLocalFiles)
         (fun l s => Returned (mkDiff (filter (fun e => negb (named s e)) (data l)) [] []
                                      (filter (named s) (data l)) 0 0 0))
         (fun _ e => [(LAll, messageOf e)])
         Js.showNat
         (Js.join ",")
         (fun label => label)
         Js.showZ.

(* ================================================================= *)
(** ** The vocabulary of the properties *)

(** Pointwise equality of computations, and the monad laws the normal
    form of [syncLocalToServer] needs. *)
Definition agree {E S A} (m m' : M E S A) : Prop := forall s, m s = m' s.

Infix "=~" := agree (at level 70, no associativity).

(** What [lastError] holds once the [catch] block has handled [e]. *)
Definition recorded (e : Thrown) : Thrown :=
  match e with
  | JsError _ _ => e
  | NonError _ => JsError "Unknown error occurred" None
  end.

(** The classification of a fault by the [catch] block. *)
Definition transient (e : Thrown) : bool :=
  match e with
  | JsError message _ => connectionDropped message
  | NonError _ => false
  end.

(** The calls and the client replacement among session events. *)
Definition sessionSteps (l : list NetEvent) : list NetEvent :=
  flat_map (fun e => match e with
                     | Called c => [Called c]
                     | NewClient => [NewClient]
                     | _ => []
                     end) l.

Fixpoint lastRecorded (lastError : option Thrown) (faults : list Thrown) : option Thrown :=
  match faults with
  | [] => lastError
  | e :: rest => lastRecorded (Some (recorded e)) rest
  end.

(** The two versions of the provider among the sources. *)
Inductive Version : Type :=
| PeriodicFlush   (* [syncLocalToServer] flushes the state file every five operations *)
| TryAndWrite.    (* [syncLocalToServer] writes the state file when interrupted *)

Definition catchBlockOf (v : Version) (P : Provider) : nat -> nat -> Thrown -> NetM Thrown :=
  match v with
  | PeriodicFlush => onFailure P
  | TryAndWrite => Legacy.onFailure P
  end.

Definition safeOperationOf (v : Version) (P : Provider) {A} (operation : NetM A)
           (retries : nat) : NetM A :=
  match v with
  | PeriodicFlush => safeOperation P operation retries
  | TryAndWrite => Legacy.safeOperation P operation retries
  end.

Section Attempts.

Variable catchBlock : nat -> nat -> Thrown -> NetM Thrown.
Variable A : Type.
Variable operation : NetM A.
Variable retries : nat.

(** [Failing attempt s faults t s']: from the script [s], the attempts
    numbered [attempt], [attempt + 1], ... fail with [faults] one after the
    other, each [catch] block runs to its end (a reconnect it forces
    succeeds), the events are [t] and the script left is [s']. *)
Inductive Failing : nat -> Net -> list Thrown -> list NetEvent -> Net -> Prop :=
| Failing_nil attempt s : Failing attempt s [] [] s
| Failing_cons attempt s e faults t s' :
    out (operation s) = Threw e ->
    out (catchBlock retries attempt e (final (operation s))) = Returned (recorded e) ->
    Failing (attempt + 1)
            (final (catchBlock retries attempt e (final (operation s)))) faults t s' ->
    Failing attempt s (e :: faults)
            (emitted (operation s)
             ++ emitted (catchBlock retries attempt e (final (operation s))) ++ t)
            s'.

End Attempts.

(** One operation of a change set, by the loop of [syncLocalToServer] that
    issues it. *)
Inductive Op : Type :=
| CreateFolder (folder : string)
| UploadNew (file : string)
| ReplaceFile (file : string)
| DeleteFile (file : string)
| DeleteFolder (folder : string).

(** The loop, first to fifth, an operation belongs to. *)
Definition pass (o : Op) : nat :=
  match o with
  | CreateFolder _ => 1
  | UploadNew _ => 2
  | ReplaceFile _ => 3
  | DeleteFile _ => 4
  | DeleteFolder _ => 5
  end.

(** The operations of a change set in the order of the five loops. *)
Definition plan (P : Provider) (diffs : DiffResult) : list Op :=
  (map (fun f => CreateFolder (name f)) (foldersToCreate diffs)
   ++ map (fun f => UploadNew (name f)) (filesToUpload P diffs)
   ++ map (fun f => ReplaceFile (name f)) (filesToReplace P diffs)
   ++ map (fun f => DeleteFile (name f)) (filesToDelete diffs)
   ++ map (fun f => DeleteFolder (name f)) (foldersToDelete diffs))%list.

(** The line a loop logs before it calls the method. *)
Definition announcement (o : Op) : string :=
  match o with
  | CreateFolder n => "📁 Creating folder: " ++ n
  | UploadNew n => "📄 Uploading new file: " ++ n
  | ReplaceFile n => "🔁 Replacing file: " ++ n
  | DeleteFile n => "📄 Deleting file: " ++ n
  | DeleteFolder n => "📁 Deleting folder: " ++ n
  end.

Section Plan.

Variable X : External.
Variable P : Provider.

(** The method an operation stands for. *)
Definition perform (o : Op) : ProgM unit :=
  match o with
  | CreateFolder n => Current.createFolder X P n
  | UploadNew n => Current.uploadFile P n TUpload
  | ReplaceFile n => Current.uploadFile P n TReplace
  | DeleteFile n => Current.removeFile X P n
  | DeleteFolder n => Current.removeFolder X P n
  end.

(** One turn of a loop: the line, the method, the counter and the flush. *)
Definition applyOp (o : Op) (operationsCount : nat) : ProgM nat :=
  onNet (log LStandard (announcement o)) ;;
  perform o ;;
  Current.counted P operationsCount.

Definition applyAll (ops : list Op) (operationsCount : nat) : ProgM nat :=
  forEachWith ops operationsCount applyOp.

(** What follows the five loops. *)
Definition finish (operationsCount : nat) : ProgM unit :=
  onNet (log LAll "----------------------------------------------------------------") ;;
  onNet (log LAll "A je to tam! 💩") ;;
  onNet (log LAll ("🎉 Sync complete. Saving current server state to " ++ Js.quote
                   ++ (serverPath P ++ stateName P) ++ Js.quote)) ;;
  Current.flushState P operationsCount.

(** The same for the version without the counter. *)
Definition performLegacy (o : Op) : ProgM unit :=
  match o with
  | CreateFolder n => Legacy.createFolder X P n
  | UploadNew n => Legacy.uploadFile P n TUpload
  | ReplaceFile n => Legacy.uploadFile P n TReplace
  | DeleteFile n => Legacy.removeFile X P n
  | DeleteFolder n => Legacy.removeFolder X P n
  end.

Definition interrupted (diffs : DiffResult) (error : Thrown) : ProgM unit :=
  onNet (log LAll ("⚠️ Sync interrupted due to an error: " ++ messageOf error)) ;;
  Legacy.updateStateFile X (localPath P) (stateName P) diffs ;;
  throw error.

End Plan.

(** The lines logged at the standard level. *)
Definition standardLines (l : list Event) : list string :=
  flat_map (fun e => match e with OnNet (Logged LStandard m) => [m] | _ => [] end) l.

Definition withDryRun (b : bool) (P : Provider) : Provider :=
  mkProvider (localPath P) (serverPath P) (stateName P) b
             (server P) (username P) (providerPassword P).

(** [Dry lines r w]: the run [r] from [w] returns, calls the client for the
    keep-alive probe only, writes no file, leaves the disk and the state of
    the provider as they were, and logs [lines] at the standard level. *)
Definition Dry {A} (lines : list string) (r : Res Event World A) (w : World) : Prop :=
  (exists a, out r = Returned a)
  /\ Forall (fun c => c = Send "NOOP") (callsOf (emitted r))
  /\ writesOf (emitted r) = []
  /\ disk (final r) = disk w
  /\ state (final r) = state w
  /\ standardLines (emitted r) = lines.

(** [Untouched r w]: the run [r] from [w] writes no file and leaves the disk
    and the state of the provider as they were. *)
Definition Untouched {A} (r : Res Event World A) (w : World) : Prop :=
  writesOf (emitted r) = []
  /\ disk (final r) = disk w
  /\ state (final r) = state w.

(** [Halted e r w]: the run [r] from [w] does not return; it writes no file
    and leaves the disk as it was, and the state of the provider is as it
    was or has the entry [e] appended. *)
Definition Halted {A} (e : Entry) (r : Res Event World A) (w : World) : Prop :=
  (exists err, out r = Threw err)
  /\ writesOf (emitted r) = []
  /\ disk (final r) = disk w
  /\ (state (final r) = state w \/ state (final r) = Current.pushEntry e (state w)).

(** The two paths of the state file. *)
Definition stateFilePath (P : Provider) : string := localPath P ++ stateName P.

Definition statePush (P : Provider) : Call :=
  UploadFrom (localPath P ++ stateName P) (serverPath P ++ stateName P).

(** A name without a slash, and a name that can stand between two
    slashes of a path. *)
Fixpoint slashFree (s : string) : bool :=
  match s with
  | EmptyString => true
  | String c rest => negb (Ascii.eqb c slash) && slashFree rest
  end.

Definition segment (s : string) : bool := Js.nonEmpty s && slashFree s.

(** The calls that manage the session, and the calls of a trace that do
    not: with a wrapped call that is not one of the former, these are the
    attempts the retry wrapper made. *)
Definition sessionCall (c : Call) : bool :=
  match c with Close | Access _ => true | _ => false end.

Definition operationCalls (l : list NetEvent) : list Call :=
  filter (fun c => negb (sessionCall c)) (netCalls l).



(** What is asked of the [retryRequest] that is not among the sources,
    where a property speaks of the calls it passes on: a callback that
    returns at once is run once and nothing is added to it. *)
Definition TransparentRetry (X : External) : Prop :=
  forall (A : Type) (callback : NetM A) (s : Net) (a : A),
    out (callback s) = Returned a -> retryRequest X callback s = callback s.

(** [Smooth m o Q f]: on a server that accepts every call, [m] ends with
    the outcome [o], the calls it made satisfy [Q] and the server still
    accepts every call; no file is written, the disk is as it was and the
    state of the provider has gone through [f]. *)
Definition Smooth {A} (m : ProgM A) (o : Outcome A) (Q : list Call -> Prop)
           (f : IFileList -> IFileList) : Prop :=
  forall w, script w = [] ->
    exists t w',
      m w = mkRes o t w'
      /\ Q (callsOf t)
      /\ writesOf t = []
      /\ script w' = []
      /\ disk w' = disk w
      /\ state w' = f (state w).

(** The calls of a trace but the keep-alive probes, which depend on the
    clock. *)
Definition isProbe (c : Call) : bool :=
  match c with Send _ => true | _ => false end.

Definition withoutProbes (l : list Call) : list Call :=
  filter (fun c => negb (isProbe c)) l.

(** The calls an operation makes for itself when the server accepts them:
    the way into the new folder and back, the transfer, the removal. *)
Definition requests (P : Provider) (o : Op) : list Call :=
  match o with
  | CreateFolder n =>
      let names := filter Js.nonEmpty (Js.split slash n) in
      (match names with [] => [] | _ => [EnsureDir (Js.join "/" names)] end
       ++ repeat Cdup (length names))%list
  | UploadNew n | ReplaceFile n => [UploadFrom (localPath P ++ n) n]
  | DeleteFile n => [Remove n]
  | DeleteFolder n => [RemoveDir (absoluteFolderPath P n)]
  end.

(** The calls of a walk that starts with the counter at [c], on a server
    that accepts every call: the requests of each operation, and the push
    of the state file after each operation that brings the counter to a
    multiple of five. *)
Fixpoint checkpointed (P : Provider) (c : nat) (ops : list Op) : list Call :=
  match ops with
  | [] => []
  | o :: rest =>
      (requests P o
       ++ (if Nat.eqb ((c + 1) mod 5) 0 then [statePush P] else [])
       ++ checkpointed P (c + 1) rest)%list
  end.

(** [Accepted m a cs]: on a server that accepts every call, [m] returns
    [a], its calls but the probes are [cs], and neither the disk nor the
    state of the provider changes. *)
Definition Accepted {A} (m : ProgM A) (a : A) (cs : list Call) : Prop :=
  Smooth m (Returned a) (fun c => withoutProbes c = cs) (fun st => st).

(** [only Q m] and [Only Q m]: whatever the server answers, every call
    [m] makes on the client satisfies [Q]. *)
Definition only {A} (Q : Call -> Prop) (m : NetM A) : Prop :=
  forall s, Forall Q (netCalls (emitted (m s))).

Definition Only {A} (Q : Call -> Prop) (m : ProgM A) : Prop :=
  forall w, Forall Q (callsOf (emitted (m w))).

(** What is asked of the [retryRequest] that is not among the sources,
    where a property speaks of the calls of any run.  [retryRequest]
    receives the logger and a callback, so it reaches the client through
    the callback only: it starts by running the callback, and every call it
    makes is one the callback can make. *)
Definition CallbackOnly (X : External) : Prop :=
  forall (A : Type) (callback : NetM A),
    (forall s, exists rest,
        emitted (retryRequest X callback s) = (emitted (callback s) ++ rest)%list)
    /\ (forall Q : Call -> Prop, only Q callback -> only Q (retryRequest X callback)).






Definition safeOpOf (v : Version) (P : Provider) : forall A : Type, NetM A -> NetM A :=
  fun A operation => safeOperationOf v P operation defaultRetries.

(** [metered m]: [m] takes one reply of the script for each call it
    makes, in the order of the calls. *)
Definition metered {A} (m : NetM A) : Prop :=
  forall s, final (m s) = skipn (length (netCalls (emitted (m s)))) s.

(** The slash-rooted form of a root as the specification words it: a
    root given as one dot, or as dot, slash and a relative path, counts
    from the slash. *)
Definition slashRooted (root : string) : string :=
  if String.eqb root "." then "/"
  else if Js.startsWith "./" root then "/" ++ Js.replace "./" EmptyString root
  else "/" ++ root.

(* ================================================================= *)
(** ** Inputs of the closed examples *)

(** Faults and scripts of the closed examples. *)
Definition clientClosed : Thrown := JsError "Client is closed" None.
Definition finPacket : Thrown := JsError "Server sent FIN packet unexpectedly, closing connection." None.
Definition tlsRefused : Thrown := JsError "500 AUTH TLS not understood" (Some 500%Z).
Definition uploadA : NetM Payload := call (UploadFrom "dist/a.txt" "a.txt").

Definition timedOut : Thrown := JsError "Timeout (control socket)" None.

Definition twoUploads : DiffResult :=
  mkDiff [fileEntry "a.txt"; fileEntry "b.txt"] [] [] [] 20 0 0.

Definition sixUploads : DiffResult :=
  mkDiff [fileEntry "1.txt"; fileEntry "2.txt"; fileEntry "3.txt";
          fileEntry "4.txt"; fileEntry "5.txt"; fileEntry "6.txt"]
         [] [] [] 60 0 0.

Definition sampleChanges : DiffResult :=
  mkDiff [folderEntry "img"; fileEntry "img/a.png"; fileEntry "index.html"]
         [fileEntry "old.html"; folderEntry "tmp"]
         [fileEntry "style.css"] [] 20 10 10.

(** The same change set without the folder to create. *)
Definition fileChanges : DiffResult :=
  mkDiff [fileEntry "img/a.png"; fileEntry "index.html"]
         [fileEntry "old.html"; folderEntry "tmp"]
         [fileEntry "style.css"] [] 20 10 10.

Definition staleState : IFileList :=
  mkFileList "written by an older release" "0.0.1" 1700000000000
             [fileEntry "index.html"].

(* ================================================================= *)
(** * Properties *)

(** ** Strings *)

Lemma substring_whole (s : string) : substring 0 (String.length s) s = s.
Proof. induction s as [|c s IH]; simpl; [reflexivity | now rewrite IH]. Qed.

Lemma startsWith_dot_slash (rest : string) : Js.startsWith "./" ("./" ++ rest) = true.
Proof. destruct rest; reflexivity. Qed.

Lemma replace_leading_dot_slash (rest : string) :
  Js.replace "./" EmptyString ("./" ++ rest) = rest.
Proof.
  assert (H : index 0 "./" ("./" ++ rest) = Some 0).
  { change (index 0 "./" ("./" ++ rest))
      with (if prefix "./" ("./" ++ rest) then Some 0
            else match index 0 "./" ("/" ++ rest) with
                 | Some n => Some (S n)
                 | None => None
                 end).
    change (prefix "./" ("./" ++ rest)) with (Js.startsWith "./" ("./" ++ rest)).
    now rewrite startsWith_dot_slash. }
  unfold Js.replace. rewrite H.
  cbn. rewrite Nat.sub_0_r. apply substring_whole.
Qed.

Lemma split_not_nil (sep : ascii) (s : string) : Js.split sep s <> [].
Proof.
  induction s as [|c s IH]; cbn [Js.split]; [discriminate|].
  destruct (Ascii.eqb c sep); [discriminate|].
  destruct (Js.split sep s); [contradiction | discriminate].
Qed.

(** A separator ends one piece and starts the next. *)
Lemma split_app (sep : ascii) (a b : string) :
  Js.split sep (a ++ String sep b) = (Js.split sep a ++ Js.split sep b)%list.
Proof.
  induction a as [|c a IH]; cbn [append Js.split].
  - now rewrite Ascii.eqb_refl.
  - destruct (Ascii.eqb c sep); [now rewrite IH|].
    rewrite IH. pose proof (split_not_nil sep a) as N.
    destruct (Js.split sep a); [contradiction | reflexivity].
Qed.

(** The folders of the path [createFolder] hands to [getFileBreadcrumbs]. *)
Lemma folders_of_folder_path (n : string) :
  folders (getFileBreadcrumbs (n ++ "/"))
  = match filter Js.nonEmpty (Js.split slash n) with
    | [] => None
    | l => Some l
    end.
Proof.
  unfold getFileBreadcrumbs. cbv zeta. cbn [folders].
  change (n ++ "/") with (n ++ String slash EmptyString). rewrite split_app.
  change (Js.split slash EmptyString) with [EmptyString].
  rewrite removelast_last. now destruct (filter Js.nonEmpty (Js.split slash n)).
Qed.

(** ** The model on concrete inputs *)

Example getFileBreadcrumbs_nested :
  getFileBreadcrumbs "img/icons/" = mkFilePath (Some ["img"; "icons"]) None.
Proof. reflexivity. Qed.

Example getFileBreadcrumbs_file :
  getFileBreadcrumbs "a//b.txt" = mkFilePath (Some ["a"]) (Some "b.txt").
Proof. reflexivity. Qed.

Example replace_first_occurrence_only :
  Js.replace "./" EmptyString "./a/./b" = "a/./b".
Proof. reflexivity. Qed.

Example includes_inside :
  Js.includes "Client is closed" "Error: Client is closed because of timeout" = true
  /\ Js.includes "Client is closed" "550 No such file" = false.
Proof. split; reflexivity. Qed.

(** A whole run of each version on a server that accepts every call: a
    folder, two new files, a changed file, a file and a folder to delete.
    The version with the periodic flush goes into the new folder and back,
    and ends there, at the call of the binding that holds no function; on
    the change set without the folder it runs to its end. *)
Example syncLocalToServer_sample_run :
  let r := Current.syncLocalToServer sampleExternal sampleProvider sampleChanges
             (worldWith []) in
  out r = Threw (notAFunction "createLocalState")
  /\ callsOf (emitted r) = [EnsureDir "img"; Cdup]
  /\ writesOf (emitted r) = [].
Proof. repeat split. Qed.

Example syncLocalToServer_sample_run_without_folder :
  let r := Current.syncLocalToServer sampleExternal sampleProvider fileChanges
             (worldWith []) in
  out r = Returned tt
  /\ callsOf (emitted r)
     = [UploadFrom "dist/img/a.png" "img/a.png";
        UploadFrom "dist/index.html" "index.html";
        UploadFrom "dist/style.css" "style.css";
        Remove "old.html";
        RemoveDir "/site/tmp";
        statePush sampleProvider;
        statePush sampleProvider].
Proof. repeat split. Qed.

Example Legacy_syncLocalToServer_sample_run :
  callsOf (emitted (Legacy.syncLocalToServer sampleExternal sampleProvider sampleChanges
                      (worldWith [])))
  = [EnsureDir "img"; Cdup;
     UploadFrom "dist/img/a.png" "img/a.png";
     UploadFrom "dist/index.html" "index.html";
     UploadFrom "dist/style.css" "style.css";
     Remove "old.html";
     RemoveDir "/site/tmp"].
Proof. reflexivity. Qed.

(** ** Running the monad *)

Lemma bind_returned {E S A B} (m : M E S A) (k : A -> M E S B) s a :
  out (m s) = Returned a ->
  bind m k s = mkRes (out (k a (final (m s))))
                     (emitted (m s) ++ emitted (k a (final (m s))))
                     (final (k a (final (m s)))).
Proof. intros H. unfold bind. now rewrite H. Qed.

Lemma bind_threw {E S A B} (m : M E S A) (k : A -> M E S B) s e :
  out (m s) = Threw e ->
  bind m k s = mkRes (Threw e) (emitted (m s)) (final (m s)).
Proof. intros H. unfold bind. now rewrite H. Qed.

Lemma tryCatch_returned {E S A} (m : M E S A) h s a :
  out (m s) = Returned a -> tryCatch m h s = m s.
Proof. intros H. unfold tryCatch. now rewrite H. Qed.

Lemma tryCatch_threw {E S A} (m : M E S A) h s e :
  out (m s) = Threw e ->
  tryCatch m h s = mkRes (out (h e (final (m s))))
                         (emitted (m s) ++ emitted (h e (final (m s))))
                         (final (h e (final (m s)))).
Proof. intros H. unfold tryCatch. now rewrite H. Qed.

Lemma res_eta {E S A} (r : Res E S A) : r = mkRes (out r) (emitted r) (final r).
Proof. now destruct r. Qed.

Lemma agree_refl {E S A} (m : M E S A) : m =~ m.
Proof. now intros s. Qed.

Lemma agree_trans {E S A} (a b c : M E S A) : a =~ b -> b =~ c -> a =~ c.
Proof. intros H1 H2 s. now rewrite H1. Qed.

Lemma bind_agree {E S A B} (m m' : M E S A) (k k' : A -> M E S B) :
  m =~ m' -> (forall a, k a =~ k' a) -> bind m k =~ bind m' k'.
Proof.
  intros Hm Hk s. unfold bind. rewrite Hm.
  destruct (out (m' s)); [now rewrite Hk | reflexivity].
Qed.

Lemma bind_assoc {E S A B C} (m : M E S A) (k : A -> M E S B) (h : B -> M E S C) :
  bind (bind m k) h =~ bind m (fun a => bind (k a) h).
Proof.
  intros s. unfold bind.
  destruct (m s) as [[a|e] t s1]; cbn; [|reflexivity].
  destruct (k a s1) as [[b|e] t' s2]; cbn; [|reflexivity].
  now rewrite app_assoc.
Qed.

Lemma bind_ret_l {E S A B} (a : A) (k : A -> M E S B) : bind (ret a) k =~ k a.
Proof. intros s. unfold bind, ret. cbn. now destruct (k a s). Qed.

Lemma bind_ret_run {E S A B} (a : A) (k : A -> M E S B) s : bind (ret a) k s = k a s.
Proof. apply bind_ret_l. Qed.

Lemma out_bind_returned {E S A B} (m : M E S A) (k : A -> M E S B) s a :
  out (m s) = Returned a -> out (bind m k s) = out (k a (final (m s))).
Proof. intros H. now rewrite (bind_returned _ _ _ H). Qed.

Lemma out_bind_threw {E S A B} (m : M E S A) (k : A -> M E S B) s e :
  out (m s) = Threw e -> out (bind m k s) = Threw e.
Proof. intros H. now rewrite (bind_threw _ _ _ H). Qed.

Lemma now_then_ret {A} (f : Z -> A) (w : World) :
  exists t, out (bind now (fun t => ret (f t)) w) = Returned (f t).
Proof. unfold bind, now. destruct (ticks w) as [|t rest]; eexists; reflexivity. Qed.

Lemma out_onNet_log (l : Level) (msg : string) (w : World) :
  out (onNet (log l msg) w) = Returned tt.
Proof. reflexivity. Qed.

Lemma out_tryCatch_threw {E S A} (m : M E S A) (h : Thrown -> M E S A) s e :
  out (m s) = Threw e -> out (tryCatch m h s) = out (h e (final (m s))).
Proof. intros H. now rewrite (tryCatch_threw _ _ _ H). Qed.

Lemma out_tryCatch_returned {E S A} (m : M E S A) (h : Thrown -> M E S A) s a :
  out (m s) = Returned a -> out (tryCatch m h s) = Returned a.
Proof. intros H. now rewrite (tryCatch_returned _ _ _ H). Qed.

Lemma four_lines_then_clock {A} (f : Z -> A) (w : World) (m1 m2 m3 m4 : string) :
  exists t,
    out ((onNet (log LAll m1) ;; onNet (log LAll m2) ;; onNet (log LAll m3) ;;
          onNet (log LAll m4) ;; t <- now ;; ret (f t)) w)
    = Returned (f t).
Proof.
  rewrite (out_bind_returned _ _ _ (out_onNet_log _ _ _)).
  rewrite (out_bind_returned _ _ _ (out_onNet_log _ _ _)).
  rewrite (out_bind_returned _ _ _ (out_onNet_log _ _ _)).
  rewrite (out_bind_returned _ _ _ (out_onNet_log _ _ _)).
  apply now_then_ret.
Qed.

(** One step of a run, when what the step gives is known. *)
Lemma bind_run {E S A B} (m : M E S A) (k : A -> M E S B) s a t s1 :
  m s = mkRes (Returned a) t s1 ->
  bind m k s = mkRes (out (k a s1)) (t ++ emitted (k a s1)) (final (k a s1)).
Proof. intros H. unfold bind. now rewrite H. Qed.

Lemma bind_run_threw {E S A B} (m : M E S A) (k : A -> M E S B) s e t s1 :
  m s = mkRes (Threw e) t s1 -> bind m k s = mkRes (Threw e) t s1.
Proof. intros H. unfold bind. now rewrite H. Qed.

Lemma tryCatch_run_returned {E S A} (m : M E S A) (h : Thrown -> M E S A) s a t s1 :
  m s = mkRes (Returned a) t s1 -> tryCatch m h s = mkRes (Returned a) t s1.
Proof. intros H. unfold tryCatch. now rewrite H. Qed.

Lemma tryCatch_run_threw {E S A} (m : M E S A) (h : Thrown -> M E S A) s e t s1 :
  m s = mkRes (Threw e) t s1 ->
  tryCatch m h s = mkRes (out (h e s1)) (t ++ emitted (h e s1)) (final (h e s1)).
Proof. intros H. unfold tryCatch. now rewrite H. Qed.

Lemma final_mkRes {E S A} (o : Outcome A) (t : list E) (s : S) : final (mkRes o t s) = s.
Proof. reflexivity. Qed.

Lemma out_mkRes {E S A} (o : Outcome A) (t : list E) (s : S) : out (mkRes o t s) = o.
Proof. reflexivity. Qed.

Lemma emitted_mkRes {E S A} (o : Outcome A) (t : list E) (s : S) :
  emitted (mkRes o t s) = t.
Proof. reflexivity. Qed.

Lemma onNet_run {A} (m : NetM A) (w : World) o t s' :
  m (script w) = mkRes o t s' -> onNet m w = mkRes o (map OnNet t) (setScript s' w).
Proof. intros H. unfold onNet. now rewrite H. Qed.

Lemma tryCatch_threw_run {E S A} (m : M E S A) (h : Thrown -> M E S A) s e t s1 o t' s2 :
  m s = mkRes (Threw e) t s1 -> h e s1 = mkRes o t' s2 ->
  tryCatch m h s = mkRes o (t ++ t') s2.
Proof. intros H1 H2. unfold tryCatch. rewrite H1. cbn [out emitted final]. now rewrite H2. Qed.

Lemma tryCatch_threw_with {E S A} (m : M E S A) (h : Thrown -> M E S A) s e o t s1 :
  out (m s) = Threw e -> h e (final (m s)) = mkRes o t s1 ->
  tryCatch m h s = mkRes o (emitted (m s) ++ t) s1.
Proof. intros H1 H2. unfold tryCatch. now rewrite H1, H2. Qed.

Lemma finally_run {E S A} (m : M E S A) (f : M E S unit) s o t s1 o' t' s2 :
  m s = mkRes o t s1 -> f s1 = mkRes o' t' s2 ->
  finally m f s
  = mkRes (match o' with Returned _ => o | Threw e => Threw e end) (t ++ t') s2.
Proof. intros H1 H2. unfold finally. rewrite H1. cbn [final out emitted]. now rewrite H2. Qed.

Lemma emitted_finally_prefix {E S A} (m : M E S A) (f : M E S unit) s :
  exists t, emitted (finally m f s) = (emitted (m s) ++ t)%list.
Proof. eexists. reflexivity. Qed.

Lemma out_finally {E S A} (m : M E S A) (f : M E S unit) s :
  out (finally m f s)
  = match out (f (final (m s))) with Returned _ => out (m s) | Threw e => Threw e end.
Proof. reflexivity. Qed.

(** ** What a session-level step leaves alone *)

Lemma onNet_disk {A} (m : NetM A) w : disk (final (onNet m w)) = disk w.
Proof. reflexivity. Qed.

Lemma onNet_state {A} (m : NetM A) w : state (final (onNet m w)) = state w.
Proof. reflexivity. Qed.

Lemma writesOf_app l l' : writesOf (l ++ l') = (writesOf l ++ writesOf l')%list.
Proof. unfold writesOf. now rewrite flat_map_app. Qed.

Lemma callsOf_app l l' : callsOf (l ++ l') = (callsOf l ++ callsOf l')%list.
Proof. unfold callsOf. now rewrite flat_map_app. Qed.

Lemma netCalls_app l l' : netCalls (l ++ l') = (netCalls l ++ netCalls l')%list.
Proof. unfold netCalls. now rewrite flat_map_app. Qed.

Lemma writesOf_onNet (l : list NetEvent) : writesOf (map OnNet l) = [].
Proof. induction l as [|e l IH]; [reflexivity | exact IH]. Qed.

Lemma callsOf_onNet (l : list NetEvent) : callsOf (map OnNet l) = netCalls l.
Proof.
  induction l as [|e l IH]; [reflexivity|].
  change (callsOf (map OnNet (e :: l)))
    with ((match e with Called c => [c] | _ => [] end) ++ callsOf (map OnNet l))%list.
  rewrite IH. reflexivity.
Qed.

(** ** The reconnect *)

Lemma reconnect_calls (P : Provider) (net : Net) :
  netCalls (emitted (reconnect P net)) = [Close; Access (reconnectOptions P)].
Proof.
  unfold reconnect.
  destruct net as [|[p|e] [|[p'|e'] rest]]; reflexivity.
Qed.

(** C10. Whatever protocol, security level and port the first connection
    was made with, a reconnect closes the client and opens the new session
    with explicit TLS, without certificate validation and without a port;
    [connect] itself follows the arguments. *)
Theorem reconnect_ignores_protocol_and_security :
  forall (args : Args) (net : Net),
    netCalls (emitted (reconnect (providerOf args) net))
    = [Close;
       Access (mkAccess (argServer args) (argUsername args) (argPassword args)
                        None SecureTrue false)]
    /\ netCalls (emitted (connect args net))
       = [Access (mkAccess (argServer args) (argUsername args) (argPassword args)
                           (Some (argPort args))
                           (match protocol args with
                            | Ftps => SecureTrue
                            | FtpsLegacy => SecureImplicit
                            | Ftp => SecureFalse
                            end)
                           (match security args with Strict => true | Loose => false end))].
Proof.
  intros args net. split.
  - apply reconnect_calls.
  - unfold connect.
    destruct net as [|[p|e] rest]; destruct (logLevel args); reflexivity.
Qed.

(** ** The retry loop *)

Section RetryLoop.

Variable P : Provider.

Lemma onFailure_records retries attempt e s l :
  out (onFailure P retries attempt e s) = Returned l -> l = recorded e.
Proof.
  unfold onFailure. generalize (Nat.ltb attempt (retries - 1)). intros retrying.
  destruct e as [message code|shown].
  - destruct (connectionDropped message).
    + unfold reconnect.
      destruct s as [|[p|e] [|[p'|e'] rest]]; destruct retrying; cbn; congruence.
    + destruct retrying; cbn; congruence.
  - destruct retrying; cbn; congruence.
Qed.


Lemma onFailure_other retries attempt e s :
  transient e = false ->
  out (onFailure P retries attempt e s) = Returned (recorded e)
  /\ sessionSteps (emitted (onFailure P retries attempt e s)) = []
  /\ final (onFailure P retries attempt e s) = s.
Proof.
  unfold onFailure. generalize (Nat.ltb attempt (retries - 1)). intros retrying.
  destruct e as [message code|shown]; cbn [transient].
  - intros H. rewrite H. destruct retrying; repeat split.
  - intros _. destruct retrying; repeat split.
Qed.

(** A fault leaves the [catch] block only through the reconnect. *)
Lemma onFailure_throws retries attempt e s e' :
  out (onFailure P retries attempt e s) = Threw e' ->
  transient e = true
  /\ exists s0, out (reconnect P s0) = Threw e'.
Proof.
  destruct (transient e) eqn:T.
  - intros H. split; [reflexivity|].
    destruct e as [message code|shown]; [|discriminate].
    cbn [transient] in T. unfold onFailure in H. rewrite T in H.
    exists s. revert H. generalize (Nat.ltb attempt (retries - 1)). intros retrying.
    unfold reconnect.
    destruct s as [|[p|e] [|[p'|e2] rest]]; destruct retrying; cbn; congruence.
  - intros H. destruct (onFailure_other retries attempt e s T) as [H' _].
    congruence.
Qed.

(** The same for the [catch] block of the other version, which knows the
    first signature only. *)
Lemma Legacy_onFailure_throws retries attempt e s e' :
  out (Legacy.onFailure P retries attempt e s) = Threw e' ->
  transient e = true
  /\ exists s0, out (reconnect P s0) = Threw e'.
Proof.
  unfold Legacy.onFailure. generalize (Nat.ltb attempt (retries - 1)). intros retrying.
  destruct e as [message code|shown].
  - cbn [transient]. unfold connectionDropped.
    destruct (Js.includes "Client is closed" message) eqn:I.
    + intros H. split; [reflexivity|]. exists s. revert H. unfold reconnect.
      destruct s as [|[p|e] [|[p'|e2] rest]]; destruct retrying; cbn; congruence.
    + destruct retrying; cbn; congruence.
  - destruct retrying; cbn; congruence.
Qed.

Lemma catchBlockOf_throws v retries attempt e s e' :
  out (catchBlockOf v P retries attempt e s) = Threw e' ->
  transient e = true
  /\ exists s0, out (reconnect P s0) = Threw e'.
Proof.
  destruct v; cbn [catchBlockOf]; [apply onFailure_throws | apply Legacy_onFailure_throws].
Qed.

Variable catchBlock : nat -> nat -> Thrown -> NetM Thrown.
Variable A : Type.
Variable operation : NetM A.
Variable retries : nat.

Lemma attempts_step k attempt last s e :
  out (operation s) = Threw e ->
  out (catchBlock retries attempt e (final (operation s))) = Returned (recorded e) ->
  attempts catchBlock operation retries (S k) attempt last s
  = let c := catchBlock retries attempt e (final (operation s)) in
    let r := attempts catchBlock operation retries k (attempt + 1)
                      (Some (recorded e)) (final c) in
    mkRes (out r) (emitted (operation s) ++ emitted c ++ emitted r) (final r).
Proof.
  intros H1 H2. cbn [attempts].
  rewrite (tryCatch_threw _ _ _ H1). cbn zeta.
  rewrite (bind_returned _ _ _ H2). reflexivity.
Qed.

Lemma attempts_exhaust attempt s faults t s' :
  Failing catchBlock operation retries attempt s faults t s' ->
  forall last,
    attempts catchBlock operation retries (length faults) attempt last s
    = mkRes (Threw (exhausted retries (lastRecorded last faults))) t s'.
Proof.
  induction 1 as [attempt s|attempt s e faults t s' H1 H2 _ IH]; intros last.
  - reflexivity.
  - cbn [length]. rewrite (attempts_step _ _ _ _ H1 H2). cbn zeta.
    rewrite IH. reflexivity.
Qed.

Lemma attempts_success attempt s faults t s' :
  Failing catchBlock operation retries attempt s faults t s' ->
  forall last k v,
    out (operation s') = Returned v ->
    attempts catchBlock operation retries (length faults + S k) attempt last s
    = mkRes (Returned v) (t ++ emitted (operation s')) (final (operation s')).
Proof.
  induction 1 as [attempt s|attempt s e faults t s' H1 H2 _ IH]; intros last k v Hv.
  - cbn [length Nat.add attempts]. rewrite (tryCatch_returned _ _ _ Hv).
    rewrite (res_eta (operation s)) at 1. now rewrite Hv.
  - cbn [length Nat.add]. rewrite (attempts_step _ _ _ _ H1 H2). cbn zeta.
    rewrite (IH _ _ _ Hv). cbn. now rewrite <- !app_assoc.
Qed.

Lemma attempts_catch_fault attempt s faults t s' :
  Failing catchBlock operation retries attempt s faults t s' ->
  forall last k e e',
    out (operation s') = Threw e ->
    out (catchBlock retries (attempt + length faults) e (final (operation s')))
    = Threw e' ->
    out (attempts catchBlock operation retries (length faults + S k) attempt last s)
    = Threw e'.
Proof.
  induction 1 as [attempt s|attempt s e0 faults t s' H1 H2 _ IH];
    intros last k e e' He He'.
  - cbn [length Nat.add attempts] in *. rewrite Nat.add_0_r in He'.
    rewrite (tryCatch_threw _ _ _ He). cbn.
    now rewrite (bind_threw _ _ _ He').
  - cbn [length Nat.add]. rewrite (attempts_step _ _ _ _ H1 H2). cbn zeta. cbn [out].
    apply (IH (Some (recorded e0)) k e e' He).
    now replace (attempt + 1 + length faults) with (attempt + length (e0 :: faults))
      by (cbn [length]; lia).
Qed.

End RetryLoop.

Lemma lastRecorded_snoc last init e :
  lastRecorded last (init ++ [e]) = Some (recorded e).
Proof. revert last. induction init as [|x init IH]; intros last; [reflexivity | apply IH]. Qed.

(** C3, as stated, fails: all three attempts of an upload fail with a
    dropped connection, the first two reconnects succeed and the third is
    refused; what [safeOperation] throws is the fault of that reconnect,
    which carries neither the attempt count nor the message of the last
    fault of the operation. *)
Lemma safeOperation_reconnect_fault_replaces_exhaustion :
  let s := [Fail clientClosed; Ok NoData; Ok NoData;
            Fail clientClosed; Ok NoData; Ok NoData;
            Fail clientClosed; Ok NoData; Fail tlsRefused] in
  let r := safeOperation sampleProvider uploadA 3 s in
  netCalls (emitted r)
  = [UploadFrom "dist/a.txt" "a.txt"; Close; Access (reconnectOptions sampleProvider);
     UploadFrom "dist/a.txt" "a.txt"; Close; Access (reconnectOptions sampleProvider);
     UploadFrom "dist/a.txt" "a.txt"; Close; Access (reconnectOptions sampleProvider)]
  /\ out r = Threw tlsRefused
  /\ out r <> Threw (exhausted 3 (Some clientClosed)).
Proof. cbv zeta. repeat split. vm_compute. discriminate. Qed.

(** C3, amended.  In both versions of the provider: when the operation
    fails on every one of the [retries] attempts and each [catch] block runs
    to its end, [safeOperation] throws an error without a code whose message
    gives [retries] and the message of the last fault (the text Unknown
    error occurred when what was thrown is not an Error).  When an attempt
    returns after fewer failures, its value is returned.  When a [catch]
    block throws, which only the reconnect forced by a dropped connection
    can do, that fault leaves [safeOperation] as it is. *)
Theorem safeOperation_exhaustion_and_result :
  forall (v : Version) (P : Provider) (A : Type) (operation : NetM A) (retries : nat)
         (s : Net) (faults : list Thrown) (t : list NetEvent) (s' : Net),
    Failing (catchBlockOf v P) operation retries 0 s faults t s' ->
    (forall init e,
        faults = (init ++ [e])%list -> length faults = retries ->
        safeOperationOf v P operation retries s
        = mkRes (Threw (JsError ("Operation failed after " ++ Js.showNat retries
                                 ++ " attempts: " ++ messageOf (recorded e)) None))
                t s')
    /\ (length faults < retries ->
        forall r, out (operation s') = Returned r ->
          safeOperationOf v P operation retries s
          = mkRes (Returned r) (t ++ emitted (operation s')) (final (operation s')))
    /\ (length faults < retries ->
        forall e e', out (operation s') = Threw e ->
          out (catchBlockOf v P retries (length faults) e (final (operation s')))
          = Threw e' ->
          out (safeOperationOf v P operation retries s) = Threw e'
          /\ transient e = true
          /\ exists s0, out (reconnect P s0) = Threw e').
Proof.
  intros v P A operation retries s faults t s' F.
  assert (E : safeOperationOf v P operation retries s
              = attempts (catchBlockOf v P) operation retries retries 0 None s)
    by now destruct v.
  rewrite E. split; [|split].
  - intros init e Ef L. rewrite <- L at 2.
    rewrite (attempts_exhaust F None). rewrite Ef at 1.
    rewrite lastRecorded_snoc. reflexivity.
  - intros L r Hr.
    replace retries with (length faults + S (retries - S (length faults))) at 2 by lia.
    now apply (attempts_success F).
  - intros L e e' He He'. split.
    + replace retries with (length faults + S (retries - S (length faults))) at 2 by lia.
      now apply (attempts_catch_fault F) with (e := e).
    + now apply catchBlockOf_throws with (1 := He').
Qed.

Lemma safeOperation_exhaustion_and_result_witness :
  out (safeOperation sampleProvider uploadA 3 [Fail timedOut; Fail timedOut; Fail timedOut])
  = Threw (JsError "Operation failed after 3 attempts: Timeout (control socket)" None).
Proof.
  assert (F : Failing (catchBlockOf PeriodicFlush sampleProvider) uploadA 3 0
                [Fail timedOut; Fail timedOut; Fail timedOut]
                [timedOut; timedOut; timedOut]
                (emitted (safeOperation sampleProvider uploadA 3
                            [Fail timedOut; Fail timedOut; Fail timedOut]))
                []).
  { apply (@Failing_cons (onFailure sampleProvider) _ uploadA 3 0 _ timedOut _ _ []);
      [reflexivity | reflexivity |].
    apply (@Failing_cons (onFailure sampleProvider) _ uploadA 3 1 _ timedOut _ _ []);
      [reflexivity | reflexivity |].
    apply (@Failing_cons (onFailure sampleProvider) _ uploadA 3 2 _ timedOut _ _ []);
      [reflexivity | reflexivity |].
    apply Failing_nil. }
  change (safeOperation sampleProvider uploadA 3)
    with (safeOperationOf PeriodicFlush sampleProvider uploadA 3).
  rewrite (proj1 (@safeOperation_exhaustion_and_result
                    PeriodicFlush sampleProvider _ uploadA 3 _ _ _ _ F)
                 [timedOut; timedOut] timedOut eq_refl eq_refl).
  reflexivity.
Defined.



(** ** The file delete *)

(** C5, the code at the failing input.  The server answers every attempt
    of the delete with the fault of the class file not found or no access.
    [safeOperation] wraps the three faults in an error of its own, which has
    no code, so the test on the code in [removeFile] never holds and the
    delete is not tolerated: the wrapped error is thrown again.  Both
    versions of the provider do so. *)
Theorem removeFile_not_found_is_rethrown :
  forall (X : External) (lp sp sn sv un pw path : string)
         (rest : list Reply) (dk : Disk) (tk : list Z) (ln : Z) (st : IFileList),
    let notFound := JsError "550 No such file or directory"
                            (Some (FileNotFoundOrNoAccess X)) in
    let P := mkProvider lp sp sn false sv un pw in
    let w := mkWorld (Fail notFound :: Fail notFound :: Fail notFound :: rest) dk tk ln st in
    let wrapped := JsError "Operation failed after 3 attempts: 550 No such file or directory"
                           None in
    out (Current.removeFile X P path w) = Threw wrapped
    /\ callsOf (emitted (Current.removeFile X P path w))
       = [Remove path; Remove path; Remove path]
    /\ out (Legacy.removeFile X P path w) = Threw wrapped.
Proof. intros. repeat split. Qed.

(** ** An operation that fails while the change set is applied *)

(** C7, the code at the failing input.  The upload of the first of two
    files fails on its three attempts.  The version with the periodic flush
    throws the fault at once: no state file is written, nothing is pushed,
    and the second file is not uploaded. *)
Theorem syncLocalToServer_fault_skips_final_checkpoint :
  forall X : External,
    let w := worldWith [Fail timedOut; Fail timedOut; Fail timedOut] in
    let r := Current.syncLocalToServer X sampleProvider twoUploads w in
    out r = Threw (JsError "Operation failed after 3 attempts: Timeout (control socket)" None)
    /\ callsOf (emitted r)
       = [UploadFrom "dist/a.txt" "a.txt"; UploadFrom "dist/a.txt" "a.txt";
          UploadFrom "dist/a.txt" "a.txt"]
    /\ writesOf (emitted r) = []
    /\ disk (final r) = disk w.
Proof. intros X. repeat split. Qed.

(** The version with the [try] block around the five loops, on the same
    input: it writes the state file before it throws the fault again. *)
Lemma Legacy_syncLocalToServer_fault_writes_state :
  forall X : External,
    let w := worldWith [Fail timedOut; Fail timedOut; Fail timedOut] in
    let r := Legacy.syncLocalToServer X sampleProvider twoUploads w in
    out r = Threw (JsError "Operation failed after 3 attempts: Timeout (control socket)" None)
    /\ callsOf (emitted r)
       = [UploadFrom "dist/a.txt" "a.txt"; UploadFrom "dist/a.txt" "a.txt";
          UploadFrom "dist/a.txt" "a.txt"]
    /\ writesOf (emitted r)
       = [(stateFilePath sampleProvider,
           ActionJson "Updated state after partial sync" (currentSyncFileVersion X) 0
                      [(fileEntry "a.txt", "upload"); (fileEntry "b.txt", "upload")])].
Proof. intros X. repeat split. Qed.

(** ** The order of the operations *)

#[export] Instance agree_equivalence {E S A} : Equivalence (@agree E S A).
Proof.
  split.
  - intros m s. reflexivity.
  - intros m m' H s. now rewrite H.
  - intros a b c H1 H2 s. now rewrite H1.
Qed.

#[export] Instance bind_proper {E S A B} :
  Proper (agree ==> pointwise_relation A agree ==> agree) (@bind E S A B).
Proof. intros m m' Hm k k' Hk. now apply bind_agree. Qed.

#[export] Instance tryCatch_proper {E S A} :
  Proper (agree ==> pointwise_relation Thrown agree ==> agree) (@tryCatch E S A).
Proof.
  intros m m' Hm h h' Hh s. unfold tryCatch. rewrite Hm.
  destruct (out (m' s)); [reflexivity | now rewrite Hh].
Qed.

Lemma forEachWith_app_bind {E S A C B} (l1 l2 : list A) (body : A -> C -> M E S C)
      (k : C -> M E S B) (c : C) :
  bind (forEachWith (l1 ++ l2) c body) k
  =~ bind (forEachWith l1 c body) (fun c' => bind (forEachWith l2 c' body) k).
Proof.
  revert c. induction l1 as [|x l1 IH]; intros c; cbn [forEachWith app].
  - now rewrite bind_ret_l.
  - rewrite !bind_assoc. apply bind_agree; [reflexivity|]. intros c'. apply IH.
Qed.

Lemma forEachWith_map {E S A A' C} (f : A -> A') (l : list A)
      (body : A' -> C -> M E S C) (c : C) :
  forEachWith (map f l) c body =~ forEachWith l c (fun x => body (f x)).
Proof.
  revert c. induction l as [|x l IH]; intros c; cbn [forEachWith map].
  - reflexivity.
  - apply bind_agree; [reflexivity|]. intros c'. apply IH.
Qed.

Lemma forEachWith_app {E S A C} (l1 l2 : list A) (body : A -> C -> M E S C) (c : C) :
  forEachWith (l1 ++ l2) c body
  =~ bind (forEachWith l1 c body) (fun c' => forEachWith l2 c' body).
Proof.
  revert c. induction l1 as [|x l1 IH]; intros c; cbn [forEachWith app].
  - now rewrite bind_ret_l.
  - rewrite bind_assoc. apply bind_agree; [reflexivity|]. intros c'. apply IH.
Qed.

Lemma forEach_app_bind {E S A B} (l1 l2 : list A) (body : A -> M E S unit)
      (k : unit -> M E S B) :
  bind (forEach (l1 ++ l2) body) k
  =~ bind (forEach l1 body) (fun _ => bind (forEach l2 body) k).
Proof.
  induction l1 as [|x l1 IH]; cbn [forEach app].
  - now rewrite bind_ret_l.
  - rewrite !bind_assoc. apply bind_agree; [reflexivity|]. intros _. apply IH.
Qed.

Lemma forEach_map {E S A A'} (f : A -> A') (l : list A) (body : A' -> M E S unit) :
  forEach (map f l) body =~ forEach l (fun x => body (f x)).
Proof.
  induction l as [|x l IH]; cbn [forEach map].
  - reflexivity.
  - apply bind_agree; [reflexivity|]. intros _. apply IH.
Qed.






Lemma syncLocalToServer_normal_form (X : External) (P : Provider) (diffs : DiffResult) :
  Current.syncLocalToServer X P diffs
  =~ (announceSync X diffs ;;
      c <- applyAll X P (plan P diffs) 0 ;;
      finish P c).
Proof.
  unfold Current.syncLocalToServer, applyAll, plan.
  apply bind_agree; [reflexivity|]. intros _. symmetry.
  rewrite forEachWith_app_bind, forEachWith_map.
  apply bind_agree; [reflexivity|]. intros c1.
  rewrite forEachWith_app_bind, forEachWith_map.
  apply bind_agree; [reflexivity|]. intros c2.
  rewrite forEachWith_app_bind, forEachWith_map.
  apply bind_agree; [reflexivity|]. intros c3.
  rewrite forEachWith_app_bind, forEachWith_map.
  apply bind_agree; [reflexivity|]. intros c4.
  rewrite forEachWith_map.
  reflexivity.
Qed.

Lemma Legacy_syncLocalToServer_normal_form (X : External) (P : Provider)
      (diffs : DiffResult) :
  Legacy.syncLocalToServer X P diffs
  =~ (announceSync X diffs ;;
      tryCatch
        (forEach (plan P diffs) (performLegacy X P) ;;
         onNet (log LAll "----------------------------------------------------------------") ;;
         onNet (log LAll "🎉 Sync complete."))
        (interrupted X P diffs)).
Proof.
  unfold Legacy.syncLocalToServer, plan.
  apply bind_agree; [reflexivity|]. intros _.
  apply tryCatch_proper; [|intros e; reflexivity]. symmetry.
  rewrite forEach_app_bind, forEach_map.
  apply bind_agree; [reflexivity|]. intros _.
  rewrite forEach_app_bind, forEach_map.
  apply bind_agree; [reflexivity|]. intros _.
  rewrite forEach_app_bind, forEach_map.
  apply bind_agree; [reflexivity|]. intros _.
  rewrite forEach_app_bind, forEach_map.
  apply bind_agree; [reflexivity|]. intros _.
  rewrite forEach_map.
  reflexivity.
Qed.

(** ** The log of the change set *)

Lemma forEach_log {A} (l : list A) (lvl : Level) (f : A -> string) (s : Net) :
  forEach l (fun x => log lvl (f x)) s
  = mkRes (Returned tt) (map (fun x => Logged lvl (f x)) l) s.
Proof.
  induction l as [|x l IH]; [reflexivity|].
  cbn [forEach map]. unfold bind. cbn [log emit out emitted final].
  now rewrite IH.
Qed.

Lemma forEach_log_files (l : list Entry) (f : Entry -> string) (s : Net) :
  forEach l (fun x => if isFile x then log LStandard (f x) else ret tt) s
  = mkRes (Returned tt) (map (fun x => Logged LStandard (f x)) (filter isFile l)) s.
Proof.
  induction l as [|x l IH]; [reflexivity|].
  cbn [forEach filter]. destruct (isFile x).
  - unfold bind. cbn [log emit out emitted final]. now rewrite IH.
  - now rewrite bind_ret_run, IH.
Qed.

Lemma logDiffs_run (diffs : DiffResult) (s : Net) :
  logDiffs diffs s
  = mkRes (Returned tt) (map (fun m => Logged LStandard m) (diffLines diffs)) s.
Proof.
  unfold logDiffs, diffLines. cbv zeta.
  rewrite !map_app, !map_map.
  rewrite bind_run with (1 := forEach_log _ _ _ _).
  rewrite bind_run with (1 := forEach_log _ _ _ _).
  rewrite bind_run with (1 := forEach_log _ _ _ _).
  rewrite bind_run with (1 := forEach_log _ _ _ _).
  rewrite bind_run with (1 := forEach_log _ _ _ _).
  rewrite forEach_log_files. cbn [out emitted final]. reflexivity.
Qed.

(** ** The dry run *)

Lemma standardLines_app l l' :
  standardLines (l ++ l') = (standardLines l ++ standardLines l')%list.
Proof. unfold standardLines. now rewrite flat_map_app. Qed.

Lemma Dry_ret {A} (a : A) w : Dry [] (ret a w) w.
Proof. repeat split; try constructor. now exists a. Qed.

Lemma Dry_bind {A B} (m : ProgM A) (k : A -> ProgM B) l1 l2 :
  (forall w, Dry l1 (m w) w) -> (forall a w, Dry l2 (k a w) w) ->
  forall w, Dry (l1 ++ l2) (bind m k w) w.
Proof.
  intros Hm Hk w.
  destruct (Hm w) as [[a Ha] [C1 [W1 [D1 [S1 L1]]]]].
  destruct (Hk a (final (m w))) as [[b Hb] [C2 [W2 [D2 [S2 L2]]]]].
  rewrite (bind_returned _ _ _ Ha). unfold Dry. cbn [out emitted final].
  rewrite callsOf_app, writesOf_app, standardLines_app, W1, W2, D2, S2, L1, L2.
  repeat split; try assumption.
  - now exists b.
  - apply Forall_app. now split.
Qed.

Lemma Dry_tryCatch {A} (m : ProgM A) h l w : Dry l (m w) w -> Dry l (tryCatch m h w) w.
Proof.
  intros H. destruct H as [[a Ha] H]. rewrite (tryCatch_returned _ _ _ Ha).
  split; [now exists a | exact H].
Qed.

Lemma Dry_log (l : Level) (msg : string) w :
  Dry (match l with LStandard => [msg] | _ => [] end) (onNet (log l msg) w) w.
Proof. destruct l; repeat split; try constructor; now exists tt. Qed.

Lemma Dry_now w : Dry [] (now w) w.
Proof.
  unfold now. destruct (ticks w) as [|t rest]; repeat split; try constructor;
    eexists; reflexivity.
Qed.

Lemma Dry_gets {A} (f : World -> A) w : Dry [] (gets f w) w.
Proof. repeat split; try constructor. now exists (f w). Qed.

(** The probe: a failure of the call is caught and logged. *)
Lemma Dry_probe msg t (h : Thrown -> ProgM unit) w :
  (forall e w', Dry [] (h e w') w') ->
  Dry [] (tryCatch (onNet (call (Send "NOOP")) ;; onNet (log LAll msg) ;;
                    modify (setLastNoopTime t)) h w) w.
Proof.
  intros Hh. destruct w as [sc dk tk ln st].
  destruct sc as [|[p|e] sc].
  - repeat split; try (now exists tt); repeat constructor.
  - repeat split; try (now exists tt); repeat constructor.
  - rewrite (@tryCatch_threw _ _ _ _ _ _ e) by reflexivity.
    destruct (Hh e (mkWorld sc dk tk ln st)) as [[a Ha] [C [W [D [S L]]]]].
    unfold Dry. cbn [out emitted final bind onNet call script map] in *.
    unfold setScript. cbn [script disk ticks lastNoopTime state] in *.
    rewrite callsOf_app, writesOf_app, standardLines_app, W, L.
    repeat split; try assumption.
    + now exists a.
    + cbn. constructor; [reflexivity | exact C].
Qed.

Lemma Dry_sendNoopIfNeeded force w : Dry [] (sendNoopIfNeeded force w) w.
Proof.
  unfold sendNoopIfNeeded.
  change [] with (@nil string ++ ([] ++ []))%list.
  apply Dry_bind; intros; [apply Dry_now|].
  apply Dry_bind; intros; [apply Dry_gets|].
  match goal with |- context [orb ?c force] => destruct (orb c force) end;
    [|apply Dry_ret].
  apply Dry_probe. intros [message code|shown] w'; apply (Dry_log LVerbose).
Qed.

Section DryRun.

Variable X : External.
Variable P : Provider.
Hypothesis dry : dryRun P = true.

Lemma Dry_createFolder n w : Dry [] (Current.createFolder X P n w) w.
Proof.
  unfold Current.createFolder. rewrite dry.
  change [] with (@nil string ++ [])%list.
  apply Dry_bind; intros; [apply (Dry_log LAll) | apply Dry_ret].
Qed.

Lemma Dry_uploadFile safeOp n t w : Dry [] (uploadFile P safeOp n t w) w.
Proof.
  unfold uploadFile. rewrite dry. cbn [negb].
  change [] with (@nil string ++ ([] ++ ([] ++ [])))%list.
  apply Dry_bind; intros; [apply (Dry_log LAll)|].
  apply Dry_bind; intros; [apply Dry_sendNoopIfNeeded|].
  apply Dry_bind; intros; [apply Dry_ret | apply (Dry_log LVerbose)].
Qed.

Lemma Dry_removeFile safeOp n w : Dry [] (removeFile X P safeOp n w) w.
Proof.
  unfold removeFile. rewrite dry. cbn [negb].
  change [] with (@nil string ++ ([] ++ ([] ++ [])))%list.
  apply Dry_bind; intros; [apply (Dry_log LAll)|].
  apply Dry_bind; intros; [apply Dry_ret|].
  apply Dry_bind; intros; apply (Dry_log LVerbose).
Qed.

Lemma Dry_removeFolder safeOp n w : Dry [] (removeFolder X P safeOp n w) w.
Proof.
  unfold removeFolder. rewrite dry. cbn [negb].
  change [] with (@nil string ++ ([] ++ []))%list.
  apply Dry_bind; intros; [apply (Dry_log LAll)|].
  apply Dry_bind; intros; [apply Dry_ret | apply (Dry_log LVerbose)].
Qed.

Lemma Dry_flushState c w : Dry [] (Current.flushState P c w) w.
Proof. unfold Current.flushState. rewrite dry. apply Dry_ret. Qed.

Lemma Dry_counted c w : Dry [] (Current.counted P c w) w.
Proof.
  unfold Current.counted.
  change [] with (@nil string ++ [])%list.
  apply Dry_bind; intros; [|apply Dry_ret].
  destruct (Nat.eqb _ 0); [apply Dry_flushState | apply Dry_ret].
Qed.

Lemma Dry_perform o w : Dry [] (perform X P o w) w.
Proof.
  destruct o; cbn [perform].
  - apply Dry_createFolder.
  - apply Dry_uploadFile.
  - apply Dry_uploadFile.
  - apply Dry_removeFile.
  - apply Dry_removeFolder.
Qed.

Lemma Dry_performLegacy o w : Dry [] (performLegacy X P o w) w.
Proof.
  destruct o; cbn [performLegacy].
  - unfold Legacy.createFolder. rewrite dry.
    change [] with (@nil string ++ [])%list.
    apply Dry_bind; intros; [apply (Dry_log LAll) | apply Dry_ret].
  - apply Dry_uploadFile.
  - apply Dry_uploadFile.
  - apply Dry_removeFile.
  - apply Dry_removeFolder.
Qed.

Lemma Dry_applyAll ops c w : Dry (map announcement ops) (applyAll X P ops c w) w.
Proof.
  revert c w. induction ops as [|o ops IH]; intros c w.
  - apply Dry_ret.
  - unfold applyAll. cbn [forEachWith map].
    change (announcement o :: map announcement ops)
      with (([announcement o] ++ ([] ++ [])) ++ map announcement ops)%list.
    apply Dry_bind; [|intros; apply IH].
    intros w0. unfold applyOp.
    apply Dry_bind; intros; [apply (Dry_log LStandard)|].
    apply Dry_bind; intros; [apply Dry_perform | apply Dry_counted].
Qed.

Lemma Dry_forEach_legacy ops w : Dry [] (forEach ops (performLegacy X P) w) w.
Proof.
  revert w. induction ops as [|o ops IH]; intros w.
  - apply Dry_ret.
  - cbn [forEach]. change [] with (@nil string ++ [])%list.
    apply Dry_bind; intros; [apply Dry_performLegacy | apply IH].
Qed.

Lemma Dry_announceSync diffs w : Dry [] (announceSync X diffs w) w.
Proof.
  unfold announceSync. cbv zeta.
  change [] with (@nil string ++ ([] ++ ([] ++ [])))%list.
  repeat (apply Dry_bind; intros; [apply (Dry_log LAll)|]).
  apply (Dry_log LAll).
Qed.

Lemma Dry_syncLocalToServer diffs w :
  Dry (map announcement (plan P diffs)) (Current.syncLocalToServer X P diffs w) w.
Proof.
  rewrite (syncLocalToServer_normal_form X P diffs w).
  change (map announcement (plan P diffs))
    with ([] ++ map announcement (plan P diffs))%list.
  apply Dry_bind; intros; [apply Dry_announceSync|].
  rewrite <- (app_nil_r (map announcement (plan P diffs))).
  apply Dry_bind; intros; [apply Dry_applyAll|].
  unfold finish.
  change [] with (@nil string ++ ([] ++ ([] ++ [])))%list.
  repeat (apply Dry_bind; intros; [apply (Dry_log LAll)|]).
  apply Dry_flushState.
Qed.

Lemma Dry_Legacy_syncLocalToServer diffs w :
  Dry [] (Legacy.syncLocalToServer X P diffs w) w.
Proof.
  rewrite (Legacy_syncLocalToServer_normal_form X P diffs w).
  change [] with (@nil string ++ [])%list.
  apply Dry_bind; intros; [apply Dry_announceSync|].
  apply Dry_tryCatch.
  change [] with (@nil string ++ ([] ++ []))%list.
  apply Dry_bind; intros; [apply Dry_forEach_legacy|].
  apply Dry_bind; intros; apply (Dry_log LAll).
Qed.

End DryRun.

Lemma probe_not_mutating (l : list Call) :
  Forall (fun c => c = Send "NOOP") l -> Forall (fun c => mutating c = false) l.
Proof. apply Forall_impl. now intros c ->. Qed.

(** The provider in a dry run.  The lines [deploy] logs for a change set
    depend on the change set alone, not on the mode.  In a dry run
    [syncLocalToServer] returns for every change set and every behaviour of
    the server; the only call it makes on the client is the keep-alive
    probe, so no directory is created, nothing is uploaded or deleted and
    the state file is not pushed; no file is written and the state of the
    provider is unchanged.  At the standard level it logs the announcement
    of every operation of the plan, in the order of the plan, and the plan
    is the one the run without the dry-run switch walks.  The version
    without the periodic flush makes no mutating call and writes no file
    either. *)
Lemma syncLocalToServer_dry_run :
  forall (X : External) (P : Provider) (diffs : DiffResult) (w : World),
    dryRun P = true ->
    let r := Current.syncLocalToServer X P diffs w in
    let r' := Legacy.syncLocalToServer X P diffs w in
    (forall s, logDiffs diffs s
               = mkRes (Returned tt) (map (fun m => Logged LStandard m) (diffLines diffs)) s)
    /\ out r = Returned tt
    /\ Forall (fun c => mutating c = false) (callsOf (emitted r))
    /\ writesOf (emitted r) = []
    /\ disk (final r) = disk w
    /\ state (final r) = state w
    /\ standardLines (emitted r) = map announcement (plan (withDryRun false P) diffs)
    /\ out r' = Returned tt
    /\ Forall (fun c => mutating c = false) (callsOf (emitted r'))
    /\ writesOf (emitted r') = [].
Proof.
  intros X P diffs w dry r r'.
  destruct (@Dry_syncLocalToServer X P dry diffs w) as [[[] Ha] [C [W [D [S L]]]]].
  destruct (@Dry_Legacy_syncLocalToServer X P dry diffs w) as [[[] Ha'] [C' [W' _]]].
  split; [intros s; apply logDiffs_run|].
  repeat split; try assumption; now apply probe_not_mutating.
Qed.

(** ** The checkpoint *)

Lemma Untouched_onNet {A} (m : NetM A) w : Untouched (onNet m w) w.
Proof. repeat split. apply writesOf_onNet. Qed.

Lemma Untouched_ret {A} (a : A) w : Untouched (ret a w) w.
Proof. repeat split. Qed.

Lemma Untouched_throw {A} e w : Untouched (@throw Event World A e w) w.
Proof. repeat split. Qed.

Lemma Untouched_bind {A B} (m : ProgM A) (k : A -> ProgM B) :
  (forall w, Untouched (m w) w) -> (forall a w, Untouched (k a w) w) ->
  forall w, Untouched (bind m k w) w.
Proof.
  intros Hm Hk w. destruct (Hm w) as [W1 [D1 S1]].
  unfold bind. destruct (out (m w)) as [a|e]; [|now repeat split].
  destruct (Hk a (final (m w))) as [W2 [D2 S2]].
  unfold Untouched. cbn [emitted final].
  rewrite writesOf_app, W1, W2, D2, S2. now repeat split.
Qed.

Lemma Untouched_tryCatch {A} (m : ProgM A) (h : Thrown -> ProgM A) :
  (forall w, Untouched (m w) w) -> (forall e w, Untouched (h e w) w) ->
  forall w, Untouched (tryCatch m h w) w.
Proof.
  intros Hm Hh w. destruct (Hm w) as [W1 [D1 S1]].
  unfold tryCatch. destruct (out (m w)) as [a|e]; [now repeat split|].
  destruct (Hh e (final (m w))) as [W2 [D2 S2]].
  unfold Untouched. cbn [emitted final].
  rewrite writesOf_app, W1, W2, D2, S2. now repeat split.
Qed.

Lemma Untouched_now w : Untouched (now w) w.
Proof. unfold now. destruct (ticks w); repeat split. Qed.

Lemma Untouched_gets {A} (f : World -> A) w : Untouched (gets f w) w.
Proof. repeat split. Qed.

Lemma Untouched_setLastNoopTime t w : Untouched (modify (setLastNoopTime t) w) w.
Proof. repeat split. Qed.

Ltac untouched :=
  repeat first
    [ apply Untouched_onNet
    | apply Untouched_ret
    | apply Untouched_throw
    | apply Untouched_now
    | apply Untouched_gets
    | apply Untouched_setLastNoopTime
    | apply Untouched_bind; intros
    | apply Untouched_tryCatch; intros
    | match goal with
      | |- Untouched ((if ?b then _ else _) _) _ => destruct b
      | |- Untouched ((match ?e with JsError _ _ => _ | NonError _ => _ end) _) _ =>
          destruct e
      end ].

Lemma Untouched_sendNoopIfNeeded force w : Untouched (sendNoopIfNeeded force w) w.
Proof. unfold sendNoopIfNeeded. untouched. Qed.

Lemma emitted_bind_prefix {E S A B} (m : M E S A) (k : A -> M E S B) s :
  exists t, emitted (bind m k s) = (emitted (m s) ++ t)%list.
Proof.
  unfold bind. destruct (out (m s)); cbn [emitted]; eexists;
    [reflexivity | now rewrite app_nil_r].
Qed.

Lemma emitted_tryCatch_prefix {E S A} (m : M E S A) (h : Thrown -> M E S A) s :
  exists t, emitted (tryCatch m h s) = (emitted (m s) ++ t)%list.
Proof.
  unfold tryCatch. destruct (out (m s)); cbn [emitted]; eexists;
    [now rewrite app_nil_r | reflexivity].
Qed.

Section Checkpoint.

Variable X : External.
Variable P : Provider.

Lemma Untouched_uploadFile safeOp n t w : Untouched (uploadFile P safeOp n t w) w.
Proof. unfold uploadFile. untouched. Qed.

Lemma Untouched_removeFile safeOp n w : Untouched (removeFile X P safeOp n w) w.
Proof. unfold removeFile. untouched. Qed.

Lemma Untouched_removeFolder safeOp n w : Untouched (removeFolder X P safeOp n w) w.
Proof. unfold removeFolder. untouched. Qed.

Lemma Untouched_flushState c w : Untouched (Current.flushState P c w) w.
Proof. unfold Current.flushState. untouched. Qed.

Lemma flushState_returns c w : out (Current.flushState P c w) = Returned tt.
Proof.
  unfold Current.flushState. destruct (negb (dryRun P)); [|reflexivity].
  unfold tryCatch.
  match goal with |- context [out (?m w)] => destruct (out (m w)) as [[]|e] eqn:E end.
  - exact E.
  - reflexivity.
Qed.

Lemma attempts_first_call (c : Call) retries n a last s :
  exists rest,
    emitted (attempts (onFailure P) (call c) retries (S n) a last s) = Called c :: rest.
Proof.
  cbn [attempts]. unfold tryCatch.
  destruct s as [|[p|e] s]; cbn [call out emitted final app]; eexists; reflexivity.
Qed.

Lemma flushState_pushes c w :
  dryRun P = false ->
  exists rest,
    callsOf (emitted (Current.flushState P c w))
    = UploadFrom (localPath P ++ stateName P) (serverPath P ++ stateName P) :: rest.
Proof.
  intros H. unfold Current.flushState. rewrite H. cbn [negb].
  match goal with
  | |- context [tryCatch (bind ?m ?k) ?h w] =>
      destruct (emitted_tryCatch_prefix (bind m k) h w) as [t1 ->];
      destruct (emitted_bind_prefix m k w) as [t2 ->]
  end.
  unfold Current.safeOp, safeOperation, defaultRetries, onNet. cbn [emitted].
  destruct (attempts_first_call
              (UploadFrom (localPath P ++ stateName P) (serverPath P ++ stateName P))
              3 2 0 None (script w)) as [rest ->].
  eexists. rewrite <- !app_assoc. cbn [map app callsOf flat_map]. reflexivity.
Qed.

Lemma bind_Untouched_returned {A B} (m : ProgM A) (k : A -> ProgM B) w b :
  (forall w0, Untouched (m w0) w0) ->
  out (bind m k w) = Returned b ->
  exists a w1,
    disk w1 = disk w /\ state w1 = state w
    /\ out (k a w1) = Returned b
    /\ writesOf (emitted (bind m k w)) = writesOf (emitted (k a w1))
    /\ final (bind m k w) = final (k a w1).
Proof.
  intros Hm. destruct (Hm w) as [W [D S]]. unfold bind.
  destruct (out (m w)) as [a|e]; [|discriminate].
  cbn [out emitted final]. intros R. exists a, (final (m w)).
  rewrite writesOf_app, W. now repeat split.
Qed.

(** The end of [createFolder]: the entry is appended to the state of the
    provider, and the call that should write that state throws. *)
Lemma createFolder_tail (e : Entry) w :
  (modify (fun w0 => setState (Current.pushEntry e (state w0)) w0) ;;
   m <- gets state ;;
   Current.createLocalState m (localPath P) (stateName P)) w
  = mkRes (Threw (notAFunction "createLocalState")) []
          (setState (Current.pushEntry e (state w)) w).
Proof. reflexivity. Qed.

(** A push that failed is logged, and so is one that succeeded. *)
Lemma flushState_logs c w :
  dryRun P = false ->
  exists t,
    emitted (Current.flushState P c w)
    = (t ++ [OnNet (Logged
               (match out (onNet (Current.safeOp P (call (statePush P))) w) with
                | Returned _ => LVerbose
                | Threw _ => LAll
                end)
               (match out (onNet (Current.safeOp P (call (statePush P))) w) with
                | Returned _ =>
                    "State file " ++ Js.quote ++ stateName P ++ Js.quote
                    ++ " uploaded to the server after " ++ Js.showNat c ++ " operations."
                | Threw error => "⚠️ Failed to upload state file: " ++ messageOf error
                end))])%list.
Proof.
  intros H. unfold Current.flushState. rewrite H. cbn [negb]. unfold statePush.
  set (push := onNet (Current.safeOp P (call (UploadFrom (localPath P ++ stateName P)
                                                         (serverPath P ++ stateName P))))).
  destruct (out (push w)) as [p|e] eqn:O.
  - exists (emitted (push w)).
    rewrite tryCatch_returned with (a := tt);
      [|rewrite (out_bind_returned _ _ _ O); reflexivity].
    rewrite (bind_returned _ _ _ O). reflexivity.
  - exists (emitted (push w)).
    rewrite tryCatch_threw with (e := e);
      [|rewrite (out_bind_threw _ _ _ O); reflexivity].
    rewrite (bind_threw _ _ _ O). reflexivity.
Qed.

End Checkpoint.

(** C2, as stated, fails: six new files are uploaded, every call succeeds,
    and the local state file holds an empty state at the start.  The state
    file is pushed after the fifth upload and once more at the end, but no
    file is written during the run and the state of the provider does not
    change: what is pushed is the empty state, so all six uploads are
    missing from the baseline of the next run. *)
Lemma flush_pushes_state_without_the_uploads :
  let w := mkWorld [] [(stateFilePath sampleProvider, StateJson freshState)] [] 0 freshState in
  let r := Current.syncLocalToServer sampleExternal sampleProvider sixUploads w in
  out r = Returned tt
  /\ callsOf (emitted r)
     = [UploadFrom "dist/1.txt" "1.txt"; UploadFrom "dist/2.txt" "2.txt";
        UploadFrom "dist/3.txt" "3.txt"; UploadFrom "dist/4.txt" "4.txt";
        UploadFrom "dist/5.txt" "5.txt"; statePush sampleProvider;
        UploadFrom "dist/6.txt" "6.txt"; statePush sampleProvider]
  /\ writesOf (emitted r) = []
  /\ data (state (final r)) = []
  /\ readFile (stateFilePath sampleProvider) (disk (final r)) = Some (StateJson freshState).
Proof. cbv zeta. repeat split. Qed.

Lemma Untouched_counted (P : Provider) c w : Untouched (Current.counted P c w) w.
Proof.
  unfold Current.counted. cbv zeta.
  apply Untouched_bind; intros; [|apply Untouched_ret].
  destruct (Nat.eqb _ 0); [apply Untouched_flushState | apply Untouched_ret].
Qed.

Lemma Untouched_file_operation (X : External) (P : Provider) (o : Op) w :
  pass o <> 1 -> Untouched (perform X P o w) w.
Proof.
  intros H. destruct o; cbn [perform pass] in *.
  - congruence.
  - apply Untouched_uploadFile.
  - apply Untouched_uploadFile.
  - apply Untouched_removeFile.
  - apply Untouched_removeFolder.
Qed.

Lemma Untouched_applyAll (X : External) (P : Provider) (ops : list Op) :
  Forall (fun o => pass o <> 1) ops ->
  forall c w, Untouched (applyAll X P ops c w) w.
Proof.
  induction 1 as [|o ops Ho _ IH]; intros c w.
  - apply Untouched_ret.
  - unfold applyAll. cbn [forEachWith].
    apply Untouched_bind; [|intros; apply IH].
    intros w0. unfold applyOp.
    apply Untouched_bind; intros; [apply Untouched_onNet|].
    apply Untouched_bind; intros;
      [now apply Untouched_file_operation | apply Untouched_counted].
Qed.

Lemma plan_without_folders (P : Provider) (diffs : DiffResult) :
  foldersToCreate diffs = [] -> Forall (fun o => pass o <> 1) (plan P diffs).
Proof.
  intros H. unfold plan. rewrite H. cbn [map app].
  repeat (apply Forall_app; split);
    apply Forall_forall; intros o Ho; apply in_map_iff in Ho;
    destruct Ho as [e [<- _]]; cbn [pass]; discriminate.
Qed.

Lemma Untouched_sync_without_folders (X : External) (P : Provider) (diffs : DiffResult) w :
  foldersToCreate diffs = [] -> Untouched (Current.syncLocalToServer X P diffs w) w.
Proof.
  intros H. rewrite (syncLocalToServer_normal_form X P diffs w).
  apply Untouched_bind; intros; [unfold announceSync; cbv zeta; untouched|].
  apply Untouched_bind; intros;
    [apply Untouched_applyAll; now apply plan_without_folders|].
  unfold finish.
  repeat (apply Untouched_bind; intros; [apply Untouched_onNet|]).
  apply Untouched_flushState.
Qed.

(** ** A server that accepts every call *)

Lemma Smooth_bind {A B} (m : ProgM A) (k : A -> ProgM B) (a : A) (o : Outcome B)
      (Q1 Q2 : list Call -> Prop) (f1 f2 : IFileList -> IFileList) :
  Smooth m (Returned a) Q1 f1 -> Smooth (k a) o Q2 f2 ->
  Smooth (bind m k) o (fun c => exists c1 c2, c = (c1 ++ c2)%list /\ Q1 c1 /\ Q2 c2)
         (fun st => f2 (f1 st)).
Proof.
  intros Hm Hk w S. destruct (Hm w S) as [t1 [w1 [E1 [H1 [W1 [S1 [D1 St1]]]]]]].
  destruct (Hk w1 S1) as [t2 [w2 [E2 [H2 [W2 [S2 [D2 St2]]]]]]].
  exists (t1 ++ t2)%list, w2. repeat split.
  - rewrite bind_run with (1 := E1). now rewrite E2.
  - exists (callsOf t1), (callsOf t2). now rewrite callsOf_app.
  - now rewrite writesOf_app, W1, W2.
  - exact S2.
  - now rewrite D2.
  - now rewrite St2, St1.
Qed.

Lemma Smooth_then {B} (m : ProgM unit) (k : ProgM B) (o : Outcome B)
      (Q1 Q2 : list Call -> Prop) (f1 f2 : IFileList -> IFileList) :
  Smooth m (Returned tt) Q1 f1 -> Smooth k o Q2 f2 ->
  Smooth (m ;; k) o (fun c => exists c1 c2, c = (c1 ++ c2)%list /\ Q1 c1 /\ Q2 c2)
         (fun st => f2 (f1 st)).
Proof. intros Hm Hk. exact (@Smooth_bind _ _ m (fun _ => k) tt o Q1 Q2 f1 f2 Hm Hk). Qed.

Lemma Smooth_weaken {A} (m : ProgM A) (o : Outcome A) (Q Q' : list Call -> Prop)
      (f : IFileList -> IFileList) :
  (forall c, Q c -> Q' c) -> Smooth m o Q f -> Smooth m o Q' f.
Proof.
  intros H Hm w S. destruct (Hm w S) as [t [w' [E [Hq R]]]].
  exists t, w'. split; [exact E | split; [now apply H | exact R]].
Qed.

Lemma setScript_same (w : World) : script w = [] -> setScript [] w = w.
Proof. destruct w. cbn. now intros ->. Qed.

Lemma Smooth_onNet {A} (m : NetM A) (a : A) (t : list NetEvent) :
  m [] = mkRes (Returned a) t [] ->
  Smooth (onNet m) (Returned a) (fun c => c = netCalls t) (fun st => st).
Proof.
  intros E w S. exists (map OnNet t), w.
  rewrite <- S in E at 1. rewrite (onNet_run _ w E), (setScript_same w S).
  repeat split; [apply callsOf_onNet | apply writesOf_onNet | exact S].
Qed.

Lemma Smooth_sendNoopIfNeeded :
  Smooth (sendNoopIfNeeded false) (Returned tt) (fun c => c = [] \/ c = [Send "NOOP"])
         (fun st => st).
Proof.
  intros [s d tk last st] S. cbn [script] in S. subst s.
  unfold sendNoopIfNeeded, bind, now, gets.
  destruct tk as [|t tk]; cbn [ticks out final emitted lastNoopTime setTicks];
    match goal with
    | |- context [(?b || false)] => destruct (b || false)
    end;
    do 2 eexists; (split; [reflexivity|]); repeat split; auto.
Qed.

Lemma safeOp_accepted (v : Version) (P : Provider) {A} (operation : NetM A) (a : A) t :
  operation [] = mkRes (Returned a) t [] ->
  safeOperationOf v P operation defaultRetries [] = mkRes (Returned a) t [].
Proof.
  intros E. destruct v; cbn [safeOperationOf];
    [unfold safeOperation | unfold Legacy.safeOperation];
    unfold defaultRetries; cbn [attempts];
    now rewrite tryCatch_run_returned with (1 := E).
Qed.

Lemma withoutProbes_app (l l' : list Call) :
  withoutProbes (l ++ l') = (withoutProbes l ++ withoutProbes l')%list.
Proof. apply filter_app. Qed.

Lemma Accepted_bind {A B} (m : ProgM A) (k : A -> ProgM B) (a : A) (b : B) cs1 cs2 :
  Accepted m a cs1 -> Accepted (k a) b cs2 -> Accepted (bind m k) b (cs1 ++ cs2).
Proof.
  intros Hm Hk. unfold Accepted.
  apply Smooth_weaken with (2 := @Smooth_bind _ _ m k a (Returned b) _ _ _ _ Hm Hk).
  intros c [c1 [c2 [-> [<- <-]]]]. apply withoutProbes_app.
Qed.

Lemma Accepted_then {B} (m : ProgM unit) (k : ProgM B) (b : B) cs1 cs2 :
  Accepted m tt cs1 -> Accepted k b cs2 -> Accepted (m ;; k) b (cs1 ++ cs2).
Proof. intros Hm Hk. exact (@Accepted_bind _ _ m (fun _ => k) tt b cs1 cs2 Hm Hk). Qed.

Lemma Accepted_onNet {A} (m : NetM A) (a : A) (t : list NetEvent) :
  m [] = mkRes (Returned a) t [] -> Accepted (onNet m) a (withoutProbes (netCalls t)).
Proof.
  intros E. unfold Accepted.
  apply Smooth_weaken with (2 := @Smooth_onNet _ m a t E). now intros c ->.
Qed.

Lemma Accepted_log (l : Level) (msg : string) : Accepted (onNet (log l msg)) tt [].
Proof. exact (@Accepted_onNet _ (log l msg) tt _ eq_refl). Qed.

Lemma Accepted_ret {A} (a : A) : Accepted (ret a) a [].
Proof. intros w S. exists [], w. now repeat split. Qed.

Lemma Accepted_tryCatch {A} (m : ProgM A) (h : Thrown -> ProgM A) (a : A) cs :
  Accepted m a cs -> Accepted (tryCatch m h) a cs.
Proof.
  intros Hm w S. destruct (Hm w S) as [t [w' [E R]]].
  exists t, w'. split; [|exact R]. now rewrite tryCatch_run_returned with (1 := E).
Qed.

Lemma Accepted_sendNoopIfNeeded : Accepted (sendNoopIfNeeded false) tt [].
Proof.
  unfold Accepted. apply Smooth_weaken with (2 := Smooth_sendNoopIfNeeded).
  now intros c [->| ->].
Qed.

Lemma Accepted_safeCall (v : Version) (P : Provider) (c : Call) :
  isProbe c = false ->
  Accepted (onNet (safeOperationOf v P (call c) defaultRetries)) NoData [c].
Proof.
  intros H.
  assert (E : safeOperationOf v P (call c) defaultRetries []
              = mkRes (Returned NoData) [Called c] [])
    by (now apply safeOp_accepted).
  pose proof (@Accepted_onNet _ _ _ _ E) as R. cbn [netCalls flat_map app] in R.
  unfold withoutProbes in R. cbn [filter] in R. now rewrite H in R.
Qed.

Section AcceptedWalk.

Variable X : External.
Variable P : Provider.
Hypothesis retry : TransparentRetry X.
Hypothesis wet : dryRun P = false.

Lemma Accepted_uploadFile (n : string) (t : UploadType) :
  Accepted (Current.uploadFile P n t) tt [UploadFrom (localPath P ++ n) n].
Proof.
  unfold Current.uploadFile, uploadFile. rewrite wet. cbv zeta. cbn [negb].
  change [UploadFrom (localPath P ++ n) n]
    with ([] ++ [] ++ ([UploadFrom (localPath P ++ n) n] ++ []) ++ [])%list.
  apply Accepted_then; [apply Accepted_log|].
  apply Accepted_then; [apply Accepted_sendNoopIfNeeded|].
  apply Accepted_then; [|apply Accepted_log].
  apply Accepted_bind with (a := NoData); [|apply Accepted_ret].
  now apply (Accepted_safeCall PeriodicFlush).
Qed.

Lemma Accepted_removeFile (n : string) :
  Accepted (Current.removeFile X P n) tt [Remove n].
Proof.
  unfold Current.removeFile, removeFile. rewrite wet. cbn [negb].
  change [Remove n] with ([] ++ ([Remove n] ++ []) ++ [] ++ [])%list.
  apply Accepted_then; [apply Accepted_log|].
  apply Accepted_then; [|apply Accepted_then; apply Accepted_log].
  apply Accepted_tryCatch.
  apply Accepted_bind with (a := NoData); [|apply Accepted_ret].
  now apply (Accepted_safeCall PeriodicFlush).
Qed.

Lemma Accepted_removeFolder (n : string) :
  Accepted (Current.removeFolder X P n) tt [RemoveDir (absoluteFolderPath P n)].
Proof.
  unfold Current.removeFolder, removeFolder. rewrite wet. cbn [negb].
  change [RemoveDir (absoluteFolderPath P n)]
    with ([] ++ ([RemoveDir (absoluteFolderPath P n)] ++ []) ++ [])%list.
  apply Accepted_then; [apply Accepted_log|].
  apply Accepted_then; [|apply Accepted_log].
  apply Accepted_bind with (a := NoData); [|apply Accepted_ret].
  assert (R : retryRequest X (call (RemoveDir (absoluteFolderPath P n))) []
              = mkRes (Returned NoData) [Called (RemoveDir (absoluteFolderPath P n))] [])
    by (now rewrite retry with (a := NoData)).
  exact (@Accepted_onNet _ _ _ _ (@safeOp_accepted PeriodicFlush P _ _ _ _ R)).
Qed.

Lemma Accepted_flushState (c : nat) : Accepted (Current.flushState P c) tt [statePush P].
Proof.
  unfold Current.flushState. rewrite wet. cbn [negb].
  apply Accepted_tryCatch.
  change [statePush P] with ([statePush P] ++ [])%list.
  apply Accepted_bind with (a := NoData); [|apply Accepted_log].
  now apply (Accepted_safeCall PeriodicFlush).
Qed.

Lemma Accepted_counted (c : nat) :
  Accepted (Current.counted P c) (c + 1)
           (if Nat.eqb ((c + 1) mod 5) 0 then [statePush P] else []).
Proof.
  unfold Current.counted. cbv zeta.
  rewrite <- (app_nil_r (if Nat.eqb ((c + 1) mod 5) 0 then [statePush P] else [])).
  apply Accepted_then; [|apply Accepted_ret].
  destruct (Nat.eqb ((c + 1) mod 5) 0); [apply Accepted_flushState | apply Accepted_ret].
Qed.

Lemma Accepted_file_operation (o : Op) :
  pass o <> 1 -> Accepted (perform X P o) tt (requests P o).
Proof.
  intros H. destruct o as [n|n|n|n|n]; cbn [perform requests pass] in *.
  - congruence.
  - apply Accepted_uploadFile.
  - apply Accepted_uploadFile.
  - apply Accepted_removeFile.
  - apply Accepted_removeFolder.
Qed.

Lemma Accepted_applyAll (ops : list Op) :
  Forall (fun o => pass o <> 1) ops ->
  forall c, Accepted (applyAll X P ops c) (c + length ops) (checkpointed P c ops).
Proof.
  induction 1 as [|o ops Ho _ IH]; intros c.
  - cbn [applyAll forEachWith length checkpointed]. rewrite Nat.add_0_r.
    apply Accepted_ret.
  - unfold applyAll. cbn [forEachWith length checkpointed].
    replace (c + S (length ops)) with ((c + 1) + length ops) by lia.
    rewrite app_assoc.
    apply Accepted_bind with (a := c + 1); [|apply IH].
    unfold applyOp.
    change (requests P o ++ (if Nat.eqb ((c + 1) mod 5) 0 then [statePush P] else []))%list
      with ([] ++ requests P o
               ++ (if Nat.eqb ((c + 1) mod 5) 0 then [statePush P] else []))%list.
    apply Accepted_then; [apply Accepted_log|].
    apply Accepted_then; [now apply Accepted_file_operation | apply Accepted_counted].
Qed.

Lemma Accepted_sync_without_folders (diffs : DiffResult) :
  foldersToCreate diffs = [] ->
  Accepted (Current.syncLocalToServer X P diffs) tt
           (checkpointed P 0 (plan P diffs) ++ [statePush P]).
Proof.
  intros F w S.
  rewrite (syncLocalToServer_normal_form X P diffs w).
  revert w S.
  change (Accepted (announceSync X diffs ;; c <- applyAll X P (plan P diffs) 0 ;; finish P c)
                   tt (checkpointed P 0 (plan P diffs) ++ [statePush P])).
  change (checkpointed P 0 (plan P diffs) ++ [statePush P])%list
    with ([] ++ checkpointed P 0 (plan P diffs) ++ [statePush P])%list.
  apply Accepted_then.
  - unfold announceSync. cbv zeta.
    change (@nil Call) with (@nil Call ++ [] ++ [] ++ [])%list.
    repeat (apply Accepted_then; [apply Accepted_log|]). apply Accepted_log.
  - apply Accepted_bind with (a := 0 + length (plan P diffs)).
    + apply Accepted_applyAll. now apply plan_without_folders.
    + unfold finish.
      change [statePush P] with ([] ++ [] ++ [] ++ [statePush P])%list.
      repeat (apply Accepted_then; [apply Accepted_log|]). apply Accepted_flushState.
Qed.

End AcceptedWalk.

(** C2, amended.  The counter of operations runs across the five loops;
    after each operation that brings it to a multiple of five, and once more
    after the last loop, [flushState] runs.  [flushState] never throws: when
    the run is not a dry run it pushes the local state file to the remote
    target through the retry wrapper, and a push that fails is logged.  It
    serializes nothing: it writes no file and leaves the state of the
    provider alone, and so do uploads, replacements and deletions, so that a
    sync that creates no folder pushes the local state file as it found
    it.  In the trace of such a sync, on a server that accepts every call
    and with a [retryRequest] that runs a callback that returns once: the
    calls but the keep-alive probes are the transfer or removal of each
    operation in the order of the plan, with the push of the state file
    after every fifth of them, and one more push at the end. *)
Theorem flush_every_five_operations :
  forall (X : External) (P : Provider),
    (forall diffs,
        Current.syncLocalToServer X P diffs
        =~ (announceSync X diffs ;;
            c <- applyAll X P (plan P diffs) 0 ;;
            finish P c))
    /\ (forall o ops c,
        applyAll X P (o :: ops) c
        =~ (onNet (log LStandard (announcement o)) ;;
            perform X P o ;;
            (if Nat.eqb ((c + 1) mod 5) 0 then Current.flushState P (c + 1) else ret tt) ;;
            applyAll X P ops (c + 1)))
    /\ (forall c w,
        out (Current.flushState P c w) = Returned tt
        /\ Untouched (Current.flushState P c w) w)
    /\ (dryRun P = false ->
        forall c w, exists rest,
          callsOf (emitted (Current.flushState P c w)) = statePush P :: rest)
    /\ (dryRun P = false ->
        forall c w e,
          out (onNet (Current.safeOp P (call (statePush P))) w) = Threw e ->
          exists t,
            emitted (Current.flushState P c w)
            = (t ++ [OnNet (Logged LAll ("⚠️ Failed to upload state file: "
                                         ++ messageOf e))])%list)
    /\ (forall o w,
        pass o <> 1 -> Untouched (perform X P o w) w)
    /\ (forall diffs w,
        foldersToCreate diffs = [] ->
        Untouched (Current.syncLocalToServer X P diffs w) w)
    /\ (TransparentRetry X -> dryRun P = false ->
        forall diffs,
          foldersToCreate diffs = [] ->
          Accepted (Current.syncLocalToServer X P diffs) tt
                   (checkpointed P 0 (plan P diffs) ++ [statePush P])).
Proof.
  intros X P. repeat apply conj.
  - intros diffs. apply syncLocalToServer_normal_form.
  - intros o ops c. unfold applyAll. cbn [forEachWith]. unfold applyOp, Current.counted.
    cbv zeta. rewrite !bind_assoc.
    apply bind_agree; [reflexivity|]. intros _. rewrite !bind_assoc.
    apply bind_agree; [reflexivity|]. intros _. rewrite !bind_assoc.
    apply bind_agree; [reflexivity|]. intros _. now rewrite bind_ret_l.
  - intros c w. split; [apply flushState_returns | apply Untouched_flushState].
  - intros H c w. now apply flushState_pushes.
  - intros H c w e O. destruct (@flushState_logs P c w H) as [t E].
    exists t. rewrite E, O. reflexivity.
  - intros o w H. now apply Untouched_file_operation.
  - intros diffs w H. now apply Untouched_sync_without_folders.
  - intros retry wet diffs H. now apply Accepted_sync_without_folders.
Qed.

Lemma flush_every_five_operations_witness :
  let w := mkWorld [Fail timedOut; Fail timedOut; Fail timedOut]
                   [(stateFilePath sampleProvider, StateJson freshState)] [] 0 freshState in
  let r := Current.flushState sampleProvider 5 w in
  out r = Returned tt
  /\ callsOf (emitted r)
     = [statePush sampleProvider; statePush sampleProvider; statePush sampleProvider]
  /\ (exists t,
        emitted r
        = (t ++ [OnNet (Logged LAll "⚠️ Failed to upload state file: Operation failed after 3 attempts: Timeout (control socket)")])%list)
  /\ Untouched (Current.syncLocalToServer sampleExternal sampleProvider sixUploads w) w
  /\ Accepted (Current.syncLocalToServer sampleExternal sampleProvider sixUploads) tt
              [UploadFrom "dist/1.txt" "1.txt"; UploadFrom "dist/2.txt" "2.txt";
               UploadFrom "dist/3.txt" "3.txt"; UploadFrom "dist/4.txt" "4.txt";
               UploadFrom "dist/5.txt" "5.txt"; statePush sampleProvider;
               UploadFrom "dist/6.txt" "6.txt"; statePush sampleProvider].
Proof.
  cbv zeta.
  destruct (flush_every_five_operations sampleExternal sampleProvider)
    as [_ [_ [R [_ [L [_ [U A]]]]]]].
  split; [exact (proj1 (R 5 _))|].
  split; [reflexivity|].
  split; [|split;
            [exact (U sixUploads _ eq_refl)
            |exact (A (fun A callback s a _ => eq_refl) eq_refl sixUploads eq_refl)]].
  exact (L eq_refl 5
           (mkWorld [Fail timedOut; Fail timedOut; Fail timedOut]
                    [(stateFilePath sampleProvider, StateJson freshState)] [] 0 freshState)
           (JsError "Operation failed after 3 attempts: Timeout (control socket)" None)
           eq_refl).
Defined.

(** ** A fault in the middle of the walk *)

Lemma announceSync_returns (X : External) (diffs : DiffResult) (w : World) :
  out (announceSync X diffs w) = Returned tt.
Proof. reflexivity. Qed.

(** With the periodic flush, a fault of an operation ends the run there:
    nothing is emitted after the events of the walk, so no state file is
    written and no push is made on that account. *)
Lemma syncLocalToServer_fault_propagates (X : External) (P : Provider)
      (diffs : DiffResult) (w : World) (e : Thrown) :
  let w' := final (announceSync X diffs w) in
  out (applyAll X P (plan P diffs) 0 w') = Threw e ->
  Current.syncLocalToServer X P diffs w
  = mkRes (Threw e)
          (emitted (announceSync X diffs w) ++ emitted (applyAll X P (plan P diffs) 0 w'))
          (final (applyAll X P (plan P diffs) 0 w')).
Proof.
  intros w' H. rewrite (syncLocalToServer_normal_form X P diffs w).
  rewrite (bind_returned _ _ _ (announceSync_returns X diffs w)).
  fold w'. rewrite (bind_threw _ _ _ H). reflexivity.
Qed.

Lemma updateStateFile_writes (X : External) (path name : string) (diffs : DiffResult)
      (w : World) :
  out (Legacy.updateStateFile X path name diffs w) = Returned tt
  /\ exists d,
      writesOf (emitted (Legacy.updateStateFile X path name diffs w))
      = [((path ++ name)%string, d)].
Proof.
  unfold Legacy.updateStateFile. cbv zeta.
  assert (N : exists t w1, now w = mkRes (Returned t) [] w1)
    by (unfold now; destruct (ticks w) as [|t rest]; eexists; eexists; reflexivity).
  destruct N as [t [w1 N]].
  assert (O : out (now w) = Returned t) by now rewrite N.
  rewrite (bind_returned _ _ _ O), N. cbn [out emitted final].
  split; [reflexivity | eexists; reflexivity].
Qed.

Lemma interrupted_writes_state (X : External) (P : Provider) (diffs : DiffResult)
      (e : Thrown) (w : World) :
  out (interrupted X P diffs e w) = Threw e
  /\ exists d, writesOf (emitted (interrupted X P diffs e w)) = [(stateFilePath P, d)].
Proof.
  unfold interrupted.
  rewrite (bind_returned _ _ _ (out_onNet_log _ _ _)).
  set (w0 := final (onNet (log LAll _) w)).
  destruct (updateStateFile_writes X (localPath P) (stateName P) diffs w0) as [O [d W]].
  rewrite (bind_returned _ _ _ O). cbn [out emitted final throw].
  split; [reflexivity|]. exists d.
  now rewrite !writesOf_app, W, app_nil_r.
Qed.

(** With the [try] block, the same fault is answered by a write of the
    state file, and then thrown again. *)
Lemma Legacy_syncLocalToServer_fault_is_checkpointed (X : External) (P : Provider)
      (diffs : DiffResult) (w : World) (e : Thrown) :
  let w' := final (announceSync X diffs w) in
  let walk :=
    (forEach (plan P diffs) (performLegacy X P) ;;
     onNet (log LAll "----------------------------------------------------------------") ;;
     onNet (log LAll "🎉 Sync complete.")) in
  out (walk w') = Threw e ->
  out (Legacy.syncLocalToServer X P diffs w) = Threw e
  /\ exists d,
      writesOf (emitted (Legacy.syncLocalToServer X P diffs w))
      = (writesOf (emitted (walk w')) ++ [(stateFilePath P, d)])%list.
Proof.
  intros w' walk H. rewrite (Legacy_syncLocalToServer_normal_form X P diffs w).
  rewrite (bind_returned _ _ _ (announceSync_returns X diffs w)).
  fold w'. fold walk. rewrite (tryCatch_threw _ _ _ H).
  cbn [out emitted final].
  destruct (interrupted_writes_state X P diffs e (final (walk w'))) as [O [d W]].
  split; [exact O|]. exists d.
  assert (U : Untouched (announceSync X diffs w) w)
    by (unfold announceSync; cbv zeta; untouched).
  destruct U as [U _].
  now rewrite !writesOf_app, W, U.
Qed.

(** ** The baseline *)

Section Baseline.

Variable X : External.

(** [downloadFileList] answers with what [JSON.parse] makes of the buffer
    file, and fails as the download does. *)
Lemma downloadFileList_out (path : string) (w : World) :
  out (downloadFileList X path w)
  = match out (onNet (retryRequest X (call (DownloadTo tempFileNameHack path))) w) with
    | Returned p => JSON_parse (received p)
    | Threw e => Threw e
    end.
Proof.
  unfold downloadFileList.
  set (fetch := onNet (retryRequest X (call (DownloadTo tempFileNameHack path)))).
  destruct (out (fetch w)) as [p|e] eqn:F.
  - rewrite (out_bind_returned _ _ _ F).
    unfold bind, modify, gets. cbn [out final emitted disk setDisk readFile fst snd].
    change (String.eqb tempFileNameHack tempFileNameHack) with true. cbn iota.
    destruct (JSON_parse (received p)); reflexivity.
  - now rewrite (out_bind_threw _ _ _ F).
Qed.

(** The [catch] block of [getServerFiles] cannot fail. *)
Lemma getServerFiles_catch (args : Args) (w : World) (e : Thrown) :
  out (fetchServerFiles X args w) = Threw e ->
  exists t, out (getServerFiles X args w) = Returned (emptyState X t).
Proof.
  intros H. unfold getServerFiles. rewrite (out_tryCatch_threw _ _ _ H).
  apply four_lines_then_clock.
Qed.

End Baseline.

(** C6, as stated, fails: the state file on the server parses and names a
    version the program does not know.  The version is not looked at: the
    file becomes the baseline with its entry, not the empty state. *)
Lemma getServerFiles_keeps_state_of_unknown_version :
  let w := worldWith [Ok NoData; Ok (Body (StateJson staleState))] in
  version staleState <> currentSyncFileVersion sampleExternal
  /\ out (getServerFiles sampleExternal sampleArgs w) = Returned staleState
  /\ data staleState = [fileEntry "index.html"].
Proof. cbv zeta. repeat split. discriminate. Qed.

(** C6, amended.  [getServerFiles] never fails.  Whatever fault the [try]
    block runs into, the baseline is the empty state: the description and
    the current version of the program, the time of the clock and no entry.
    The block fails when the download fails and when what was downloaded
    does not parse (nothing is recovered from it).  A state file that
    parses is the baseline whatever version it names, with the entries the
    exclude filter keeps. *)
Theorem getServerFiles_degrades_to_empty_state :
  forall (X : External) (args : Args) (w : World),
    let dir := onNet (ensureDir X (serverDir args)) w in
    let fetched :=
      onNet (retryRequest X (call (DownloadTo tempFileNameHack (argStateName args))))
            (final dir) in
    (exists m, out (getServerFiles X args w) = Returned m)
    /\ (forall e,
        out (fetchServerFiles X args w) = Threw e ->
        exists t,
          out (getServerFiles X args w)
          = Returned (mkFileList (syncFileDescription X) (currentSyncFileVersion X) t []))
    /\ (out dir = Returned tt -> dangerousCleanSlate args = false ->
        forall e, out fetched = Threw e ->
          out (fetchServerFiles X args w) = Threw e)
    /\ (out dir = Returned tt -> dangerousCleanSlate args = false ->
        forall p e, out fetched = Returned p -> JSON_parse (received p) = Threw e ->
          out (fetchServerFiles X args w) = Threw e)
    /\ (out dir = Returned tt -> dangerousCleanSlate args = false ->
        forall p m, out fetched = Returned p -> JSON_parse (received p) = Returned m ->
          out (getServerFiles X args w)
          = Returned (match exclude args with
                      | [] => m
                      | _ => withData m (filter (kept X args) (data m))
                      end)).
Proof.
  intros X args w dir fetched.
  assert (Body : out dir = Returned tt -> dangerousCleanSlate args = false ->
                 out (fetchServerFiles X args w)
                 = match out fetched with
                   | Returned p =>
                       match JSON_parse (received p) with
                       | Returned m =>
                           Returned (match exclude args with
                                     | [] => m
                                     | _ => withData m (filter (kept X args) (data m))
                                     end)
                       | Threw e => Threw e
                       end
                   | Threw e => Threw e
                   end).
  { intros Hd Hc. unfold fetchServerFiles. rewrite (out_bind_returned _ _ _ Hd).
    rewrite Hc, bind_ret_run.
    pose proof (downloadFileList_out X (argStateName args) (final dir)) as D.
    fold fetched in D.
    destruct (out fetched) as [p|e].
    - destruct (JSON_parse (received p)) as [m|e].
      + now rewrite (out_bind_returned _ _ _ D).
      + now rewrite (out_bind_threw _ _ _ D).
    - now rewrite (out_bind_threw _ _ _ D). }
  repeat apply conj.
  - destruct (out (fetchServerFiles X args w)) as [m|e] eqn:H.
    + exists m. unfold getServerFiles. now apply out_tryCatch_returned.
    + destruct (getServerFiles_catch X args w H) as [t Ht]. now exists (emptyState X t).
  - intros e H. now apply getServerFiles_catch with (e := e).
  - intros Hd Hc e He. rewrite (Body Hd Hc), He. reflexivity.
  - intros Hd Hc p e Hp He. rewrite (Body Hd Hc), Hp, He. reflexivity.
  - intros Hd Hc p m Hp Hm.
    assert (R : out (fetchServerFiles X args w)
                = Returned (match exclude args with
                            | [] => m
                            | _ => withData m (filter (kept X args) (data m))
                            end)).
    { rewrite (Body Hd Hc), Hp, Hm. reflexivity. }
    unfold getServerFiles. now apply out_tryCatch_returned.
Qed.

Lemma getServerFiles_degrades_to_empty_state_witness :
  exists t,
    out (getServerFiles sampleExternal sampleArgs
           (worldWith [Ok NoData; Ok (Body (Text "<html>502 Bad Gateway</html>"))]))
    = Returned (mkFileList (syncFileDescription sampleExternal) "1.0.0" t []).
Proof.
  destruct (getServerFiles_degrades_to_empty_state sampleExternal sampleArgs
              (worldWith [Ok NoData; Ok (Body (Text "<html>502 Bad Gateway</html>"))]))
    as [_ [E [_ [U _]]]].
  exact (E _ (U eq_refl eq_refl _ _ eq_refl eq_refl)).
Defined.

(** ** The calls of a run, operation by operation *)

Lemma only_ret {A} Q (a : A) : only Q (@ret NetEvent Net A a).
Proof. intros s. constructor. Qed.

Lemma only_throw {A} Q e : only Q (@throw NetEvent Net A e).
Proof. intros s. constructor. Qed.

Lemma only_emit Q (e : NetEvent) :
  match e with Called _ => False | _ => True end -> only Q (emit e).
Proof. intros H s. destruct e; try contradiction; constructor. Qed.

Lemma only_log Q (l : Level) (msg : string) : only Q (log l msg).
Proof. now apply only_emit. Qed.

Lemma only_call (Q : Call -> Prop) (c : Call) : Q c -> only Q (call c).
Proof. intros H [|[p|e] s]; cbn; now repeat constructor. Qed.

Lemma only_bind {A B} Q (m : NetM A) (k : A -> NetM B) :
  only Q m -> (forall a, only Q (k a)) -> only Q (bind m k).
Proof.
  intros Hm Hk s. unfold bind. destruct (out (m s)) as [a|e]; cbn [emitted].
  - rewrite netCalls_app. apply Forall_app. split; [apply Hm | apply Hk].
  - apply Hm.
Qed.

Lemma only_tryCatch {A} Q (m : NetM A) (h : Thrown -> NetM A) :
  only Q m -> (forall e, only Q (h e)) -> only Q (tryCatch m h).
Proof.
  intros Hm Hh s. unfold tryCatch. destruct (out (m s)) as [a|e]; cbn [emitted].
  - apply Hm.
  - rewrite netCalls_app. apply Forall_app. split; [apply Hm | apply Hh].
Qed.

Lemma only_forEach {A} Q (l : list A) (body : A -> NetM unit) :
  (forall x, only Q (body x)) -> only Q (forEach l body).
Proof.
  intros H. induction l as [|x l IH]; cbn [forEach].
  - apply only_ret.
  - apply only_bind; [apply H | intros _; exact IH].
Qed.

Ltac only_step :=
  first
    [ apply only_ret
    | apply only_throw
    | apply only_log
    | apply only_emit; exact I
    | apply only_bind; [|intros]
    | apply only_tryCatch; [|intros]
    | apply only_forEach; intros
    | match goal with
      | |- only _ (if ?b then _ else _) => destruct b
      | |- only _ (when ?b _) => destruct b; cbn [when]
      | |- only _ (match ?e with JsError _ _ => _ | NonError _ => _ end) => destruct e
      end ].

Lemma only_reconnect Q (P : Provider) :
  Q Close -> Q (Access (reconnectOptions P)) -> only Q (reconnect P).
Proof.
  intros H1 H2. unfold reconnect.
  repeat (only_step || (apply only_call; assumption)).
Qed.

Lemma only_catchBlockOf Q (v : Version) (P : Provider) retries attempt e :
  Q Close -> Q (Access (reconnectOptions P)) ->
  only Q (catchBlockOf v P retries attempt e).
Proof.
  intros H1 H2. destruct v; cbn [catchBlockOf];
    [unfold onFailure | unfold Legacy.onFailure];
    repeat ((apply only_reconnect; assumption) || only_step).
Qed.

Lemma only_attempts {A} Q (catchBlock : nat -> nat -> Thrown -> NetM Thrown)
      (operation : NetM A) retries remaining attempt last :
  (forall r a e, only Q (catchBlock r a e)) -> only Q operation ->
  only Q (attempts catchBlock operation retries remaining attempt last).
Proof.
  intros Hc Ho. revert attempt last.
  induction remaining as [|k IH]; intros attempt last; cbn [attempts].
  - apply only_throw.
  - apply only_tryCatch; [exact Ho|]. intros e.
    apply only_bind; [apply Hc | intros l; apply IH].
Qed.

Lemma only_safeOperationOf {A} Q (v : Version) (P : Provider) (operation : NetM A) retries :
  Q Close -> Q (Access (reconnectOptions P)) -> only Q operation ->
  only Q (safeOperationOf v P operation retries).
Proof.
  intros H1 H2 Ho.
  assert (E : safeOperationOf v P operation retries
              = attempts (catchBlockOf v P) operation retries retries 0 None)
    by now destruct v.
  rewrite E. apply only_attempts; [|exact Ho].
  intros r a e. now apply only_catchBlockOf.
Qed.

Lemma Only_onNet {A} Q (m : NetM A) : only Q m -> Only Q (onNet m).
Proof. intros H w. unfold onNet. cbn [emitted]. rewrite callsOf_onNet. apply H. Qed.

Lemma Only_ret {A} Q (a : A) : Only Q (@ret Event World A a).
Proof. intros w. constructor. Qed.






Lemma Only_bind {A B} Q (m : ProgM A) (k : A -> ProgM B) :
  Only Q m -> (forall a, Only Q (k a)) -> Only Q (bind m k).
Proof.
  intros Hm Hk w. unfold bind. destruct (out (m w)) as [a|e]; cbn [emitted].
  - rewrite callsOf_app. apply Forall_app. split; [apply Hm | apply Hk].
  - apply Hm.
Qed.













Section Serving.

Variable X : External.
Variable P : Provider.
Variable v : Version.
Hypothesis callback : CallbackOnly X.

Lemma only_retryRequest {A} Q (m : NetM A) : only Q m -> only Q (retryRequest X m).
Proof. intros H. now apply (proj2 (callback m)). Qed.


Lemma only_safeOpOf {A} Q (operation : NetM A) :
  Q Close -> Q (Access (reconnectOptions P)) -> only Q operation ->
  only Q (safeOpOf v P operation).
Proof. intros. now apply only_safeOperationOf. Qed.






Lemma Only_removeFolder (Q : Call -> Prop) (n : string) :
  Q Close -> Q (Access (reconnectOptions P)) -> Q (RemoveDir (absoluteFolderPath P n)) ->
  Only Q (removeFolder X P (safeOpOf v P) n).
Proof.
  intros Hc Ha H. unfold removeFolder.
  apply Only_bind; [apply Only_onNet, only_log | intros _].
  apply Only_bind; [|intros _; apply Only_onNet, only_log].
  destruct (negb (dryRun P)); [|apply Only_ret].
  apply Only_bind; [|intros; apply Only_ret].
  apply Only_onNet, only_safeOpOf; [exact Hc | exact Ha|].
  now apply only_retryRequest, only_call.
Qed.



End Serving.

Section Segments.

Variable X : External.
Variable P : Provider.
Hypothesis callback : CallbackOnly X.









Hypothesis wet : dryRun P = false.









End Segments.










Lemma runOnce_CallbackOnly : CallbackOnly sampleExternal.
Proof.
  intros A callback. split.
  - intros s. exists []. now rewrite app_nil_r.
  - intros Q H. exact H.
Qed.


(** ** The folder delete *)

(** C9, as stated, fails: a root given as one dot is not normalised.  For
    the folder old under that root both versions ask the client to remove
    /.old, where the slash-rooted form of the root gives /old. *)
Lemma removeFolder_keeps_a_root_of_one_dot :
  let P := mkProvider "dist/" "." ".ftp-deploy-sync-state.json" false
                      "ftp.example.org" "deployer" "secret" in
  callsOf (emitted (Current.removeFolder sampleExternal P "old" (worldWith [])))
  = [RemoveDir "/.old"]
  /\ callsOf (emitted (Legacy.removeFolder sampleExternal P "old" (worldWith [])))
     = [RemoveDir "/.old"]
  /\ slashRooted (serverPath P) ++ "old" = "/old"
  /\ absoluteFolderPath P "old" <> slashRooted (serverPath P) ++ "old".
Proof. cbv zeta. repeat split. discriminate. Qed.

Lemma removeFolder_first_call (v : Version) (X : External) (P : Provider)
      (folderPath : string) (w : World) :
  CallbackOnly X -> dryRun P = false ->
  exists rest,
    callsOf (emitted (removeFolder X P (safeOpOf v P) folderPath w))
    = RemoveDir (absoluteFolderPath P folderPath) :: rest.
Proof.
  intros callback D. unfold removeFolder. rewrite D. cbn [negb].
  rewrite bind_run with (1 := eq_refl : onNet (log LAll ("removing folder " ++ Js.quote
                                                          ++ absoluteFolderPath P folderPath
                                                          ++ Js.quote)) w
                                        = mkRes (Returned tt) _ _).
  rewrite emitted_mkRes, callsOf_app. cbn [log emit emitted map callsOf flat_map app].
  match goal with
  | |- context [emitted (bind ?m ?k ?w1)] =>
      destruct (emitted_bind_prefix m k w1) as [t1 ->]
  end.
  match goal with
  | |- context [emitted (bind ?m ?k ?w1)] =>
      destruct (emitted_bind_prefix m k w1) as [t2 ->]
  end.
  unfold onNet. rewrite emitted_mkRes.
  match goal with
  | |- context [safeOpOf v P ?op ?s] =>
      assert (E : exists t3, emitted (safeOpOf v P op s) = (emitted (op s) ++ t3)%list)
  end.
  { unfold safeOpOf.
    destruct v; cbn [safeOperationOf];
      [unfold safeOperation | unfold Legacy.safeOperation];
      unfold defaultRetries; cbn [attempts]; apply emitted_tryCatch_prefix. }
  destruct E as [t3 ->].
  match goal with
  | |- context [retryRequest X ?cb ?s] =>
      destruct (proj1 (callback _ cb) s) as [t4 ->];
      assert (C : emitted (cb s) = [Called (RemoveDir (absoluteFolderPath P folderPath))])
        by (destruct s as [|[p|e] s0]; reflexivity);
      rewrite C
  end.
  rewrite !callsOf_app, !map_app, !callsOf_app. cbn [map callsOf flat_map app].
  eexists. reflexivity.
Qed.

(** C9, amended.  [removeFolder] asks for the recursive removal of one
    path, which always starts with a slash: the slash, the configured root
    with a leading dot-slash taken off (so a root given as ./ or
    ./relative/ counts from the slash) and any other root as it is written
    (a root of one dot among them), then the folder.  In every run of
    either version the calls are requests to remove that path and the
    calls of reconnects; unless the run is a dry run the request comes
    first, and a dry run makes no call.  What is asked of [retryRequest] is
    that it reaches the client through its callback only. *)
Theorem removeFolder_resolves_against_root :
  forall (v : Version) (X : External) (P : Provider) (folderPath : string) (w : World),
    CallbackOnly X ->
    let target := absoluteFolderPath P folderPath in
    let r := removeFolder X P (safeOpOf v P) folderPath w in
    Js.startsWith "/" target = true
    /\ (forall rest, serverPath P = "./" ++ rest -> target = "/" ++ rest ++ folderPath)
    /\ (Js.startsWith "./" (serverPath P) = false ->
        target = "/" ++ serverPath P ++ folderPath)
    /\ Forall (fun c => c = RemoveDir target \/ c = Close
                        \/ c = Access (reconnectOptions P)) (callsOf (emitted r))
    /\ (dryRun P = false -> exists rest, callsOf (emitted r) = RemoveDir target :: rest)
    /\ (dryRun P = true -> callsOf (emitted r) = []).
Proof.
  intros v X P folderPath w callback. cbv zeta. split; [|split; [|split; [|split; [|split]]]].
  - unfold absoluteFolderPath. cbn. now destruct (_ ++ folderPath).
  - intros rest E. unfold absoluteFolderPath.
    rewrite E, startsWith_dot_slash, replace_leading_dot_slash. reflexivity.
  - intros E. unfold absoluteFolderPath. now rewrite E.
  - apply (@Only_removeFolder X P v callback); auto.
  - intros D. now apply removeFolder_first_call.
  - intros D. unfold removeFolder. rewrite D. reflexivity.
Qed.

Lemma removeFolder_resolves_against_root_witness :
  absoluteFolderPath sampleProvider "old/img" = "/site/old/img"
  /\ (exists rest,
        callsOf (emitted (removeFolder sampleExternal sampleProvider
                            (safeOpOf TryAndWrite sampleProvider) "old/img"
                            (worldWith [Fail timedOut])))
        = RemoveDir "/site/old/img" :: rest)
  /\ callsOf (emitted (removeFolder sampleExternal sampleProvider
                         (safeOpOf TryAndWrite sampleProvider) "old/img"
                         (worldWith [Fail timedOut])))
     = [RemoveDir "/site/old/img"; RemoveDir "/site/old/img"].
Proof.
  destruct (@removeFolder_resolves_against_root TryAndWrite sampleExternal sampleProvider
              "old/img" (worldWith [Fail timedOut]) runOnce_CallbackOnly)
    as [_ [R [_ [_ [F _]]]]].
  split; [exact (R "site/" eq_refl) | split; [exact (F eq_refl) | reflexivity]].
Defined.

(* ================================================================= *)
(** * Further properties of the code *)

(** ** The parts of a path *)

Lemma split_slashFree (s : string) : slashFree s = true -> Js.split slash s = [s].
Proof.
  induction s as [|c s IH]; cbn [slashFree Js.split]; [reflexivity|].
  intros E. apply andb_prop in E. destruct E as [E1 E2].
  apply negb_true_iff in E1. rewrite E1, (IH E2). reflexivity.
Qed.

Lemma split_pieces_slashFree (s : string) : Forall (fun p => slashFree p = true) (Js.split slash s).
Proof.
  induction s as [|c s IH]; cbn [Js.split]; [now repeat constructor|].
  destruct (Ascii.eqb c slash) eqn:E; [now constructor|].
  pose proof (split_not_nil slash s) as N.
  destruct (Js.split slash s) as [|h t]; [contradiction|].
  inversion IH as [|? ? Hh Ht]; subst. constructor; [|exact Ht].
  cbn [slashFree]. now rewrite E, Hh.
Qed.

Lemma join_cons (x : string) (l : list string) :
  l <> [] -> Js.join "/" (x :: l) = x ++ String slash (Js.join "/" l).
Proof. destruct l; [contradiction | reflexivity]. Qed.

Lemma split_join (l : list string) :
  l <> [] -> forallb slashFree l = true -> Js.split slash (Js.join "/" l) = l.
Proof.
  induction l as [|x l IH]; [contradiction|]. intros _ F.
  cbn [forallb] in F. apply andb_prop in F. destruct F as [Fx Fl].
  destruct l as [|y l].
  - cbn [Js.join concat]. now apply split_slashFree.
  - rewrite join_cons by discriminate. rewrite split_app, (split_slashFree _ Fx).
    rewrite IH; [reflexivity | discriminate | exact Fl].
Qed.

Lemma filter_segments (l : list string) :
  forallb segment l = true -> filter Js.nonEmpty l = l /\ forallb slashFree l = true.
Proof.
  induction l as [|x l IH]; [now split|]. cbn [forallb filter]. intros F.
  apply andb_prop in F. destruct F as [Fx Fl]. unfold segment in Fx.
  apply andb_prop in Fx. destruct Fx as [N S]. destruct (IH Fl) as [I1 I2].
  now rewrite N, S, I1, I2.
Qed.

Lemma forallb_snoc {A} (f : A -> bool) (l : list A) (x : A) :
  forallb f (l ++ [x])%list = forallb f l && f x.
Proof. rewrite forallb_app. cbn. now rewrite andb_true_r. Qed.

(** X1. A path put together from folder names and a last name, none of
    which holds a slash, comes apart into the same names: the folders are
    the names before the last slash (none when there is no folder) and the
    file is the last name (none when it is empty, as in the path of a
    folder, which ends with a slash). *)
Theorem getFileBreadcrumbs_of_joined_path :
  forall (fs : list string) (f : string),
    forallb segment fs = true -> slashFree f = true ->
    getFileBreadcrumbs (Js.join "/" (fs ++ [f])%list)
    = mkFilePath (match fs with [] => None | _ => Some fs end)
                 (match f with EmptyString => None | _ => Some f end).
Proof.
  intros fs f F S. destruct (filter_segments fs F) as [N Ffree].
  unfold getFileBreadcrumbs. cbv zeta.
  rewrite split_join;
    [| now destruct fs | now rewrite forallb_snoc, Ffree, S].
  rewrite last_last, removelast_last, N. reflexivity.
Qed.

Lemma getFileBreadcrumbs_of_joined_path_witness :
  getFileBreadcrumbs "img/icons/logo.png" = mkFilePath (Some ["img"; "icons"]) (Some "logo.png")
  /\ getFileBreadcrumbs "img/icons/" = mkFilePath (Some ["img"; "icons"]) None
  /\ getFileBreadcrumbs "index.html" = mkFilePath None (Some "index.html").
Proof.
  split; [|split].
  - exact (getFileBreadcrumbs_of_joined_path ["img"; "icons"] "logo.png" eq_refl eq_refl).
  - exact (getFileBreadcrumbs_of_joined_path ["img"; "icons"] EmptyString eq_refl eq_refl).
  - exact (getFileBreadcrumbs_of_joined_path [] "index.html" eq_refl eq_refl).
Defined.

Lemma removelast_app_cons {A} (l l' : list A) (x : A) :
  removelast (l ++ x :: l')%list = (l ++ removelast (x :: l'))%list.
Proof. apply removelast_app. discriminate. Qed.

Lemma last_app_cons {A} (l l' : list A) (x d : A) :
  last (l ++ x :: l')%list d = last (x :: l') d.
Proof.
  induction l as [|y l IH]; [reflexivity|].
  cbn [app]. rewrite <- IH. cbn [last]. destruct (l ++ x :: l')%list eqn:E; [|reflexivity].
  now destruct l.
Qed.

(** X2. Empty names in a path count for nothing: a path that starts with a
    slash comes apart like the path without it, and a doubled slash like a
    single one. *)
Theorem getFileBreadcrumbs_skips_empty_names :
  (forall p, getFileBreadcrumbs ("/" ++ p) = getFileBreadcrumbs p)
  /\ (forall a b, getFileBreadcrumbs (a ++ "//" ++ b) = getFileBreadcrumbs (a ++ "/" ++ b)).
Proof.
  split.
  - intros p. unfold getFileBreadcrumbs. cbv zeta.
    change ("/" ++ p) with (EmptyString ++ String slash p). rewrite split_app.
    pose proof (split_not_nil slash p) as N.
    destruct (Js.split slash p) as [|h t] eqn:E; [contradiction|].
    change (Js.split slash EmptyString ++ h :: t)%list with ([EmptyString] ++ h :: t)%list.
    rewrite last_app_cons, removelast_app_cons. reflexivity.
  - intros a b. unfold getFileBreadcrumbs. cbv zeta.
    change (a ++ "//" ++ b) with (a ++ String slash (EmptyString ++ String slash b)).
    change (a ++ "/" ++ b) with (a ++ String slash b).
    rewrite !split_app.
    pose proof (split_not_nil slash b) as N.
    destruct (Js.split slash b) as [|h t] eqn:E; [contradiction|].
    change (Js.split slash EmptyString ++ h :: t)%list with (EmptyString :: h :: t).
    rewrite !last_app_cons, !removelast_app_cons.
    change (removelast (EmptyString :: h :: t)) with (EmptyString :: removelast (h :: t)).
    rewrite !filter_app. reflexivity.
Qed.

Lemma Forall_removelast {A} (Q : A -> Prop) (l : list A) :
  Forall Q l -> Forall Q (removelast l).
Proof.
  induction 1 as [|x l Hx Hl IH]; [constructor|].
  cbn [removelast]. destruct l; [constructor | now constructor].
Qed.

Lemma Forall_last {A} (Q : A -> Prop) (l : list A) (d : A) :
  Q d -> Forall Q l -> Q (last l d).
Proof.
  intros Hd. induction 1 as [|x l Hx Hl IH]; [exact Hd|].
  cbn [last]. now destruct l.
Qed.

(** X3. What [getFileBreadcrumbs] answers is well formed, whatever the
    path: the list of folders is never empty (it is absent instead), no
    folder is the empty name, and neither a folder nor the file holds a
    slash; the file is never the empty name. *)
Theorem getFileBreadcrumbs_well_formed :
  forall (p : string),
    (forall fs, folders (getFileBreadcrumbs p) = Some fs ->
                fs <> [] /\ forallb segment fs = true)
    /\ (forall f, file (getFileBreadcrumbs p) = Some f -> segment f = true).
Proof.
  intros p. unfold getFileBreadcrumbs. cbv zeta. cbn [folders file].
  pose proof (split_pieces_slashFree p) as F. split.
  - intros fs E.
    assert (E' : fs = filter Js.nonEmpty (removelast (Js.split slash p)))
      by (destruct (filter _ _); [discriminate | congruence]).
    split; [rewrite E' in *; destruct (filter _ _); [discriminate | discriminate]|].
    rewrite E'. apply forallb_forall. intros x I. apply filter_In in I.
    destruct I as [I N]. unfold segment. rewrite N.
    apply Forall_removelast in F. rewrite Forall_forall in F. now rewrite (F x I).
  - intros f E.
    assert (S : slashFree (last (Js.split slash p) EmptyString) = true)
      by (apply (@Forall_last _ (fun q => slashFree q = true)); [reflexivity | exact F]).
    destruct (last (Js.split slash p) EmptyString) as [|c rest] eqn:L; [discriminate|].
    injection E as <-. unfold segment. now rewrite S.
Qed.

Lemma getFileBreadcrumbs_well_formed_witness :
  ["img"; "icons"] <> [] /\ forallb segment ["img"; "icons"] = true.
Proof.
  exact (proj1 (getFileBreadcrumbs_well_formed "//img///icons/logo.png")
               ["img"; "icons"] eq_refl).
Defined.

(** ** The keep-alive probe *)

(** X4. [sendNoopIfNeeded] never fails.  It sends the probe when more than
    5000 ms have passed since the last one that was answered, or when it is
    forced, and sends nothing else; the time of the last probe moves to the
    reading of the clock only when the server answered the probe, so a probe
    that failed is due again at the next call.  The disk and the state of
    the provider are left alone. *)
Theorem sendNoopIfNeeded_swallows_faults :
  forall (force : bool) (w : World),
    let t := match ticks w with [] => 0%Z | t :: _ => t end in
    let due := (5000 <? t - lastNoopTime w)%Z || force in
    let r := sendNoopIfNeeded force w in
    out r = Returned tt
    /\ callsOf (emitted r) = (if due then [Send "NOOP"] else [])
    /\ lastNoopTime (final r)
       = (if due
          then match script w with Fail _ :: _ => lastNoopTime w | _ => t end
          else lastNoopTime w)
    /\ disk (final r) = disk w
    /\ state (final r) = state w.
Proof.
  intros force [s d tk last st]. cbv zeta. cbn [ticks lastNoopTime script disk state].
  unfold sendNoopIfNeeded, bind, now, gets.
  destruct tk as [|t tk]; cbn [ticks out final emitted lastNoopTime setTicks];
    match goal with
    | |- context [(?b || force)] => destruct (b || force)
    end;
    try (destruct s as [|[p|[m c|sh]] rest]); repeat split.
Qed.

Lemma sendNoopIfNeeded_swallows_faults_witness :
  callsOf (emitted (sendNoopIfNeeded false (mkWorld [] [] [5000%Z] 0 freshState))) = []
  /\ callsOf (emitted (sendNoopIfNeeded false (mkWorld [] [] [5001%Z] 0 freshState)))
     = [Send "NOOP"]
  /\ lastNoopTime (final (sendNoopIfNeeded false
                            (mkWorld [Fail timedOut] [] [5001%Z] 0 freshState))) = 0%Z.
Proof.
  split; [|split].
  - exact (proj1 (proj2 (sendNoopIfNeeded_swallows_faults false
                           (mkWorld [] [] [5000%Z] 0 freshState)))).
  - exact (proj1 (proj2 (sendNoopIfNeeded_swallows_faults false
                           (mkWorld [] [] [5001%Z] 0 freshState)))).
  - exact (proj1 (proj2 (proj2 (sendNoopIfNeeded_swallows_faults false
                                  (mkWorld [Fail timedOut] [] [5001%Z] 0 freshState))))).
Defined.

(** ** The budget of the retry wrapper *)

Lemma netCalls_reconnect_session (P : Provider) (s : Net) :
  operationCalls (emitted (reconnect P s)) = [].
Proof. unfold operationCalls. now rewrite reconnect_calls. Qed.

Lemma operationCalls_app l l' :
  operationCalls (l ++ l') = (operationCalls l ++ operationCalls l')%list.
Proof. unfold operationCalls. now rewrite netCalls_app, filter_app. Qed.

Lemma catchBlockOf_session_only (v : Version) (P : Provider) retries attempt e s :
  operationCalls (emitted (catchBlockOf v P retries attempt e s)) = [].
Proof.
  destruct v; cbn [catchBlockOf].
  - unfold onFailure. generalize (Nat.ltb attempt (retries - 1)). intros retrying.
    destruct e as [message code|shown].
    + destruct (connectionDropped message).
      * unfold reconnect.
        destruct s as [|[p|e] [|[p'|e'] rest]]; destruct retrying; reflexivity.
      * destruct retrying; reflexivity.
    + destruct retrying; reflexivity.
  - unfold Legacy.onFailure. generalize (Nat.ltb attempt (retries - 1)). intros retrying.
    destruct e as [message code|shown].
    + destruct (Js.includes "Client is closed" message).
      * unfold reconnect.
        destruct s as [|[p|e] [|[p'|e'] rest]]; destruct retrying; reflexivity.
      * destruct retrying; reflexivity.
    + destruct retrying; reflexivity.
Qed.

Lemma operationCalls_call (c : Call) (s : Net) :
  sessionCall c = false -> operationCalls (emitted (call c s)) = [c].
Proof.
  intros H. unfold operationCalls.
  destruct s as [|[p|e] rest]; cbn [call emitted netCalls flat_map app filter];
    now rewrite H.
Qed.

Lemma attempts_bounded (v : Version) (P : Provider) (c : Call) (retries : nat) :
  sessionCall c = false ->
  forall remaining attempt last s,
    exists k,
      operationCalls (emitted (attempts (catchBlockOf v P) (call c) retries remaining
                                        attempt last s))
      = repeat c k
      /\ k <= remaining
      /\ (0 < remaining -> 0 < k).
Proof.
  intros Hc. induction remaining as [|n IH]; intros attempt last s.
  - exists 0. repeat split; [lia | lia].
  - cbn [attempts]. unfold tryCatch.
    pose proof (@operationCalls_call c s Hc) as C.
    destruct (out (call c s)) as [a|e] eqn:O.
    + exists 1. rewrite C. repeat split; lia.
    + cbn [emitted]. unfold bind.
      pose proof (catchBlockOf_session_only v P retries attempt e (final (call c s))) as B.
      destruct (out (catchBlockOf v P retries attempt e (final (call c s)))) as [l|e'].
      * destruct (IH (attempt + 1) (Some l)
                     (final (catchBlockOf v P retries attempt e (final (call c s)))))
          as [k [E [L _]]].
        exists (S k). cbn [emitted]. rewrite !operationCalls_app, C, B, E.
        repeat split; lia.
      * exists 1. cbn [emitted]. rewrite !operationCalls_app, C, B.
        repeat split; lia.
Qed.

(** X5. The budget of [safeOperation] bounds the attempts.  For a call of
    the client other than the two of the reconnect, whatever the server
    answers: the call is issued at least once when the budget is positive
    and never more often than the budget allows, and no other call is made
    but those of the reconnects.  With a budget of zero the operation is
    not run at all, and the error names zero attempts and no fault.  Both
    versions of the provider. *)
Theorem safeOperation_attempts_within_budget :
  forall (v : Version) (P : Provider) (c : Call) (retries : nat) (s : Net),
    (sessionCall c = false ->
     exists k,
       operationCalls (emitted (safeOperationOf v P (call c) retries s)) = repeat c k
       /\ k <= retries
       /\ (0 < retries -> 0 < k))
    /\ (retries = 0 ->
        safeOperationOf v P (call c) retries s
        = mkRes (Threw (JsError "Operation failed after 0 attempts: undefined" None)) [] s).
Proof.
  intros v P c retries s.
  assert (E : safeOperationOf v P (call c) retries s
              = attempts (catchBlockOf v P) (call c) retries retries 0 None s)
    by now destruct v.
  rewrite E. split.
  - intros Hc. now apply attempts_bounded.
  - intros ->. reflexivity.
Qed.

Lemma safeOperation_attempts_within_budget_witness :
  operationCalls (emitted (safeOperation sampleProvider uploadA 3
                             [Fail clientClosed; Ok NoData; Ok NoData;
                              Fail timedOut; Fail timedOut; Ok NoData]))
  = [UploadFrom "dist/a.txt" "a.txt"; UploadFrom "dist/a.txt" "a.txt";
     UploadFrom "dist/a.txt" "a.txt"].
Proof.
  destruct (proj1 (safeOperation_attempts_within_budget PeriodicFlush sampleProvider
                     (UploadFrom "dist/a.txt" "a.txt") 3
                     [Fail clientClosed; Ok NoData; Ok NoData;
                      Fail timedOut; Fail timedOut; Ok NoData]) eq_refl)
    as [k [E _]].
  reflexivity.
Defined.

(** X6. The older version of the provider knows one signature of a dropped
    connection.  A fault whose message does not hold the words Client is
    closed, the FIN packet of the server among them, is recorded and the
    next attempt runs on the session as it is: no call, no new client, no
    reply consumed.  A fault that holds them forces the reconnect. *)
Theorem Legacy_onFailure_reconnects_on_closed_client_only :
  forall (P : Provider) (retries attempt : nat) (message : string) (code : option Z)
         (s : Net),
    let r := Legacy.onFailure P retries attempt (JsError message code) s in
    (Js.includes "Client is closed" message = false ->
     out r = Returned (JsError message code)
     /\ sessionSteps (emitted r) = []
     /\ final r = s)
    /\ (Js.includes "Client is closed" message = true ->
        sessionSteps (emitted r)
        = [Called Close; NewClient; Called (Access (reconnectOptions P))]).
Proof.
  intros P retries attempt message code s. cbv zeta. unfold Legacy.onFailure.
  generalize (Nat.ltb attempt (retries - 1)). intros retrying. split; intros I; rewrite I.
  - destruct retrying; repeat split.
  - unfold reconnect.
    destruct s as [|[p|e] [|[p'|e'] rest]]; destruct retrying; reflexivity.
Qed.

Lemma Legacy_onFailure_reconnects_on_closed_client_only_witness :
  sessionSteps (emitted (Legacy.onFailure sampleProvider 3 0 finPacket [])) = []
  /\ sessionSteps (emitted (onFailure sampleProvider 3 0 finPacket []))
     = [Called Close; NewClient; Called (Access (reconnectOptions sampleProvider))].
Proof.
  split.
  - exact (proj1 (proj2 (proj1 (Legacy_onFailure_reconnects_on_closed_client_only
                                  sampleProvider 3 0
                                  "Server sent FIN packet unexpectedly, closing connection."
                                  None []) eq_refl))).
  - reflexivity.
Defined.

(** ** The reconnect and the first connection *)

(** X7. In [reconnect] a fault of the close is logged and ignored: the new
    client is created and logs in whatever the close did.  A fault of the
    login is not caught: [reconnect] ends as the login ends.  The login is
    tried once. *)
Theorem reconnect_ends_as_the_login :
  forall (P : Provider) (closing login : Reply) (rest : Net),
    let r := reconnect P (closing :: login :: rest) in
    sessionSteps (emitted r)
    = [Called Close; NewClient; Called (Access (reconnectOptions P))]
    /\ final r = rest
    /\ out r = match login with Ok _ => Returned tt | Fail e => Threw e end.
Proof.
  intros P [p|e] [p'|e'] rest; repeat split.
Qed.

(** X8. [connect] tries the login once.  When the server refuses it, the
    fault is logged and thrown again as it is, and the progress of the
    transfers is not tracked; when the server accepts, [connect] returns
    and the progress is tracked exactly when the log level is verbose. *)
Theorem connect_rethrows_the_fault_of_the_login :
  forall (args : Args) (login : Reply) (rest : Net),
    let r := connect args (login :: rest) in
    final r = rest
    /\ out r = match login with Ok _ => Returned tt | Fail e => Threw e end
    /\ netCalls (emitted r) = [Access (connectOptions args)]
    /\ (In TrackProgress (emitted r)
        <-> isVerbose (logLevel args) = true /\ exists p, login = Ok p)
    /\ (forall e, login = Fail e ->
        In (Logged LVerbose ("Connection error: " ++ messageOf e)) (emitted r)).
Proof.
  intros args login rest. cbv zeta. unfold connect.
  destruct login as [p|e]; destruct (logLevel args);
    cbn [isVerbose when bind tryCatch call log emit ret throw out emitted final app
         netCalls flat_map];
    (split; [reflexivity | split; [reflexivity | split; [reflexivity | split]]];
     [ split;
       [ intros I; cbn [In] in I;
         repeat (destruct I as [I|I]; try discriminate I); try contradiction;
         (split; [reflexivity | now eexists])
       | intros [V [p' E]]; try discriminate V; try discriminate E;
         cbn [In]; auto 10 ]
     | intros e' E; try discriminate E; injection E as <-; cbn [In]; auto 10 ]).
Qed.

(** ** The state the provider starts from *)

Lemma construct_parsed (P : Provider) (w : World) (content : FileData) (m : IFileList) :
  readFile (stateFilePath P) (disk w) = Some content ->
  JSON_parse content = Returned m ->
  out (Current.construct P w) = Returned tt
  /\ state (final (Current.construct P w)) = m
  /\ callsOf (emitted (Current.construct P w)) = []
  /\ writesOf (emitted (Current.construct P w)) = []
  /\ disk (final (Current.construct P w)) = disk w.
Proof.
  unfold stateFilePath. intros R J. destruct w as [s d tk last st]. cbn [disk] in R.
  unfold Current.construct, bind, now, gets, modify.
  destruct tk as [|t tk]; cbn [ticks out final emitted disk setTicks setLastNoopTime];
    rewrite R, J; repeat split.
Qed.

(** X9. The constructor of the provider reads back what [createLocalState]
    wrote: both form the path of the local state file from the local
    directory and the state name, so a provider constructed after the list
    was written starts from that list.  The constructor calls the client
    for nothing and writes no file. *)
Theorem construct_loads_what_createLocalState_wrote :
  forall (P : Provider) (m : IFileList) (w : World),
    let w1 := final (createLocalState m (localPath P) (stateName P) w) in
    let r := Current.construct P w1 in
    out r = Returned tt
    /\ state (final r) = m
    /\ callsOf (emitted r) = []
    /\ writesOf (emitted r) = [].
Proof.
  intros P m w. cbv zeta.
  assert (R : readFile (stateFilePath P)
                (disk (final (createLocalState m (localPath P) (stateName P) w)))
              = Some (StateJson m)).
  { unfold stateFilePath. cbn. now rewrite String.eqb_refl. }
  destruct (construct_parsed P _ R eq_refl) as [H1 [H2 [H3 [H4 _]]]].
  now repeat split.
Qed.

(** X10. The constructor of the provider without a usable state file.
    When the local state file does not exist the provider starts from an
    empty state whose description and version are the two literals of the
    constructor (not the constants of the types module) and whose time is
    the reading of the clock.  When the file exists and does not parse, the
    constructor throws what [JSON.parse] throws, and the state is not
    assigned.  In both cases no call is made and no file is written. *)
Theorem construct_without_usable_state_file :
  forall (P : Provider) (w : World),
    let r := Current.construct P w in
    (readFile (stateFilePath P) (disk w) = None ->
     out r = Returned tt
     /\ (exists t, state (final r) = mkFileList "Sync state file" "1.0.0" t [])
     /\ callsOf (emitted r) = [] /\ writesOf (emitted r) = [])
    /\ (forall content e,
        readFile (stateFilePath P) (disk w) = Some content ->
        JSON_parse content = Threw e ->
        out r = Threw e
        /\ state (final r) = state w
        /\ callsOf (emitted r) = [] /\ writesOf (emitted r) = []).
Proof.
  intros P [s d tk last st]. cbv zeta. unfold stateFilePath. cbn [disk state].
  unfold Current.construct, bind, now, gets, modify. split.
  - intros R.
    destruct tk as [|t [|t' tk]];
      cbn [ticks out final emitted disk setTicks setLastNoopTime];
      rewrite R; cbn; repeat split; eexists; reflexivity.
  - intros content e R J.
    destruct tk as [|t tk]; cbn [ticks out final emitted disk setTicks setLastNoopTime];
      rewrite R, J; repeat split.
Qed.

Lemma construct_without_usable_state_file_witness :
  out (Current.construct sampleProvider (worldWith [])) = Returned tt
  /\ out (Current.construct sampleProvider
            (mkWorld [] [(stateFilePath sampleProvider, Text "{ oops")] [] 0 freshState))
     = Threw (JsError "Unexpected token in JSON" None).
Proof.
  split.
  - exact (proj1 (proj1 (construct_without_usable_state_file sampleProvider (worldWith []))
                        eq_refl)).
  - exact (proj1 (proj2 (construct_without_usable_state_file sampleProvider
                           (mkWorld [] [(stateFilePath sampleProvider, Text "{ oops")]
                                    [] 0 freshState))
                        (Text "{ oops") _ eq_refl eq_refl)).
Defined.

(** ** The state file on the server *)

Lemma some_name (sn : string) (l : list string) :
  existsb (fun file => String.eqb file sn) l = true <-> In sn l.
Proof.
  rewrite existsb_exists. split.
  - intros [x [I E]]. apply String.eqb_eq in E. now subst.
  - intros I. exists sn. now rewrite String.eqb_refl.
Qed.

Lemma no_such_name (sn : string) (l : list string) :
  ~ In sn l -> existsb (fun file => String.eqb file sn) l = false.
Proof.
  intros N. destruct (existsb _ l) eqn:E; [|reflexivity].
  apply some_name in E. contradiction.
Qed.

Lemma ensureStateFileExists_run :
  forall (X : External) (lp sp sn : string) (w : World) (listing : Reply) (rest : Net),
    script w = listing :: rest ->
    let r := ensureStateFileExists X lp sp sn w in
    (forall e, listing = Fail e ->
       out r = Threw e /\ callsOf (emitted r) = [ListDir sp] /\ writesOf (emitted r) = []
       /\ disk (final r) = disk w)
    /\ (forall p, listing = Ok p -> In sn (listed p) ->
       out r = Returned tt /\ callsOf (emitted r) = [ListDir sp]
       /\ writesOf (emitted r) = [] /\ disk (final r) = disk w)
    /\ (forall p, listing = Ok p -> ~ In sn (listed p) ->
       callsOf (emitted r) = [ListDir sp; UploadFrom (lp ++ sn) (sp ++ sn)]
       /\ (exists t,
            writesOf (emitted r) = [((lp ++ sn)%string, StateJson (emptyState X t))]
            /\ readFile (lp ++ sn) (disk (final r)) = Some (StateJson (emptyState X t)))
       /\ out r = match rest with Fail e :: _ => Threw e | _ => Returned tt end).
Proof.
  intros X lp sp sn [s d tk last st] listing rest S. cbn [script] in S. subst s. cbv zeta.
  unfold ensureStateFileExists. cbv zeta.
  generalize ("Ensuring state file " ++ Js.quote ++ (sp ++ sn) ++ Js.quote
              ++ " exists on the server.").
  generalize ("State file " ++ Js.quote ++ (sp ++ sn) ++ Js.quote
              ++ " does not exist. Creating it...").
  generalize ("State file " ++ Js.quote ++ (sp ++ sn) ++ Js.quote
              ++ " has been created on the server.").
  generalize ("State file " ++ Js.quote ++ (sp ++ sn) ++ Js.quote ++ " already exists.").
  intros m1 m2 m3 m4.
  erewrite bind_run by reflexivity.
  cbn [script disk ticks lastNoopTime state setScript out emitted final log emit].
  split; [|split].
  - intros e ->. repeat split.
  - intros p -> I. apply some_name in I.
    erewrite tryCatch_run_returned;
      [| erewrite bind_run by reflexivity; cbv beta zeta; rewrite I; reflexivity ].
    repeat split.
  - intros p -> N. apply no_such_name in N.
    destruct tk as [|t tk], rest as [|[p'|e'] rest].
    all: first
      [ erewrite tryCatch_run_returned;
        [| erewrite bind_run by reflexivity; cbv beta zeta; rewrite N; reflexivity ]
      | erewrite tryCatch_run_threw;
        [| erewrite bind_run by reflexivity; cbv beta zeta; rewrite N; reflexivity ] ].
    all: cbn [negb];
      cbn [bind onNet log emit call now createLocalState writeFileSync throw ret
           out emitted final script disk ticks lastNoopTime state
           setScript setTicks setDisk map app callsOf writesOf flat_map readFile];
      rewrite ?String.eqb_refl;
      (split; [reflexivity | split; [eexists; split; reflexivity | reflexivity]]).
Qed.

(** X11. [ensureStateFileExists] lists the server directory once.  When
    the listing fails, the fault is thrown again and nothing is written.
    When the listing names the state file, nothing else is done.  When it
    does not, the local state file is overwritten with the empty state and
    that file is uploaded to the server path of the state file, in one
    attempt whose fault, if any, is thrown again after the local file has
    been overwritten.  The function has no dry-run switch. *)
Theorem ensureStateFileExists_creates_the_missing_file :
  forall (X : External) (lp sp sn : string) (w : World) (listing : Reply) (rest : Net),
    script w = listing :: rest ->
    let r := ensureStateFileExists X lp sp sn w in
    (forall e, listing = Fail e ->
       out r = Threw e /\ callsOf (emitted r) = [ListDir sp] /\ writesOf (emitted r) = []
       /\ disk (final r) = disk w)
    /\ (forall p, listing = Ok p -> In sn (listed p) ->
       out r = Returned tt /\ callsOf (emitted r) = [ListDir sp]
       /\ writesOf (emitted r) = [] /\ disk (final r) = disk w)
    /\ (forall p, listing = Ok p -> ~ In sn (listed p) ->
       callsOf (emitted r) = [ListDir sp; UploadFrom (lp ++ sn) (sp ++ sn)]
       /\ (exists t,
            writesOf (emitted r) = [((lp ++ sn)%string, StateJson (emptyState X t))]
            /\ readFile (lp ++ sn) (disk (final r)) = Some (StateJson (emptyState X t)))
       /\ out r = match rest with Fail e :: _ => Threw e | _ => Returned tt end).
Proof. exact ensureStateFileExists_run. Qed.


Lemma ensureStateFileExists_creates_the_missing_file_witness :
  callsOf (emitted (ensureStateFileExists sampleExternal "dist/" "./site/" "state.json"
                      (worldWith [Ok (Names ["index.html"; "img"])])))
  = [ListDir "./site/"; UploadFrom "dist/state.json" "./site/state.json"]
  /\ callsOf (emitted (ensureStateFileExists sampleExternal "dist/" "./site/" "state.json"
                         (worldWith [Ok (Names ["index.html"; "state.json"])])))
     = [ListDir "./site/"].
Proof.
  split.
  - refine (proj1 (proj2 (proj2 (@ensureStateFileExists_creates_the_missing_file
              sampleExternal "dist/" "./site/" "state.json"
              (worldWith [Ok (Names ["index.html"; "img"])]) _ _ eq_refl))
              (Names ["index.html"; "img"]) eq_refl _)).
    cbn. intros [E|[E|[]]]; discriminate E.
  - refine (proj1 (proj2 (proj1 (proj2 (@ensureStateFileExists_creates_the_missing_file
              sampleExternal "dist/" "./site/" "state.json"
              (worldWith [Ok (Names ["index.html"; "state.json"])]) _ _ eq_refl))
              (Names ["index.html"; "state.json"]) eq_refl _))).
    cbn. auto.
Defined.

(** X12. What the provider starts from in [deploy].  [deploy] writes the
    list of the local files to the local state file, then
    [ensureStateFileExists] runs, then the provider is constructed.  When
    the server directory holds a state file the provider starts from the
    list of the local files; when it holds none, the local state file has
    been overwritten meanwhile and the provider starts from the empty
    state, whether or not the upload of that file succeeded. *)
Theorem provider_starts_from_the_local_state_file :
  forall (X : External) (args : Args) (localFiles : IFileList) (w : World)
         (p : Payload) (rest : Net),
    script w = Ok p :: rest ->
    let w1 := final (createLocalState localFiles (localDir args) (argStateName args) w) in
    let w2 := final (ensureStateFileExists X (localDir args) (serverDir args)
                       (argStateName args) w1) in
    let r := Current.construct (providerOf args) w2 in
    (In (argStateName args) (listed p) ->
     out r = Returned tt /\ state (final r) = localFiles)
    /\ (~ In (argStateName args) (listed p) ->
        out r = Returned tt /\ exists t, state (final r) = emptyState X t).
Proof.
  intros X args localFiles w p rest S. cbv zeta.
  set (w1 := final (createLocalState localFiles (localDir args) (argStateName args) w)).
  assert (S1 : script w1 = Ok p :: rest) by exact S.
  assert (R1 : readFile (localDir args ++ argStateName args) (disk w1)
               = Some (StateJson localFiles))
    by (cbn; now rewrite String.eqb_refl).
  destruct (@ensureStateFileExists_run X (localDir args) (serverDir args)
              (argStateName args) w1 _ _ S1) as [_ [Present Missing]].
  split.
  - intros I. destruct (Present p eq_refl I) as [_ [_ [_ D]]].
    assert (R : readFile (stateFilePath (providerOf args))
                  (disk (final (ensureStateFileExists X (localDir args) (serverDir args)
                                  (argStateName args) w1)))
                = Some (StateJson localFiles))
      by (rewrite D; exact R1).
    destruct (construct_parsed (providerOf args) _ R eq_refl) as [H1 [H2 _]].
    now split.
  - intros N. destruct (Missing p eq_refl N) as [_ [[t [_ R]] _]].
    destruct (construct_parsed (providerOf args) _ R eq_refl) as [H1 [H2 _]].
    split; [exact H1 | now exists t].
Qed.

Lemma provider_starts_from_the_local_state_file_witness :
  data (state (final (Current.construct (providerOf sampleArgs)
         (final (ensureStateFileExists sampleExternal "dist/" "./site/"
                   ".ftp-deploy-sync-state.json"
                   (final (createLocalState sampleLocalFiles "dist/"
                             ".ftp-deploy-sync-state.json"
                             (worldWith [Ok (Names ["index.html"])])))))))) = [].
Proof.
  destruct (proj2 (@provider_starts_from_the_local_state_file sampleExternal sampleArgs
                     sampleLocalFiles (worldWith [Ok (Names ["index.html"])])
                     (Names ["index.html"]) [] eq_refl)) as [_ [t E]].
  { cbn. intros [E|[]]. discriminate E. }
  reflexivity.
Defined.

(** ** What the plan holds *)











(** ** What a run adds to the state of the provider *)

Lemma Halted_bind {A} (m : ProgM A) (k : A -> ProgM unit) (e : Entry) :
  (forall w, Untouched (m w) w) -> (forall a w, Halted e (k a w) w) ->
  forall w, Halted e (bind m k w) w.
Proof.
  intros Hm Hk w. destruct (Hm w) as [W [D S]]. unfold bind.
  destruct (out (m w)) as [a|err].
  - destruct (Hk a (final (m w))) as [[err T] [W' [D' S']]].
    unfold Halted. cbn [out emitted final].
    rewrite writesOf_app, W, W', D', D, <- S. repeat split; try assumption.
    now exists err.
  - unfold Halted. cbn [out emitted final]. repeat split; try assumption.
    + now exists err.
    + now left.
Qed.

Lemma Halted_first {A} (m : ProgM unit) (k : unit -> ProgM A) (e : Entry) w :
  Halted e (m w) w ->
  (exists err, out (bind m k w) = Threw err)
  /\ emitted (bind m k w) = emitted (m w)
  /\ final (bind m k w) = final (m w).
Proof.
  intros [[err T] _]. rewrite (bind_threw _ _ _ T). cbn [out emitted final].
  repeat split. now exists err.
Qed.

Section Growth.

Variable X : External.
Variable P : Provider.
Hypothesis wet : dryRun P = false.

(** A folder creation that is not a dry run never returns: a fault of
    the way into the folder or back ends it with nothing recorded, and
    otherwise the call after the entry is appended does. *)
Lemma createFolder_halts n w :
  Halted (mkEntry TFolder n None None) (Current.createFolder X P n w) w.
Proof.
  unfold Current.createFolder. rewrite wet. cbv zeta.
  apply Halted_bind; [intros; untouched|]. intros [] w1.
  apply Halted_bind; [intros; untouched|]. intros [] w2.
  apply Halted_bind; [intros; destruct (folders _); untouched|]. intros [] w3.
  apply Halted_bind; [intros; untouched|]. intros [] w4.
  apply Halted_bind; [intros; untouched|]. intros [] w5.
  rewrite createFolder_tail. unfold Halted. cbn [out emitted final].
  repeat split.
  - now eexists.
  - now right.
Qed.

Lemma applyOp_halts n c w :
  let r := applyOp X P (CreateFolder n) c w in
  (exists err, out r = Threw err)
  /\ writesOf (emitted r) = []
  /\ disk (final r) = disk w
  /\ (state (final r) = state w
      \/ state (final r) = Current.pushEntry (mkEntry TFolder n None None) (state w)).
Proof.
  cbv zeta. unfold applyOp.
  rewrite bind_run with (1 := eq_refl : onNet (log LStandard (announcement (CreateFolder n))) w
                                        = mkRes (Returned tt) _ _).
  set (w1 := setScript (final (log LStandard (announcement (CreateFolder n)) (script w))) w).
  pose proof (createFolder_halts n w1) as H.
  destruct (@Halted_first nat _ (fun _ => Current.counted P c) _ _ H) as [T [E F]].
  destruct H as [_ [W [D S]]].
  cbn [out emitted final perform]. rewrite E, F, writesOf_app, W.
  repeat split; assumption.
Qed.

End Growth.

(** X15. What a run of [syncLocalToServer] of the version with the periodic
    flush leaves behind.  Whatever the server answers and however the run
    ends, it writes no file and leaves the disk as it was.  The state of the
    provider is left as it was too, unless the run is not a dry run and the
    change set has a folder to create: that run ends in the first folder
    creation, without returning, with at most the entry of that one folder
    appended to the state.  A run that returns has recorded nothing: the
    files it uploaded or replaced are not added to the state and what it
    deleted is not taken out. *)
Theorem syncLocalToServer_records_nothing_it_applied :
  forall (X : External) (P : Provider) (diffs : DiffResult) (w : World),
    let r := Current.syncLocalToServer X P diffs w in
    writesOf (emitted r) = []
    /\ disk (final r) = disk w
    /\ (state (final r) = state w
        \/ exists f rest,
            dryRun P = false
            /\ filter isFolder (upload diffs) = f :: rest
            /\ state (final r)
               = Current.pushEntry (mkEntry TFolder (name f) None None) (state w))
    /\ (dryRun P = false -> filter isFolder (upload diffs) <> [] ->
        exists e, out r = Threw e)
    /\ (out r = Returned tt -> state (final r) = state w).
Proof.
  intros X P diffs w. cbv zeta.
  destruct (dryRun P) eqn:D.
  { destruct (@Dry_syncLocalToServer X P D diffs w) as [_ [_ [W [Dk [S _]]]]].
    repeat split; try assumption;
      [now left | intros D'; discriminate D' | intros _; assumption]. }
  destruct (filter isFolder (upload diffs)) as [|f rest] eqn:F.
  { destruct (@Untouched_sync_without_folders X P diffs w F) as [W [Dk S]].
    repeat split; try assumption;
      [now left | intros _ N; now elim N | intros _; assumption]. }
  assert (Pl : exists ops, plan P diffs = CreateFolder (name f) :: ops).
  { unfold plan, foldersToCreate. rewrite F. cbn [map app]. now eexists. }
  destruct Pl as [ops Pl].
  rewrite (syncLocalToServer_normal_form X P diffs w), Pl.
  rewrite (bind_returned _ _ _ (announceSync_returns X diffs w)).
  assert (U : Untouched (announceSync X diffs w) w)
    by (unfold announceSync; cbv zeta; untouched).
  destruct U as [W0 [D0 S0]].
  set (w1 := final (announceSync X diffs w)) in *.
  destruct (@applyOp_halts X P D (name f) 0 w1) as [[err T] [W1 [D1 S1]]].
  cbv zeta in T, W1, D1, S1.
  unfold applyAll. cbn [forEachWith].
  assert (T1 : out ((c' <- applyOp X P (CreateFolder (name f)) 0 ;;
                     forEachWith ops c' (applyOp X P)) w1) = Threw err)
    by now rewrite (out_bind_threw _ _ _ T).
  rewrite (bind_threw _ _ _ T1), (bind_threw _ _ _ T).
  rewrite ?out_mkRes, ?emitted_mkRes, ?final_mkRes.
  rewrite writesOf_app, W0, W1, D1, D0.
  repeat split.
  - destruct S1 as [S1|S1]; [left; now rewrite S1 | right].
    exists f, rest. repeat split. now rewrite S1, S0.
  - intros _ _. now exists err.
  - discriminate.
Qed.

(** ** The buffer file of the download *)

Lemma readFile_unlinked (q path : string) (d : Disk) :
  readFile q (filter (fun e => negb (String.eqb (fst e) path)) d)
  = if String.eqb q path then None else readFile q d.
Proof.
  induction d as [|[p c] d IH]; cbn [filter readFile fst].
  - now destruct (String.eqb q path).
  - destruct (String.eqb p path) eqn:Ep; cbn [negb readFile].
    + rewrite IH. destruct (String.eqb q path) eqn:Eq; [reflexivity|].
      destruct (String.eqb p q) eqn:Epq; [|reflexivity].
      apply String.eqb_eq in Epq, Ep. subst. now rewrite String.eqb_refl in Eq.
    + rewrite IH. destruct (String.eqb p q) eqn:Epq; [|reflexivity].
      apply String.eqb_eq in Epq. subst. now rewrite Ep.
Qed.

(** X16. The buffer file of [downloadFileList].  When the download fails
    the disk is as before.  When what was downloaded parses, the list is
    returned, the buffer file is gone and every other file of the disk is
    as before.  When it does not parse, the fault of [JSON.parse] is thrown
    and the buffer file stays on the disk with what was downloaded: the
    [unlinkSync] is not reached. *)
Theorem downloadFileList_leaves_buffer_file_on_parse_fault :
  forall (X : External) (path : string) (w : World),
    let fetched := onNet (retryRequest X (call (DownloadTo tempFileNameHack path))) w in
    let r := downloadFileList X path w in
    (forall e, out fetched = Threw e ->
       out r = Threw e /\ disk (final r) = disk w)
    /\ (forall p m, out fetched = Returned p -> JSON_parse (received p) = Returned m ->
       out r = Returned m
       /\ readFile tempFileNameHack (disk (final r)) = None
       /\ (forall q, q <> tempFileNameHack ->
             readFile q (disk (final r)) = readFile q (disk w)))
    /\ (forall p e, out fetched = Returned p -> JSON_parse (received p) = Threw e ->
       out r = Threw e
       /\ readFile tempFileNameHack (disk (final r)) = Some (received p)).
Proof.
  intros X path w. cbv zeta. unfold downloadFileList.
  set (fetch := onNet (retryRequest X (call (DownloadTo tempFileNameHack path)))).
  assert (D : disk (final (fetch w)) = disk w) by reflexivity.
  split; [|split].
  - intros e F. rewrite (bind_threw _ _ _ F). cbn [out final]. now split.
  - intros p m F J. rewrite (bind_returned _ _ _ F). cbn [out final].
    unfold bind, modify, gets. cbn [out final emitted disk setDisk readFile].
    change (String.eqb tempFileNameHack tempFileNameHack) with true. cbn iota.
    rewrite J. cbn [out final emitted unlinkSync ret disk setDisk filter fst negb].
    change (String.eqb tempFileNameHack tempFileNameHack) with true. cbn [negb].
    rewrite D. split; [reflexivity|]. split.
    + rewrite readFile_unlinked. now rewrite String.eqb_refl.
    + intros q N. rewrite readFile_unlinked.
      destruct (String.eqb q tempFileNameHack) eqn:E; [|reflexivity].
      apply String.eqb_eq in E. contradiction.
  - intros p e F J. rewrite (bind_returned _ _ _ F). cbn [out final].
    unfold bind, modify, gets. cbn [out final emitted disk setDisk readFile].
    change (String.eqb tempFileNameHack tempFileNameHack) with true. cbn iota.
    rewrite J. cbn [out final throw disk setDisk readFile].
    change (String.eqb tempFileNameHack tempFileNameHack) with true. now split.
Qed.

Lemma downloadFileList_leaves_buffer_file_on_parse_fault_witness :
  readFile tempFileNameHack
    (disk (final (downloadFileList sampleExternal "state.json"
                    (worldWith [Ok (Body (Text "<html>502 Bad Gateway</html>"))]))))
  = Some (Text "<html>502 Bad Gateway</html>").
Proof.
  exact (proj2 (proj2 (proj2 (downloadFileList_leaves_buffer_file_on_parse_fault
           sampleExternal "state.json"
           (worldWith [Ok (Body (Text "<html>502 Bad Gateway</html>"))])))
           (Body (Text "<html>502 Bad Gateway</html>")) _ eq_refl eq_refl)).
Defined.

(** ** The clean slate *)

Lemma getServerFiles_catch_run (X : External) (args : Args) (w : World) :
  exists t,
    out ((onNet (log LAll rule) ;;
          onNet (log LAll ("No file exists on the server " ++ Js.quote
                           ++ (serverDir args ++ argStateName args) ++ Js.quote
                           ++ " - this must be your first publish! 🎉")) ;;
          onNet (log LAll "The first publish will take a while... but once the initial sync is done only differences are published!") ;;
          onNet (log LAll "If you get this message and its NOT your first publish, something is wrong.") ;;
          t <- now ;;
          ret (emptyState X t)) w) = Returned (emptyState X t)
    /\ callsOf (emitted ((onNet (log LAll rule) ;;
          onNet (log LAll ("No file exists on the server " ++ Js.quote
                           ++ (serverDir args ++ argStateName args) ++ Js.quote
                           ++ " - this must be your first publish! 🎉")) ;;
          onNet (log LAll "The first publish will take a while... but once the initial sync is done only differences are published!") ;;
          onNet (log LAll "If you get this message and its NOT your first publish, something is wrong.") ;;
          t <- now ;;
          ret (emptyState X t)) w)) = []
    /\ disk (final ((onNet (log LAll rule) ;;
          onNet (log LAll ("No file exists on the server " ++ Js.quote
                           ++ (serverDir args ++ argStateName args) ++ Js.quote
                           ++ " - this must be your first publish! 🎉")) ;;
          onNet (log LAll "The first publish will take a while... but once the initial sync is done only differences are published!") ;;
          onNet (log LAll "If you get this message and its NOT your first publish, something is wrong.") ;;
          t <- now ;;
          ret (emptyState X t)) w)) = disk w.
Proof.
  generalize ("No file exists on the server " ++ Js.quote
              ++ (serverDir args ++ argStateName args) ++ Js.quote
              ++ " - this must be your first publish! 🎉").
  intros m. destruct w as [s d tk last st].
  destruct tk as [|t tk]; eexists; repeat split.
Qed.

(** X17. With the clean slate asked for, [getServerFiles] never downloads
    the state file and always answers with the empty state; the disk is as
    before.  After the change of directory it makes one call more, the
    clearing of the working directory, and none when the run is a dry run
    or when the change of directory failed.  A clearing that fails is
    answered like one that succeeds: with the empty state. *)
Theorem getServerFiles_clean_slate :
  forall (X : External) (args : Args) (w : World),
    dangerousCleanSlate args = true ->
    let dir := onNet (ensureDir X (serverDir args)) w in
    let r := getServerFiles X args w in
    (exists t, out r = Returned (emptyState X t))
    /\ disk (final r) = disk w
    /\ callsOf (emitted r)
       = (callsOf (emitted dir)
          ++ match out dir with
             | Returned _ => if argDryRun args then [] else [ClearWorkingDir]
             | Threw _ => []
             end)%list.
Proof.
  intros X args w C. cbv zeta. unfold getServerFiles, fetchServerFiles. rewrite C.
  set (handler := fun _ : Thrown => _).
  set (dir := onNet (ensureDir X (serverDir args))).
  assert (Dd : disk (final (dir w)) = disk w) by reflexivity.
  destruct (out (dir w)) as [[]|e] eqn:O.
  - set (clear :=
           (onNet (log LAll rule) ;;
            onNet (log LAll "🗑️ Removing all files on the server because 'dangerous-clean-slate' was set, this will make the deployment very slow...") ;;
            (if negb (argDryRun args) then onNet (call ClearWorkingDir) ;; ret tt else ret tt) ;;
            onNet (log LAll "Clear complete") ;;
            throw (JsError "dangerous-clean-slate was run" None)) : ProgM unit).
    assert (K : exists e t0 w1,
               clear (final (dir w)) = mkRes (Threw e) t0 w1
               /\ callsOf t0 = (if argDryRun args then [] else [ClearWorkingDir])
               /\ disk w1 = disk w).
    { unfold clear. destruct (final (dir w)) as [s d tk last st] eqn:Ew.
      cbn [disk] in Dd. subst d.
      destruct (argDryRun args); cbn [negb].
      - do 3 eexists. split; [reflexivity | split; reflexivity].
      - destruct s as [|[p|e] rest]; do 3 eexists; (split; [reflexivity | split; reflexivity]). }
    destruct K as [e [t0 [w1 [K [Kc Kd]]]]].
    fold clear.
    match goal with
    | |- context [tryCatch ?b handler w] =>
        assert (B : b w = mkRes (Threw e) (emitted (dir w) ++ t0) w1)
    end.
    { rewrite (bind_returned _ _ _ O).
      rewrite bind_run_threw with (1 := K). reflexivity. }
    rewrite tryCatch_run_threw with (1 := B).
    cbn [out emitted final].
    destruct (getServerFiles_catch_run X args w1) as [t [H1 [H2 H3]]].
    unfold handler. split; [now exists t|]. split.
    + now rewrite H3.
    + now rewrite !callsOf_app, Kc, H2, app_nil_r.
  - match goal with
    | |- context [tryCatch ?b handler w] =>
        assert (B : b w = mkRes (Threw e) (emitted (dir w)) (final (dir w)))
    end.
    { now rewrite (bind_threw _ _ _ O). }
    rewrite tryCatch_run_threw with (1 := B).
    cbn [out emitted final].
    destruct (getServerFiles_catch_run X args (final (dir w))) as [t [H1 [H2 H3]]].
    unfold handler. split; [now exists t|]. split.
    + now rewrite H3.
    + now rewrite !callsOf_app, H2.
Qed.

Lemma getServerFiles_clean_slate_witness :
  callsOf (emitted (getServerFiles sampleExternal
                      (mkArgs "ftp.example.org" "deployer" "secret" 21 Ftp "dist/" "./site/"
                              ".ftp-deploy-sync-state.json" false true [] Standard Strict 30000)
                      (worldWith [])))
  = [EnsureDir "./site/"; ClearWorkingDir].
Proof.
  exact (proj2 (proj2 (@getServerFiles_clean_slate sampleExternal
           (mkArgs "ftp.example.org" "deployer" "secret" 21 Ftp "dist/" "./site/"
                   ".ftp-deploy-sync-state.json" false true [] Standard Strict 30000)
           (worldWith []) eq_refl))).
Defined.

(** ** The state file of an interrupted sync *)

Lemma updateStateFile_run :
  forall (X : External) (localPath' stateName' : string) (diffs : DiffResult) (w : World),
    let r := Legacy.updateStateFile X localPath' stateName' diffs w in
    out r = Returned tt
    /\ callsOf (emitted r) = []
    /\ exists d m,
        readFile (localPath' ++ stateName') (disk (final r)) = Some d
        /\ JSON_parse d = Returned m
        /\ data m = (upload diffs ++ delete diffs ++ replace diffs)%list
        /\ version m = currentSyncFileVersion X
        /\ description m = "Updated state after partial sync".
Proof.
  intros X lp sn diffs [s d tk last st]. cbv zeta.
  unfold Legacy.updateStateFile. cbv zeta.
  generalize ("State file updated at " ++ Js.quote ++ (lp ++ sn) ++ Js.quote). intros line.
  assert (T : forall a l, map fst (Legacy.tagged a l) = l).
  { intros a l. unfold Legacy.tagged. rewrite map_map. cbn [fst]. apply map_id. }
  destruct tk as [|t tk].
  all: split; [reflexivity | split; [reflexivity|]].
  all: do 2 eexists.
  all: cbn [bind now writeFileSync onNet log emit out emitted final ticks disk setTicks
            setDisk setScript script readFile].
  all: rewrite String.eqb_refl.
  all: split; [reflexivity | split; [reflexivity|]].
  all: cbn [data version description]; rewrite !map_app, !T; repeat split.
Qed.

(** X18. What [updateStateFile] leaves on the disk, read back as the file
    list it is taken for when the constructor or [downloadFileList] parses
    it: the entries to upload, the entries to delete and the entries to
    replace of the change set, in this order, with the current version.
    So the entries still to delete are listed like those present, and the
    entries the change set calls the same are not listed.  No call is made
    and [updateStateFile] does not fail. *)
Theorem updateStateFile_read_back :
  forall (X : External) (localPath' stateName' : string) (diffs : DiffResult) (w : World),
    let r := Legacy.updateStateFile X localPath' stateName' diffs w in
    out r = Returned tt
    /\ callsOf (emitted r) = []
    /\ exists d m,
        readFile (localPath' ++ stateName') (disk (final r)) = Some d
        /\ JSON_parse d = Returned m
        /\ data m = (upload diffs ++ delete diffs ++ replace diffs)%list
        /\ version m = currentSyncFileVersion X
        /\ description m = "Updated state after partial sync".
Proof. exact updateStateFile_run. Qed.

(** X19. What the state file says after an interrupted sync of the older
    version.  When a fault ends [syncLocalToServer], the local state file
    lists the whole change set, the entries to upload, to delete and to
    replace, whatever part of it had been applied when the fault came: the
    file does not tell how far the sync got. *)
Theorem Legacy_interrupted_sync_lists_whole_change_set :
  forall (X : External) (P : Provider) (diffs : DiffResult) (w : World) (e : Thrown),
    let r := Legacy.syncLocalToServer X P diffs w in
    out r = Threw e ->
    exists d m,
      readFile (stateFilePath P) (disk (final r)) = Some d
      /\ JSON_parse d = Returned m
      /\ data m = (upload diffs ++ delete diffs ++ replace diffs)%list.
Proof.
  intros X P diffs w e. cbv zeta. unfold Legacy.syncLocalToServer.
  rewrite (bind_returned _ _ _ (announceSync_returns X diffs w)).
  rewrite out_mkRes, final_mkRes.
  set (w0 := final (announceSync X diffs w)).
  match goal with
  | |- context [tryCatch ?walk ?handler w0] =>
      set (W := walk); set (Hd := handler)
  end.
  destruct (out (W w0)) as [[]|e'] eqn:O.
  - rewrite (tryCatch_returned _ _ _ O), O. discriminate.
  - intros _.
    destruct (updateStateFile_run X (localPath P) (stateName P) diffs
                (final (onNet (log LAll ("⚠️ Sync interrupted due to an error: "
                                         ++ messageOf e')) (final (W w0)))))
      as [R [_ [d [m [Rd [J [D _]]]]]]].
    assert (F : final (Hd e' (final (W w0)))
                = final (Legacy.updateStateFile X (localPath P) (stateName P) diffs
                           (final (onNet (log LAll ("⚠️ Sync interrupted due to an error: "
                                                    ++ messageOf e')) (final (W w0)))))).
    { unfold Hd.
      rewrite (bind_returned _ _ _ (out_onNet_log _ _ _)), final_mkRes.
      rewrite (bind_returned _ _ _ R), final_mkRes. reflexivity. }
    rewrite (tryCatch_threw _ _ _ O), final_mkRes, F.
    exists d, m. now repeat split.
Qed.

Lemma Legacy_interrupted_sync_lists_whole_change_set_witness :
  exists d m,
    readFile (stateFilePath sampleProvider)
             (disk (final (Legacy.syncLocalToServer sampleExternal sampleProvider twoUploads
                             (worldWith [Ok NoData; Fail timedOut; Fail timedOut;
                                         Fail timedOut]))))
    = Some d
    /\ JSON_parse d = Returned m
    /\ data m = [fileEntry "a.txt"; fileEntry "b.txt"].
Proof.
  exact (@Legacy_interrupted_sync_lists_whole_change_set sampleExternal sampleProvider
           twoUploads
           (worldWith [Ok NoData; Fail timedOut; Fail timedOut; Fail timedOut])
           (JsError "Operation failed after 3 attempts: Timeout (control socket)" None)
           eq_refl).
Defined.


(** ** The tolerated fault of the file delete *)

Lemma skipn_skipn_add {A} (a b : nat) (l : list A) :
  skipn b (skipn a l) = skipn (a + b) l.
Proof.
  revert l. induction a as [|a IH]; intros l; [reflexivity|].
  destruct l as [|x l]; cbn [skipn Nat.add]; [now destruct b | apply IH].
Qed.

Lemma nth_error_skipn_add {A} (a i : nat) (l : list A) :
  nth_error (skipn a l) i = nth_error l (a + i).
Proof.
  revert l. induction a as [|a IH]; intros l; [reflexivity|].
  destruct l as [|x l]; cbn [skipn Nat.add nth_error]; [now destruct i | apply IH].
Qed.

Lemma metered_ret {A} (a : A) : metered (@ret NetEvent Net A a).
Proof. now intros s. Qed.

Lemma metered_throw {A} e : metered (@throw NetEvent Net A e).
Proof. now intros s. Qed.

Lemma metered_emit (e : NetEvent) :
  match e with Called _ => False | _ => True end -> metered (emit e).
Proof. intros H s. destruct e; try contradiction; reflexivity. Qed.

Lemma metered_call (c : Call) : metered (call c).
Proof. intros [|[p|e] s]; reflexivity. Qed.

Lemma metered_bind {A B} (m : NetM A) (k : A -> NetM B) :
  metered m -> (forall a, metered (k a)) -> metered (bind m k).
Proof.
  intros Hm Hk s. unfold bind. destruct (out (m s)) as [a|e]; cbn [emitted final].
  - rewrite netCalls_app, length_app, Hk, Hm. apply skipn_skipn_add.
  - apply Hm.
Qed.

Lemma metered_tryCatch {A} (m : NetM A) (h : Thrown -> NetM A) :
  metered m -> (forall e, metered (h e)) -> metered (tryCatch m h).
Proof.
  intros Hm Hh s. unfold tryCatch. destruct (out (m s)) as [a|e]; cbn [emitted final].
  - apply Hm.
  - rewrite netCalls_app, length_app, Hh, Hm. apply skipn_skipn_add.
Qed.

Ltac metered_step :=
  first
    [ apply metered_ret
    | apply metered_throw
    | apply metered_call
    | apply metered_emit; exact I
    | apply metered_bind; [|intros]
    | apply metered_tryCatch; [|intros]
    | match goal with
      | |- metered (if ?b then _ else _) => destruct b
      | |- metered (when ?b _) => destruct b; cbn [when]
      | |- metered (match ?e with JsError _ _ => _ | NonError _ => _ end) => destruct e
      end ].

Lemma metered_reconnect (P : Provider) : metered (reconnect P).
Proof. unfold reconnect, log. repeat metered_step. Qed.

Lemma metered_catchBlockOf (v : Version) (P : Provider) retries attempt e :
  metered (catchBlockOf v P retries attempt e).
Proof.
  destruct v; cbn [catchBlockOf];
    [unfold onFailure | unfold Legacy.onFailure]; unfold log;
    repeat (apply metered_reconnect || metered_step).
Qed.

(** A [catch] block of the retry loop throws the fault the server gave
    to the login of the reconnect, which is its second and last call. *)
Lemma catchBlockOf_refused (v : Version) (P : Provider) retries attempt e s e' :
  out (catchBlockOf v P retries attempt e s) = Threw e' ->
  netCalls (emitted (catchBlockOf v P retries attempt e s))
  = [Close; Access (reconnectOptions P)]
  /\ nth_error s 1 = Some (Fail e').
Proof.
  destruct v; cbn [catchBlockOf].
  - unfold onFailure. generalize (Nat.ltb attempt (retries - 1)). intros retrying.
    destruct e as [message code|shown].
    + destruct (connectionDropped message).
      * unfold reconnect.
        destruct s as [|[p|e] [|[p'|e''] rest]]; destruct retrying;
          cbn; intros E; try discriminate E; injection E as <-; now split.
      * destruct retrying; discriminate.
    + destruct retrying; discriminate.
  - unfold Legacy.onFailure. generalize (Nat.ltb attempt (retries - 1)). intros retrying.
    destruct e as [message code|shown].
    + destruct (Js.includes "Client is closed" message).
      * unfold reconnect.
        destruct s as [|[p|e] [|[p'|e''] rest]]; destruct retrying;
          cbn; intros E; try discriminate E; injection E as <-; now split.
      * destruct retrying; discriminate.
    + destruct retrying; discriminate.
Qed.

(** How the retry loop around one call ends: with the call accepted, which
    is then its last call; with the error it makes itself, which has no
    code; or with the fault the server gave to the login of a reconnect,
    which is then its last call. *)
Lemma attempts_ends (v : Version) (P : Provider) (c : Call) (retries : nat) :
  forall remaining attempt last s,
    let r := attempts (catchBlockOf v P) (call c) retries remaining attempt last s in
    match out r with
    | Returned _ =>
        exists before,
          netCalls (emitted r) = (before ++ [c])%list
          /\ forall e, nth_error s (length before) <> Some (Fail e)
    | Threw e =>
        codeOf e = None
        \/ exists before,
            netCalls (emitted r) = (before ++ [Access (reconnectOptions P)])%list
            /\ nth_error s (length before) = Some (Fail e)
    end.
Proof.
  induction remaining as [|k IH]; intros attempt last s; cbv zeta.
  - cbn [attempts throw out]. now left.
  - cbn [attempts]. unfold tryCatch.
    destruct s as [|[p|e0] s1].
    + cbn [call out emitted]. exists []. split; [reflexivity|]. discriminate.
    + cbn [call out emitted]. exists []. split; [reflexivity|]. discriminate.
    + cbn [call out emitted final]. unfold bind.
      pose proof (metered_catchBlockOf v P retries attempt e0 s1) as Mt.
      pose proof (@catchBlockOf_refused v P retries attempt e0 s1) as Rf.
      destruct (out (catchBlockOf v P retries attempt e0 s1)) as [l|e1].
      * specialize (IH (attempt + 1) (Some l)
                       (final (catchBlockOf v P retries attempt e0 s1))).
        cbv zeta in IH. cbn [out emitted].
        set (rest := attempts (catchBlockOf v P) (call c) retries k (attempt + 1) (Some l)
                              (final (catchBlockOf v P retries attempt e0 s1))) in *.
        set (ct := netCalls (emitted (catchBlockOf v P retries attempt e0 s1))) in *.
        rewrite Mt in IH.
        destruct (out rest) as [a|e].
        -- destruct IH as [before [E N]].
           exists (c :: ct ++ before)%list. split.
           ++ rewrite !netCalls_app. fold ct. rewrite E.
              cbn [netCalls flat_map app]. now rewrite <- app_assoc.
           ++ intros e. specialize (N e). rewrite nth_error_skipn_add in N.
              cbn [length nth_error]. now rewrite length_app.
        -- destruct IH as [IH|[before [E N]]]; [now left | right].
           exists (c :: ct ++ before)%list. split.
           ++ rewrite !netCalls_app. fold ct. rewrite E.
              cbn [netCalls flat_map app]. now rewrite <- app_assoc.
           ++ rewrite nth_error_skipn_add in N.
              cbn [length nth_error]. now rewrite length_app.
      * cbn [out emitted]. right. destruct (Rf e1 eq_refl) as [E N].
        exists [c; Close]. split.
        -- rewrite netCalls_app, E. reflexivity.
        -- exact N.
Qed.

(** X20. When [removeFile] tolerates a fault.  In a run that is not a dry
    run, [removeFile] returns in two cases only.  Either the server accepted
    the delete, on one of the attempts the budget allows, and the delete is
    the last call of the run.  Or the last call of the run is the login of
    a reconnect, the server answered that login with a fault whose code is
    the one of file not found or no access, and the line about skipping the
    file is logged.  The fault the server gives to the delete itself is
    never tolerated, whatever its code: the wrapper either reconnects and
    tries again or ends with an error of its own, which has no code.  Both
    versions of the provider. *)
Theorem removeFile_tolerates_only_a_refused_login :
  forall (v : Version) (X : External) (P : Provider) (path : string) (w : World),
    dryRun P = false ->
    let r := removeFile X P (safeOpOf v P) path w in
    let skipping :=
      OnNet (Logged LStandard
               "File not found or you don't have access to the file - skipping...") in
    out r = Returned tt ->
    exists before,
      (callsOf (emitted r) = (before ++ [Remove path])%list
       /\ forall e, nth_error (script w) (length before) <> Some (Fail e))
      \/ (callsOf (emitted r) = (before ++ [Access (reconnectOptions P)])%list
          /\ In skipping (emitted r)
          /\ exists e,
              nth_error (script w) (length before) = Some (Fail e)
              /\ codeOf e = Some (FileNotFoundOrNoAccess X)).
Proof.
  intros v X P path w D. cbv zeta. unfold removeFile. rewrite D. cbn [negb].
  rewrite bind_run with (1 := eq_refl : onNet (log LAll ("removing " ++ Js.quote ++ path
                                                          ++ Js.quote)) w
                                        = mkRes (Returned tt) _ _).
  set (w1 := setScript (final (log LAll ("removing " ++ Js.quote ++ path ++ Js.quote)
                                   (script w))) w).
  assert (S1 : script w1 = script w) by reflexivity.
  assert (E : safeOpOf v P (call (Remove path)) (script w1)
              = attempts (catchBlockOf v P) (call (Remove path)) defaultRetries
                         defaultRetries 0 None (script w))
    by (rewrite S1; now destruct v).
  pose proof (@attempts_ends v P (Remove path) defaultRetries defaultRetries 0 None
                             (script w)) as H.
  cbv zeta in H.
  destruct (attempts (catchBlockOf v P) (call (Remove path)) defaultRetries
                     defaultRetries 0 None (script w)) as [o t s'] eqn:R.
  cbn [out emitted] in H.
  pose proof (onNet_run _ w1 E) as E1.
  destruct o as [p|e].
  - assert (B1 : (onNet (safeOpOf v P (call (Remove path))) ;; ret tt) w1
                 = mkRes (Returned tt) (map OnNet t ++ []) (setScript s' w1))
      by (rewrite bind_run with (1 := E1); reflexivity).
    match goal with
    | |- context [bind (tryCatch ?b ?h) _ w1] =>
        assert (T1 : tryCatch b h w1
                     = mkRes (Returned tt) (map OnNet t ++ []) (setScript s' w1))
          by (now rewrite tryCatch_run_returned with (1 := B1))
    end.
    rewrite bind_run with (1 := T1).
    intros _. destruct H as [before [Hc Hn]]. exists before. left.
    split; [|exact Hn].
    rewrite !emitted_mkRes, !callsOf_app, !callsOf_onNet, Hc.
    cbn [ret emitted log emit onNet map callsOf flat_map app bind out final].
    now rewrite !app_nil_r.
  - assert (B1 : (onNet (safeOpOf v P (call (Remove path))) ;; ret tt) w1
                 = mkRes (Threw e) (map OnNet t) (setScript s' w1))
      by (now rewrite bind_run_threw with (1 := E1)).
    destruct (match codeOf e with
              | Some c => (c =? FileNotFoundOrNoAccess X)%Z
              | None => false
              end) eqn:Code.
    + match goal with
      | |- context [bind (tryCatch ?b ?h) _ w1] =>
          assert (T1 : tryCatch b h w1
                       = mkRes (Returned tt)
                               (map OnNet t
                                ++ [OnNet (Logged LStandard
                                      "File not found or you don't have access to the file - skipping...")])
                               (setScript s' w1))
            by (rewrite tryCatch_run_threw with (1 := B1); rewrite Code; reflexivity)
      end.
      rewrite bind_run with (1 := T1).
      intros _.
      destruct (codeOf e) as [c|] eqn:Ce; [|discriminate Code].
      apply Z.eqb_eq in Code. subst c.
      destruct H as [H|[before [Hc Hn]]]; [discriminate H|].
      exists before. right. split; [|split].
      * rewrite !emitted_mkRes, !callsOf_app, !callsOf_onNet, Hc.
        cbn [ret emitted log emit onNet map callsOf flat_map app bind out final].
        now rewrite !app_nil_r.
      * rewrite !emitted_mkRes. apply in_or_app. right.
        apply in_or_app. left. apply in_or_app. right. now left.
      * exists e. now split.
    + match goal with
      | |- context [bind (tryCatch ?b ?h) _ w1] =>
          assert (T1 : tryCatch b h w1
                       = mkRes (Threw e) (map OnNet t ++ []) (setScript s' w1))
            by (rewrite tryCatch_run_threw with (1 := B1); rewrite Code; reflexivity)
      end.
      rewrite bind_run_threw with (1 := T1). rewrite out_mkRes. discriminate.
Qed.

Lemma removeFile_tolerates_only_a_refused_login_witness :
  let w := worldWith [Fail finPacket; Ok NoData;
                      Fail (JsError "550 Permission denied" (Some 550%Z))] in
  let r := removeFile sampleExternal sampleProvider (safeOpOf PeriodicFlush sampleProvider)
                      "a.txt" w in
  out r = Returned tt
  /\ callsOf (emitted r)
     = [Remove "a.txt"; Close; Access (reconnectOptions sampleProvider)]
  /\ exists before,
      (callsOf (emitted r) = (before ++ [Remove "a.txt"])%list
       /\ forall e, nth_error (script w) (length before) <> Some (Fail e))
      \/ (callsOf (emitted r) = (before ++ [Access (reconnectOptions sampleProvider)])%list
          /\ In (OnNet (Logged LStandard
                          "File not found or you don't have access to the file - skipping..."))
                (emitted r)
          /\ exists e,
              nth_error (script w) (length before) = Some (Fail e)
              /\ codeOf e = Some (FileNotFoundOrNoAccess sampleExternal)).
Proof.
  cbv zeta. split; [reflexivity | split; [reflexivity|]].
  exact (@removeFile_tolerates_only_a_refused_login PeriodicFlush sampleExternal
           sampleProvider "a.txt"
           (worldWith [Fail finPacket; Ok NoData;
                       Fail (JsError "550 Permission denied" (Some 550%Z))])
           eq_refl eq_refl).
Defined.

(** ** Upload and replacement *)

Lemma last_line_apart {A} (m : ProgM A) (l : Level) (a b : string) (w : World) :
  let u := (m ;; onNet (log l a)) w in
  let r := (m ;; onNet (log l b)) w in
  out u = out r /\ callsOf (emitted u) = callsOf (emitted r) /\ final u = final r.
Proof.
  cbv zeta. unfold bind. destruct (out (m w)); cbn [out emitted final]; [|now repeat split].
  rewrite !callsOf_app. now repeat split.
Qed.

Lemma callsOf_then_log {A} (m : ProgM A) (l : Level) (msg : string) (w : World) :
  callsOf (emitted ((m ;; onNet (log l msg)) w)) = callsOf (emitted (m w)).
Proof.
  unfold bind. destruct (out (m w)); cbn [out emitted final]; [|reflexivity].
  rewrite callsOf_app. apply app_nil_r.
Qed.

Lemma callsOf_then_ret {A B} (m : ProgM A) (b : B) (w : World) :
  callsOf (emitted ((m ;; ret b) w)) = callsOf (emitted (m w)).
Proof.
  unfold bind. destruct (out (m w)); cbn [out emitted final]; [|reflexivity].
  rewrite callsOf_app. apply app_nil_r.
Qed.

Lemma sendNoopIfNeeded_calls (force : bool) (w : World) :
  exists t w',
    sendNoopIfNeeded force w = mkRes (Returned tt) t w'
    /\ script w' = skipn (length (callsOf t)) (script w)
    /\ (callsOf t = [] \/ callsOf t = [Send "NOOP"]).
Proof.
  destruct w as [s d tk last st]. unfold sendNoopIfNeeded, bind, now, gets.
  destruct tk as [|t tk]; cbn [ticks out final emitted lastNoopTime setTicks];
    match goal with
    | |- context [(?b || force)] => destruct (b || force)
    end;
    try (destruct s as [|[p|[m c|sh]] rest]);
    do 2 eexists; (split; [reflexivity|]); split; auto.
Qed.

Lemma attempts_first_event (v : Version) (P : Provider) (c : Call) (s : Net) :
  hd_error (netCalls (emitted (safeOperationOf v P (call c) defaultRetries s))) = Some c.
Proof.
  destruct v; cbn [safeOperationOf];
    [unfold safeOperation | unfold Legacy.safeOperation];
    unfold defaultRetries; cbn [attempts]; unfold tryCatch;
    destruct s as [|[p|e] s]; reflexivity.
Qed.

(** X21. A replacement is an upload.  With either type [uploadFile] makes
    the same calls, ends the same way and leaves the same state; the type
    changes the wording of two log lines.  The calls are the keep-alive
    probe when it is due, and then, unless the run is a dry run, the
    attempts of the retry wrapper at one transfer, of the local file to the
    remote path of the same name: the transfer comes first and is tried one
    to three times, and any other call is one of a reconnect.  Nothing is
    deleted before a file is replaced.  Both versions of the provider. *)
Theorem uploadFile_replace_is_upload :
  forall (v : Version) (P : Provider) (filePath : string) (w : World),
    let u := uploadFile P (safeOpOf v P) filePath TUpload w in
    let r := uploadFile P (safeOpOf v P) filePath TReplace w in
    let transfer := UploadFrom (localPath P ++ filePath) filePath in
    out u = out r
    /\ callsOf (emitted u) = callsOf (emitted r)
    /\ final u = final r
    /\ exists probe attempts,
        callsOf (emitted r) = (probe ++ attempts)%list
        /\ (probe = [] \/ probe = [Send "NOOP"])
        /\ (dryRun P = true -> attempts = [])
        /\ (dryRun P = false ->
            hd_error attempts = Some transfer
            /\ Forall (fun c => c = transfer \/ c = Close
                                \/ c = Access (reconnectOptions P)) attempts
            /\ exists k,
                1 <= k <= 3
                /\ filter (fun c => negb (sessionCall c)) attempts = repeat transfer k).
Proof.
  intros v P filePath w. cbv zeta. unfold uploadFile. cbv zeta.
  rewrite bind_run with (1 := eq_refl : onNet (log LAll ("uploading" ++ " " ++ Js.quote
                                                          ++ filePath ++ Js.quote)) w
                                        = mkRes (Returned tt) _ _).
  rewrite bind_run with (1 := eq_refl : onNet (log LAll ("replacing" ++ " " ++ Js.quote
                                                          ++ filePath ++ Js.quote)) w
                                        = mkRes (Returned tt) _ _).
  cbn [log emit out emitted final].
  set (w1 := setScript (script w) w).
  set (step := if negb (dryRun P)
               then onNet (safeOpOf v P (call (UploadFrom (localPath P ++ filePath)
                                                          filePath))) ;; ret tt
               else ret tt).
  pose proof (last_line_apart (sendNoopIfNeeded false ;; step) LVerbose
                              ("  file " ++ "uploaded") ("  file " ++ "replaced") w1) as L.
  cbv zeta in L. rewrite !(bind_assoc (sendNoopIfNeeded false)) in L.
  destruct L as [L1 [L2 L3]].
  rewrite !callsOf_app. cbn [map callsOf flat_map app].
  split; [exact L1 | split; [exact L2 | split; [exact L3|]]].
  destruct (sendNoopIfNeeded_calls false w1) as [t [w2 [E [_ Hp]]]].
  rewrite bind_run with (1 := E). rewrite emitted_mkRes, callsOf_app.
  exists (callsOf t), (callsOf (emitted (step w2))).
  split; [now rewrite callsOf_then_log|].
  split; [exact Hp|].
  unfold step. split; intros D; rewrite D; cbn [negb]; [reflexivity|].
  rewrite callsOf_then_ret. unfold onNet. cbn [emitted]. rewrite callsOf_onNet.
  unfold safeOpOf. split; [apply attempts_first_event | split].
  - apply (@only_safeOperationOf _ _ v P); [auto | auto |]. apply only_call. now left.
  - assert (E' : safeOperationOf v P (call (UploadFrom (localPath P ++ filePath) filePath))
                                 defaultRetries (script w2)
                 = attempts (catchBlockOf v P)
                            (call (UploadFrom (localPath P ++ filePath) filePath))
                            defaultRetries defaultRetries 0 None (script w2))
      by now destruct v.
    rewrite E'.
    destruct (@attempts_bounded v P (UploadFrom (localPath P ++ filePath) filePath)
                defaultRetries eq_refl defaultRetries 0 None (script w2))
      as [k [Ek [Hk Hk']]].
    exists k. split; [|exact Ek].
    unfold defaultRetries in *. split; [apply Hk'; lia | exact Hk].
Qed.

Lemma uploadFile_replace_is_upload_witness :
  callsOf (emitted (uploadFile sampleProvider (safeOpOf PeriodicFlush sampleProvider)
                               "style.css" TReplace
                               (mkWorld [Ok NoData; Fail finPacket; Ok NoData; Ok NoData]
                                        [] [6000%Z] 0 freshState)))
  = [Send "NOOP"; UploadFrom "dist/style.css" "style.css"; Close;
     Access (reconnectOptions sampleProvider); UploadFrom "dist/style.css" "style.css"].
Proof.
  destruct (uploadFile_replace_is_upload PeriodicFlush sampleProvider "style.css"
              (mkWorld [Ok NoData; Fail finPacket; Ok NoData; Ok NoData]
                       [] [6000%Z] 0 freshState))
    as [_ [_ [_ [probe [attempts [E _]]]]]].
  reflexivity.
Defined.

(** ** The whole run *)

Lemma forEach_log_lines (l : list (Level * string)) (s : Net) :
  forEach l (fun line => log (fst line) (snd line)) s
  = mkRes (Returned tt) (map (fun line => Logged (fst line) (snd line)) l) s.
Proof.
  induction l as [|x l IH]; [reflexivity|].
  cbn [forEach map]. unfold bind. cbn [log emit out emitted final].
  now rewrite IH.
Qed.

Lemma netCalls_logged (l : list (Level * string)) :
  netCalls (map (fun line => Logged (fst line) (snd line)) l) = [].
Proof. induction l as [|x l IH]; [reflexivity | exact IH]. Qed.

Lemma emitted_finally {E S A} (m : M E S A) (f : M E S unit) s :
  emitted (finally m f s) = (emitted (m s) ++ emitted (f (final (m s))))%list.
Proof. reflexivity. Qed.

Lemma deployFinally_closes (w : World) :
  callsOf (emitted (deployFinally w)) = [Close]
  /\ writesOf (emitted (deployFinally w)) = []
  /\ out (deployFinally w)
     = match script w with Fail e :: _ => Threw e | _ => Returned tt end.
Proof.
  destruct w as [s d tk last st]. unfold deployFinally.
  destruct s as [|[p|e] rest]; repeat split.
Qed.

Lemma deploySummary_logs (H : Host) (b : Z) (w : World) :
  callsOf (emitted (onNet (deploySummary H b) w)) = []
  /\ writesOf (emitted (onNet (deploySummary H b) w)) = [].
Proof. split; reflexivity. Qed.

Lemma then_summary (H : Host) (m : ProgM Z) (w : World) :
  callsOf (emitted ((b <- m ;; onNet (deploySummary H b)) w)) = callsOf (emitted (m w))
  /\ writesOf (emitted ((b <- m ;; onNet (deploySummary H b)) w)) = writesOf (emitted (m w))
  /\ (forall e, out (m w) = Threw e ->
        out ((b <- m ;; onNet (deploySummary H b)) w) = Threw e).
Proof.
  unfold bind. destruct (out (m w)) as [b|e]; cbn [out emitted final].
  - destruct (deploySummary_logs H b (final (m w))) as [C W].
    rewrite callsOf_app, writesOf_app, C, W, !app_nil_r. repeat split. discriminate.
  - repeat split. now intros e0 [= <-].
Qed.

Lemma onNet_emit_run (e : NetEvent) (w : World) :
  onNet (emit e) w = mkRes (Returned tt) [OnNet e] w.
Proof. now destruct w. Qed.

Lemma onNet_log_run (l : Level) (msg : string) (w : World) :
  onNet (log l msg) w = mkRes (Returned tt) [OnNet (Logged l msg)] w.
Proof. now destruct w. Qed.

Lemma createLocalState_run (m : IFileList) (dir name : string) (w : World) :
  createLocalState m dir name w
  = mkRes (Returned tt)
          [OnNet (Logged LVerbose ("Creating local state at " ++ dir ++ name));
           WroteFile (dir ++ name) (StateJson m);
           OnNet (Logged LVerbose "Local state created")]
          (setDisk ((dir ++ name, StateJson m) :: disk w) w).
Proof. now destruct w. Qed.

Lemma deployGreeting_run (H : Host) (args : Args) (w : World) :
  onNet (deployGreeting H args) w
  = mkRes (Returned tt) (map OnNet (emitted (deployGreeting H args []))) w.
Proof. now destruct w. Qed.

(** Five steps that return, the second by a function without effects. *)
Lemma five_steps {A B} (m1 : ProgM unit) (o : Outcome A) (m2 : ProgM unit)
      (m3 : A -> ProgM unit) (m4 : ProgM unit) (k : A -> ProgM B)
      (w w3 : World) (a : A) (t1 t2 t3 t4 : list Event) :
  m1 w = mkRes (Returned tt) t1 w ->
  o = Returned a ->
  m2 w = mkRes (Returned tt) t2 w ->
  m3 a w = mkRes (Returned tt) t3 w3 ->
  m4 w3 = mkRes (Returned tt) t4 w3 ->
  (m1 ;; x <- liftOutcome o ;; m2 ;; m3 x ;; m4 ;; k x) w
  = mkRes (out (k a w3)) ((t1 ++ t2 ++ t3 ++ t4) ++ emitted (k a w3)) (final (k a w3)).
Proof.
  intros H1 -> H2 H3 H4. unfold bind, liftOutcome, ret.
  rewrite H1. cbn [out emitted final]. rewrite H2. cbn [out emitted final].
  rewrite H3. cbn [out emitted final]. rewrite H4. cbn [out emitted final app].
  now rewrite <- !app_assoc.
Qed.

Lemma second_step_throws {A B} (m1 : ProgM unit) (o : Outcome A) (k : A -> ProgM B)
      (w : World) (e : Thrown) (t1 : list Event) :
  m1 w = mkRes (Returned tt) t1 w ->
  o = Threw e ->
  (m1 ;; x <- liftOutcome o ;; k x) w = mkRes (Threw e) t1 w.
Proof.
  intros H1 ->. unfold bind, liftOutcome, throw. rewrite H1. cbn [out emitted final].
  now rewrite app_nil_r.
Qed.

(** The run of [deploy] up to the outer [try], once the local files are
    known: no call, and one write, that of the local state file. *)
Lemma deploy_prologue (X : External) (H : Host) (args : Args) (w : World)
      (localFiles : IFileList) :
  getLocalFiles H args = Returned localFiles ->
  exists t,
    callsOf t = []
    /\ writesOf t = [((localDir args ++ argStateName args)%string, StateJson localFiles)]
    /\ out (deploy X H args w)
       = out ((b <- finally (tryCatch (deployTry X H args localFiles) (deployCatch H args))
                            deployFinally ;;
               onNet (deploySummary H b))
                (setDisk ((localDir args ++ argStateName args, StateJson localFiles)
                          :: disk w) w))
    /\ emitted (deploy X H args w)
       = (t ++ emitted ((b <- finally (tryCatch (deployTry X H args localFiles)
                                                (deployCatch H args))
                                      deployFinally ;;
                         onNet (deploySummary H b))
                          (setDisk (((localDir args ++ argStateName args)%string,
                                     StateJson localFiles) :: disk w) w)))%list.
Proof.
  intros L.
  assert (E : deploy X H args w = mkRes
            (out ((b <- finally (tryCatch (deployTry X H args localFiles)
                                          (deployCatch H args)) deployFinally ;;
                   onNet (deploySummary H b))
                    (setDisk ((localDir args ++ argStateName args, StateJson localFiles)
                              :: disk w) w)))
            ((map OnNet (emitted (deployGreeting H args []))
              ++ [OnNet (Timing false "hash")]
              ++ [OnNet (Logged LVerbose ("Creating local state at " ++ localDir args
                                          ++ argStateName args));
                  WroteFile (localDir args ++ argStateName args) (StateJson localFiles);
                  OnNet (Logged LVerbose "Local state created")]
              ++ [OnNet NewClient])
             ++ emitted ((b <- finally (tryCatch (deployTry X H args localFiles)
                                                 (deployCatch H args)) deployFinally ;;
                          onNet (deploySummary H b))
                           (setDisk ((localDir args ++ argStateName args,
                                      StateJson localFiles) :: disk w) w)))
            (final ((b <- finally (tryCatch (deployTry X H args localFiles)
                                            (deployCatch H args)) deployFinally ;;
                     onNet (deploySummary H b))
                      (setDisk ((localDir args ++ argStateName args, StateJson localFiles)
                                :: disk w) w)))).
  { exact (@five_steps _ _ _ _ _
             (fun x => createLocalState x (localDir args) (argStateName args)) _
             (fun x => b <- finally (tryCatch (deployTry X H args x) (deployCatch H args))
                                    deployFinally ;;
                       onNet (deploySummary H b))
             w _ localFiles _ _ _ _
             (deployGreeting_run H args w) L (onNet_emit_run (Timing false "hash") w)
             (createLocalState_run localFiles (localDir args) (argStateName args) w)
             (onNet_emit_run NewClient _)). }
  eexists. split; [|split; [|split]].
  3: { rewrite E. apply out_mkRes. }
  3: { rewrite E. apply emitted_mkRes. }
  - reflexivity.
  - reflexivity.
Qed.

(** X22. [deploy] brackets the run.  When the scan of the local files
    fails, the fault leaves [deploy] at once: no client exists yet, no call
    is made and nothing is written.  Otherwise the list of the local files
    is written to the local state file before any call is made, and the
    last call of the run is the close in the [finally] block of [deploy],
    whether the run returned or a fault ended it anywhere after. *)
Theorem deploy_writes_first_and_closes_last :
  forall (X : External) (H : Host) (args : Args) (w : World),
    let r := deploy X H args w in
    (forall e, getLocalFiles H args = Threw e ->
       out r = Threw e /\ callsOf (emitted r) = [] /\ writesOf (emitted r) = [])
    /\ (forall localFiles, getLocalFiles H args = Returned localFiles ->
       exists before after cs,
         emitted r = (before ++ after)%list
         /\ callsOf before = []
         /\ writesOf before
            = [((localDir args ++ argStateName args)%string, StateJson localFiles)]
         /\ callsOf after = (cs ++ [Close])%list).
Proof.
  intros X H args w. cbv zeta. split.
  - intros e L.
    assert (R : deploy X H args w
                = mkRes (Threw e) (map OnNet (emitted (deployGreeting H args []))) w).
    { unfold deploy.
      apply (@second_step_throws _ _ _ _
               (fun x =>
                  onNet (emit (Timing false "hash")) ;;
                  createLocalState x (localDir args) (argStateName args) ;;
                  onNet (emit NewClient) ;;
                  b <- finally (tryCatch (deployTry X H args x) (deployCatch H args))
                               deployFinally ;;
                  onNet (deploySummary H b))
               w e _ (deployGreeting_run H args w) L). }
    rewrite R. rewrite out_mkRes, emitted_mkRes. split; [reflexivity | split; reflexivity].
  - intros localFiles L.
    destruct (@deploy_prologue X H args w localFiles L) as [t [C [W [_ E]]]].
    rewrite E. clear E.
    set (w1 := setDisk _ w).
    set (body := tryCatch (deployTry X H args localFiles) (deployCatch H args)).
    destruct (then_summary H (finally body deployFinally) w1) as [Sc _].
    destruct (deployFinally_closes (final (body w1))) as [F _].
    exists t, (emitted ((b <- finally body deployFinally ;; onNet (deploySummary H b)) w1)),
           (callsOf (emitted (body w1))).
    split; [reflexivity | split; [exact C | split; [exact W|]]].
    now rewrite Sc, emitted_finally, callsOf_app, F.
Qed.

Lemma deploy_writes_first_and_closes_last_witness :
  exists before after cs,
    emitted (deploy sampleExternal sampleHost sampleArgs (worldWith []))
    = (before ++ after)%list
    /\ callsOf before = []
    /\ writesOf before = [("dist/.ftp-deploy-sync-state.json", StateJson sampleLocalFiles)]
    /\ callsOf after = (cs ++ [Close])%list.
Proof.
  exact (proj2 (deploy_writes_first_and_closes_last sampleExternal sampleHost sampleArgs
                  (worldWith [])) sampleLocalFiles eq_refl).
Defined.

Lemma globalReconnect_refused (args : Args) (e : Thrown) (rest : Net) :
  exists t,
    globalReconnect args (Fail e :: rest) = mkRes (Threw e) t rest
    /\ netCalls t = [Access (connectOptions args)].
Proof. eexists. split; reflexivity. Qed.

Lemma globalReconnect_accepted (args : Args) (p : Payload) (rest : Net) :
  exists t,
    globalReconnect args (Ok p :: rest) = mkRes (Returned tt) t rest
    /\ netCalls t = [Access (connectOptions args)].
Proof.
  unfold globalReconnect, connect.
  destruct (isVerbose (logLevel args)); eexists; split; reflexivity.
Qed.

Lemma deployCatch_run (H : Host) (args : Args) (e : Thrown) (w : World) :
  deployCatch H args e w
  = mkRes (Threw e)
          (map OnNet (map (fun line => Logged (fst line) (snd line)) (prettyError H args e)))
          w.
Proof.
  unfold deployCatch.
  rewrite bind_run with (1 := onNet_run _ w (forEach_log_lines _ _)).
  destruct w as [s d tk last st].
  cbn [throw out emitted final setScript script disk ticks lastNoopTime state].
  now rewrite app_nil_r.
Qed.

Lemma callsOf_lines (l : list (Level * string)) :
  callsOf (map OnNet (map (fun line => Logged (fst line) (snd line)) l)) = [].
Proof. rewrite callsOf_onNet. apply netCalls_logged. Qed.

Lemma deployFinally_run (w : World) :
  exists o t w',
    deployFinally w = mkRes o t w'
    /\ callsOf t = [Close] /\ writesOf t = []
    /\ o = match script w with Fail e :: _ => Threw e | _ => Returned tt end.
Proof.
  destruct w as [s d tk last st]. unfold deployFinally.
  destruct s as [|[p|e] rest]; do 3 eexists; (split; [reflexivity|]); repeat split.
Qed.

(** X23. A login that the server refuses.  [deploy] has written the list
    of the local files to the local state file by then.  It makes the
    login once, reports the fault through [prettyError], closes the client
    and throws the fault again; nothing else is called and nothing else is
    written.  When the close fails as well, the fault of the close is what
    [deploy] throws. *)
Theorem deploy_refused_login :
  forall (X : External) (H : Host) (args : Args) (w : World) (localFiles : IFileList)
         (e : Thrown) (rest : Net),
    getLocalFiles H args = Returned localFiles ->
    script w = Fail e :: rest ->
    let r := deploy X H args w in
    callsOf (emitted r) = [Access (connectOptions args); Close]
    /\ writesOf (emitted r)
       = [((localDir args ++ argStateName args)%string, StateJson localFiles)]
    /\ out r = match rest with Fail e' :: _ => Threw e' | _ => Threw e end
    /\ (forall line, In line (prettyError H args e) ->
          In (OnNet (Logged (fst line) (snd line))) (emitted r)).
Proof.
  intros X H args w localFiles e rest L S. cbv zeta.
  destruct (@deploy_prologue X H args w localFiles L) as [t [C [W [Eo Ee]]]].
  rewrite Eo, Ee. clear Eo Ee.
  set (w1 := setDisk _ w).
  assert (S1 : script w1 = Fail e :: rest) by exact S.
  destruct (globalReconnect_refused args e rest) as [t1 [G1 C1]].
  rewrite <- S1 in G1.
  assert (T : deployTry X H args localFiles w1
              = mkRes (Threw e) (map OnNet t1) (setScript rest w1)).
  { unfold deployTry. now rewrite bind_run_threw with (1 := onNet_run _ w1 G1). }
  assert (B : tryCatch (deployTry X H args localFiles) (deployCatch H args) w1
              = mkRes (Threw e)
                      (map OnNet t1
                       ++ map OnNet (map (fun line => Logged (fst line) (snd line))
                                         (prettyError H args e)))
                      (setScript rest w1))
    by exact (tryCatch_threw_run _ _ _ T (deployCatch_run H args e _)).
  destruct (deployFinally_run (setScript rest w1)) as [o [tf [w2 [F [Cf [Wf Of]]]]]].
  assert (R : (b <- finally (tryCatch (deployTry X H args localFiles) (deployCatch H args))
                            deployFinally ;;
               onNet (deploySummary H b)) w1
              = mkRes (match o with Returned _ => Threw e | Threw e' => Threw e' end)
                      ((map OnNet t1
                        ++ map OnNet (map (fun line => Logged (fst line) (snd line))
                                          (prettyError H args e))) ++ tf)
                      w2).
  { assert (Fi : finally (tryCatch (deployTry X H args localFiles) (deployCatch H args))
                         deployFinally w1
                 = mkRes (match o with Returned _ => Threw e | Threw e' => Threw e' end)
                         ((map OnNet t1
                           ++ map OnNet (map (fun line => Logged (fst line) (snd line))
                                             (prettyError H args e))) ++ tf)
                         w2)
      by exact (finally_run _ _ _ B F).
    destruct o as [[]|e'].
    - exact (bind_run_threw _ _ _ Fi).
    - exact (bind_run_threw _ _ _ Fi). }
  rewrite R, out_mkRes, emitted_mkRes. clear R.
  assert (Sr : script (setScript rest w1) = rest) by (now destruct w1).
  rewrite Sr in Of.
  split; [|split; [|split]].
  - rewrite !callsOf_app, C, callsOf_onNet, C1, callsOf_lines, Cf. reflexivity.
  - rewrite !writesOf_app, W, !writesOf_onNet, Wf. reflexivity.
  - rewrite Of. now destruct rest as [|[p|e'] rest'].
  - intros line I. apply in_or_app. right. apply in_or_app. left.
    apply in_or_app. right. apply in_map.
    now apply (in_map (fun line => Logged (fst line) (snd line))).
Qed.

Lemma deploy_refused_login_witness :
  out (deploy sampleExternal sampleHost sampleArgs (worldWith [Fail tlsRefused]))
  = Threw tlsRefused
  /\ callsOf (emitted (deploy sampleExternal sampleHost sampleArgs
                         (worldWith [Fail tlsRefused])))
     = [Access (connectOptions sampleArgs); Close].
Proof.
  destruct (@deploy_refused_login sampleExternal sampleHost sampleArgs
              (worldWith [Fail tlsRefused]) sampleLocalFiles tlsRefused []
              eq_refl eq_refl) as [C [_ [O _]]].
  split; [exact O | exact C].
Defined.

(** The first calls of [deploy] when the login is accepted and the
    listing of the server directory does not name the state file. *)
Lemma deploy_first_calls :
  forall (X : External) (H : Host) (args : Args) (w : World) (localFiles : IFileList)
         (p1 p2 : Payload) (rest : Net),
    getLocalFiles H args = Returned localFiles ->
    script w = Ok p1 :: Ok p2 :: rest ->
    ~ In (argStateName args) (listed p2) ->
    exists cs,
      callsOf (emitted (deploy X H args w))
      = Access (connectOptions args)
        :: ListDir (serverDir args)
        :: UploadFrom (localDir args ++ argStateName args)
                      (serverDir args ++ argStateName args)
        :: cs.
Proof.
  intros X H args w localFiles p1 p2 rest L S N.
  destruct (@deploy_prologue X H args w localFiles L) as [t [C [_ [_ Ee]]]].
  rewrite Ee. clear Ee.
  set (w1 := setDisk _ w).
  assert (S1 : script w1 = Ok p1 :: Ok p2 :: rest) by exact S.
  destruct (globalReconnect_accepted args p1 (Ok p2 :: rest)) as [t1 [G1 C1]].
  rewrite <- S1 in G1.
  set (w2 := setScript (Ok p2 :: rest) w1).
  assert (S2 : script w2 = Ok p2 :: rest) by (now destruct w1).
  destruct (@ensureStateFileExists_run X (localDir args) (serverDir args)
              (argStateName args) w2 _ _ S2) as [_ [_ Missing]].
  destruct (Missing p2 eq_refl N) as [Ce _].
  destruct (emitted_bind_prefix
              (finally (tryCatch (deployTry X H args localFiles) (deployCatch H args))
                       deployFinally)
              (fun b => onNet (deploySummary H b)) w1) as [x1 ->].
  destruct (emitted_finally_prefix
              (tryCatch (deployTry X H args localFiles) (deployCatch H args))
              deployFinally w1) as [x2 ->].
  destruct (emitted_tryCatch_prefix (deployTry X H args localFiles) (deployCatch H args) w1)
    as [x3 ->].
  unfold deployTry at 1.
  rewrite bind_run with (1 := onNet_run _ w1 G1). rewrite emitted_mkRes. fold w2.
  match goal with
  | |- context [emitted (bind ?m ?k w2)] =>
      destruct (emitted_bind_prefix m k w2) as [x4 ->]
  end.
  rewrite !callsOf_app, C, callsOf_onNet, C1, Ce. cbn [app]. eexists. reflexivity.
Qed.

(** C8, the code at the failing input.  [deploy] runs with the dry-run
    switch set, the server accepts the login and lists a directory that does
    not hold the state file.  Before the change set is computed,
    [ensureStateFileExists] uploads the local state file to the server: a
    call that changes the remote target, made in the dry run.  The push of
    the state file by the provider is behind a test of the switch, and so
    are its transfers, removals and folder creations, and the clearing of
    the working directory. *)
Theorem deploy_dry_run_pushes_the_state_file :
  forall (X : External) (H : Host) (args : Args) (w : World) (localFiles : IFileList)
         (p1 p2 : Payload) (rest : Net),
    argDryRun args = true ->
    getLocalFiles H args = Returned localFiles ->
    script w = Ok p1 :: Ok p2 :: rest ->
    ~ In (argStateName args) (listed p2) ->
    let push := UploadFrom (localDir args ++ argStateName args)
                           (serverDir args ++ argStateName args) in
    mutating push = true
    /\ exists before after,
        callsOf (emitted (deploy X H args w)) = (before ++ push :: after)%list.
Proof.
  intros X H args w localFiles p1 p2 rest _ L S N. cbv zeta. split; [reflexivity|].
  destruct (@deploy_first_calls X H args w localFiles p1 p2 rest L S N) as [cs E].
  exists [Access (connectOptions args); ListDir (serverDir args)], cs. exact E.
Qed.

Lemma deploy_dry_run_pushes_the_state_file_witness :
  let r := deploy sampleExternal sampleHost dryRunArgs
             (worldWith [Ok NoData; Ok (Names ["index.html"])]) in
  out r = Returned tt
  /\ callsOf (emitted r)
     = [Access (connectOptions dryRunArgs);
        ListDir "./site/";
        UploadFrom "dist/.ftp-deploy-sync-state.json" "./site/.ftp-deploy-sync-state.json";
        EnsureDir "./site/";
        DownloadTo tempFileNameHack ".ftp-deploy-sync-state.json";
        Close]
  /\ filter mutating (callsOf (emitted r))
     = [UploadFrom "dist/.ftp-deploy-sync-state.json" "./site/.ftp-deploy-sync-state.json";
        EnsureDir "./site/"]
  /\ exists before after,
      callsOf (emitted r)
      = (before
         ++ UploadFrom "dist/.ftp-deploy-sync-state.json" "./site/.ftp-deploy-sync-state.json"
         :: after)%list.
Proof.
  cbv zeta.
  split; [vm_compute; reflexivity|].
  split; [vm_compute; reflexivity|].
  split; [vm_compute; reflexivity|].
  refine (proj2 (@deploy_dry_run_pushes_the_state_file sampleExternal sampleHost dryRunArgs
                   (worldWith [Ok NoData; Ok (Names ["index.html"])]) sampleLocalFiles
                   NoData (Names ["index.html"]) [] eq_refl eq_refl eq_refl _)).
  cbn. intros [E|[]]. discriminate E.
Defined.

(** X24. The state file is created on the server in a dry run too.  The
    login is accepted and the listing of the server directory does not
    name the state file: whatever the arguments say, the dry-run switch
    among them, the next call of [deploy] uploads the local state file to
    the server path of the state file. *)
Theorem deploy_uploads_missing_state_file_in_any_mode :
  forall (X : External) (H : Host) (args : Args) (w : World) (localFiles : IFileList)
         (p1 p2 : Payload) (rest : Net),
    getLocalFiles H args = Returned localFiles ->
    script w = Ok p1 :: Ok p2 :: rest ->
    ~ In (argStateName args) (listed p2) ->
    exists cs,
      callsOf (emitted (deploy X H args w))
      = Access (connectOptions args)
        :: ListDir (serverDir args)
        :: UploadFrom (localDir args ++ argStateName args)
                      (serverDir args ++ argStateName args)
        :: cs.
Proof.
  intros X H args w localFiles p1 p2 rest L S N.
  exact (@deploy_first_calls X H args w localFiles p1 p2 rest L S N).
Qed.

Lemma deploy_uploads_missing_state_file_in_any_mode_witness :
  exists cs,
    callsOf (emitted (deploy sampleExternal sampleHost
                        (mkArgs "ftp.example.org" "deployer" "secret" 21 Ftp "dist/"
                                "./site/" ".ftp-deploy-sync-state.json" true false []
                                Standard Strict 30000)
                        (worldWith [Ok NoData; Ok (Names ["index.html"])])))
    = Access (mkAccess "ftp.example.org" "deployer" "secret" (Some 21%Z) SecureFalse true)
      :: ListDir "./site/"
      :: UploadFrom "dist/.ftp-deploy-sync-state.json" "./site/.ftp-deploy-sync-state.json"
      :: cs.
Proof.
  refine (@deploy_uploads_missing_state_file_in_any_mode sampleExternal sampleHost
            (mkArgs "ftp.example.org" "deployer" "secret" 21 Ftp "dist/"
                    "./site/" ".ftp-deploy-sync-state.json" true false []
                    Standard Strict 30000)
            (worldWith [Ok NoData; Ok (Names ["index.html"])]) sampleLocalFiles
            NoData (Names ["index.html"]) [] eq_refl eq_refl _).
  cbn. intros [E|[]]. discriminate E.
Defined.

Lemma out_then_summary (H : Host) (m : ProgM Z) (w : World) :
  out ((b <- m ;; onNet (deploySummary H b)) w)
  = match out (m w) with Returned _ => Returned tt | Threw e => Threw e end.
Proof. unfold bind. now destruct (out (m w)). Qed.

(** X25. [deploy] swallows no fault.  Once the local files are known,
    [deploy] returns exactly when its [try] block returned and the close of
    the client did not fail.  A fault of the [try] block is reported
    through [prettyError] and thrown again after the close; a fault of the
    close is thrown in its place, and in place of the result of a run that
    returned. *)
Theorem deploy_returns_when_the_try_block_returned :
  forall (X : External) (H : Host) (args : Args) (w : World) (localFiles : IFileList),
    getLocalFiles H args = Returned localFiles ->
    let w1 := setDisk ((localDir args ++ argStateName args, StateJson localFiles)
                       :: disk w) w in
    let block := deployTry X H args localFiles w1 in
    let r := deploy X H args w in
    out r
    = match script (final block) with
      | Fail e' :: _ => Threw e'
      | _ => match out block with
             | Returned _ => Returned tt
             | Threw e => Threw e
             end
      end
    /\ (forall e line,
          out block = Threw e -> In line (prettyError H args e) ->
          In (OnNet (Logged (fst line) (snd line))) (emitted r)).
Proof.
  intros X H args w localFiles L. cbv zeta.
  destruct (@deploy_prologue X H args w localFiles L) as [t [_ [_ [Eo Ee]]]].
  rewrite Eo, Ee. clear Eo Ee.
  set (w1 := setDisk _ w).
  set (body := tryCatch (deployTry X H args localFiles) (deployCatch H args)).
  rewrite out_then_summary, out_finally.
  destruct (deployFinally_closes (final (body w1))) as [_ [_ F]]. rewrite F. clear F.
  destruct (out (deployTry X H args localFiles w1)) as [b|e] eqn:O.
  - assert (B : body w1 = deployTry X H args localFiles w1)
      by exact (tryCatch_returned _ _ _ O).
    rewrite B, O. split.
    + now destruct (script (final (deployTry X H args localFiles w1))) as [|[p|e'] rest].
    + discriminate.
  - assert (B : body w1
                = mkRes (Threw e)
                        (emitted (deployTry X H args localFiles w1)
                         ++ map OnNet (map (fun line => Logged (fst line) (snd line))
                                           (prettyError H args e)))
                        (final (deployTry X H args localFiles w1)))
      by exact (tryCatch_threw_with _ _ _ O (deployCatch_run H args e _)).
    rewrite B, out_mkRes. split.
    + rewrite final_mkRes.
      now destruct (script (final (deployTry X H args localFiles w1))) as [|[p|e'] rest].
    + intros e0 line E0 I. injection E0 as <-.
      destruct (emitted_bind_prefix (finally body deployFinally)
                                    (fun b => onNet (deploySummary H b)) w1) as [x ->].
      rewrite emitted_finally, B, emitted_mkRes.
      apply in_or_app. right. apply in_or_app. left. apply in_or_app. left.
      apply in_or_app. right. apply in_map.
      now apply (in_map (fun line => Logged (fst line) (snd line))).
Qed.

Lemma deploy_returns_when_the_try_block_returned_witness :
  out (deploy sampleExternal sampleHost sampleArgs
              (worldWith [Ok NoData; Ok (Names [".ftp-deploy-sync-state.json"]);
                          Ok NoData; Ok (Body (StateJson freshState))]))
  = Returned tt.
Proof.
  rewrite (proj1 (@deploy_returns_when_the_try_block_returned sampleExternal sampleHost
                    sampleArgs
                    (worldWith [Ok NoData; Ok (Names [".ftp-deploy-sync-state.json"]);
                                Ok NoData; Ok (Body (StateJson freshState))])
                    sampleLocalFiles eq_refl)).
  reflexivity.
Defined.

(** ** The way into a new folder and back *)

Section WayBack.

Variable X : External.
Variable P : Provider.
Hypothesis retry : TransparentRetry X.

Lemma ensureDir_accepted (path : string) :
  exists t,
    ensureDir X path [] = mkRes (Returned tt) t []
    /\ netCalls t = [EnsureDir path].
Proof.
  unfold ensureDir.
  assert (R : retryRequest X (call (EnsureDir path)) [] = call (EnsureDir path) [])
    by (now apply retry with (a := NoData)).
  unfold bind. cbn [emit log out emitted final]. rewrite R.
  cbn [call out emitted final app]. eexists. split; reflexivity.
Qed.

Lemma upDir_accepted (n : nat) :
  exists t,
    upDir X (Some n) [] = mkRes (Returned tt) t []
    /\ netCalls t = repeat Cdup n.
Proof.
  unfold upDir. generalize 0 as start.
  induction n as [|n IH]; intros start.
  - exists []. split; reflexivity.
  - destruct (IH (S start)) as [t [E C]].
    assert (R : retryRequest X (call Cdup) [] = call Cdup [])
      by (now apply retry with (a := NoData)).
    exists (Called Cdup :: t). split.
    + cbn [seq forEach]. unfold bind at 1 2. rewrite R.
      cbn [call out emitted final ret app]. now rewrite E.
    + cbn [netCalls flat_map app repeat]. f_equal. exact C.
Qed.

(** The way into the new folder and back, as [createFolder] of either
    version walks it. *)
Lemma way_in_accepted (v : Version) (n : string) :
  Smooth (match folders (getFileBreadcrumbs (n ++ "/")) with
          | None => onNet (log LVerbose "  no need to change dir")
          | Some fs => onNet (safeOperationOf v P (ensureDir X (Js.join "/" fs))
                                              defaultRetries)
          end)
         (Returned tt)
         (fun c => c = match filter Js.nonEmpty (Js.split slash n) with
                       | [] => []
                       | names => [EnsureDir (Js.join "/" names)]
                       end)
         (fun st => st).
Proof.
  rewrite folders_of_folder_path.
  destruct (filter Js.nonEmpty (Js.split slash n)) as [|x l].
  - exact (@Smooth_onNet _ (log LVerbose "  no need to change dir") tt _ eq_refl).
  - destruct (ensureDir_accepted (Js.join "/" (x :: l))) as [t [E C]].
    apply Smooth_weaken with (Q := fun c => c = netCalls t);
      [intros c ->; exact C|].
    apply Smooth_onNet. now apply safeOp_accepted.
Qed.

Lemma way_back_accepted (n : string) :
  Smooth (onNet (upDir X (option_map (@length string)
                                     (folders (getFileBreadcrumbs (n ++ "/"))))))
         (Returned tt)
         (fun c => c = repeat Cdup (length (filter Js.nonEmpty (Js.split slash n))))
         (fun st => st).
Proof.
  rewrite folders_of_folder_path.
  destruct (filter Js.nonEmpty (Js.split slash n)) as [|x l].
  - exact (@Smooth_onNet _ (upDir X None) tt _ eq_refl).
  - cbn [option_map].
    destruct (upDir_accepted (length (x :: l))) as [t [E C]].
    apply Smooth_weaken with (Q := fun c => c = netCalls t);
      [intros c ->; exact C|].
    now apply Smooth_onNet.
Qed.

End WayBack.

(** X26. [createFolder] of the version with the periodic flush, in a run
    that is not a dry run and on a server that accepts every call, with a
    [retryRequest] that runs a callback that returns once.  Its calls are
    the keep-alive probe when it is due, one [ensureDir] for the path made
    of the non-empty names of the folder path (none when there is no such
    name), and one [cdup] for each of these names: it climbs back as many
    levels as it went down.  It then appends the folder to the state of the
    provider, and ends there, without returning: the call that should write
    the state to the local state file throws an error without a code, and
    no file is written. *)
Theorem createFolder_climbs_back :
  forall (X : External) (P : Provider) (n : string) (w : World),
    TransparentRetry X ->
    dryRun P = false ->
    script w = [] ->
    let names := filter Js.nonEmpty (Js.split slash n) in
    let r := Current.createFolder X P n w in
    (exists message, out r = Threw (JsError message None))
    /\ (exists probe,
          (probe = [] \/ probe = [Send "NOOP"])
          /\ callsOf (emitted r)
             = (probe
                ++ match names with [] => [] | _ => [EnsureDir (Js.join "/" names)] end
                ++ repeat Cdup (length names))%list)
    /\ writesOf (emitted r) = []
    /\ disk (final r) = disk w
    /\ state (final r) = Current.pushEntry (mkEntry TFolder n None None) (state w).
Proof.
  intros X P n w retry D S. cbv zeta.
  pose proof (@Smooth_onNet _ (log LAll ("creating folder " ++ Js.quote ++ (n ++ "/")
                                         ++ Js.quote)) tt _ eq_refl) as L0.
  pose proof Smooth_sendNoopIfNeeded as L1.
  pose proof (@way_in_accepted X P retry PeriodicFlush n) as L2.
  pose proof (@way_back_accepted X retry n) as L3.
  pose proof (@Smooth_onNet _ (log LVerbose "  completed") tt _ eq_refl) as L4.
  assert (L5 : Smooth
                 (modify (fun w0 => setState (Current.pushEntry
                                                (mkEntry TFolder n None None)
                                                (state w0)) w0) ;;
                  m <- gets state ;;
                  Current.createLocalState m (localPath P) (stateName P))
                 (Threw (notAFunction "createLocalState"))
                 (fun c => c = [])
                 (Current.pushEntry (mkEntry TFolder n None None))).
  { intros w1 S1. do 2 eexists. split; [apply createFolder_tail|].
    now repeat split. }
  destruct (Smooth_then L0 (Smooth_then L1 (Smooth_then L2 (Smooth_then L3
              (Smooth_then L4 L5)))) w S)
    as [t [w' [E [[c0 [c1 [E0 [H0 [c2 [c3 [E1 [Hp [c4 [c5 [E2 [H2 [c6 [c7 [E3
        [H3 [c8 [c9 [E4 [H4 H5]]]]]]]]]]]]]]]]]]]] [W [_ [Dk St]]]]]]].
  assert (E' : Current.createFolder X P n w
               = mkRes (Threw (notAFunction "createLocalState")) t w')
    by (unfold Current.createFolder; rewrite D; exact E).
  rewrite E', out_mkRes, emitted_mkRes, final_mkRes.
  split; [eexists; reflexivity|].
  split; [|now repeat split].
  exists c2. split; [exact Hp|].
  rewrite E0, E1, E2, E3, E4, H0, H2, H3, H4, H5.
  cbn [netCalls flat_map log emit emitted app].
  rewrite !app_nil_r.
  now destruct (filter Js.nonEmpty (Js.split slash n)).
Qed.

Lemma createFolder_climbs_back_witness :
  let r := Current.createFolder sampleExternal sampleProvider "img/icons" (worldWith []) in
  callsOf (emitted r) = [EnsureDir "img/icons"; Cdup; Cdup]
  /\ data (state (final r)) = [mkEntry TFolder "img/icons" None None]
  /\ writesOf (emitted r) = [].
Proof.
  cbv zeta.
  destruct (@createFolder_climbs_back sampleExternal sampleProvider "img/icons"
              (worldWith []) (fun A callback s a _ => eq_refl) eq_refl eq_refl)
    as [_ [_ [W [_ St]]]].
  split; [reflexivity | split; [now rewrite St | exact W]].
Defined.
